(** * Memory Ledger Protocol: a shallow embedding of the ledger engine

    The development follows the JavaScript sources:
    - [integrations/clawdbot/src/relevance.js]  (modules [Relevance], [Heap],
                                                 [Views])
    - [integrations/clawdbot/src/envelope.js]   (modules [Envelope], [EnvelopeOps])
    - [mlp-storage/src/context-pack.js]         (modules [ContextPack], [Storage],
                                                 [Retrieval], [PackCheck])
    - [mlp-storage/src/encryption.js]           (modules [Encryption], [Signing],
                                                 [MLP], [Kernel], [AccessPolicy],
                                                 [PolicyOps])

    Conventions of the embedding.
    - JavaScript strings are Rocq strings read as ASCII text; [toLowerCase],
      the regular expressions [\w] and [\s] are given on ASCII.
    - JavaScript numbers that carry scores are exact rationals ([Q]), or
      [NaN] where the source produces it; counts, lengths and millisecond
      timestamps are integers ([Z]).
    - An ISO date string is represented by the timestamp that
      [new Date(s).getTime()] yields; the clock [Date.now()] is an explicit
      argument [now].
    - [null]/[undefined] fields are [option]s; a call that may throw returns
      an [outcome].
    - [await] is sequential evaluation. *)

From Stdlib Require Import String Ascii List ZArith QArith Qminmax Lia Bool.
From Stdlib Require Import Sorting.Permutation Sorting.Sorted.
From Stdlib Require Import DecimalString Lqa.
From stdpp Require Import gmap strings.

Import ListNotations.
Local Open Scope string_scope.
Local Open Scope Z_scope.

(** ** JavaScript runtime helpers *)

Module JS.

(** Result of a call that may throw [new Error(msg)]. *)
Inductive outcome (A : Type) : Type :=
| Returns (a : A)
| Throws (msg : string).
Arguments Returns {A} a.
Arguments Throws {A} msg.

Definition bind {A B} (c : outcome A) (k : A -> outcome B) : outcome B :=
  match c with
  | Returns a => k a
  | Throws m => Throws m
  end.

(** [a || b] on nullable values. *)
Definition or_else {A} (a b : option A) : option A :=
  match a with
  | Some x => Some x
  | None => b
  end.

Definition is_upper (c : ascii) : bool :=
  let n := nat_of_ascii c in (65 <=? n)%nat && (n <=? 90)%nat.

Definition is_lower (c : ascii) : bool :=
  let n := nat_of_ascii c in (97 <=? n)%nat && (n <=? 122)%nat.

Definition is_digit (c : ascii) : bool :=
  let n := nat_of_ascii c in (48 <=? n)%nat && (n <=? 57)%nat.

(** The class [\w]: letters, digits and the underscore. *)
Definition is_word (c : ascii) : bool :=
  is_upper c || is_lower c || is_digit c || (nat_of_ascii c =? 95)%nat.

(** The class [\s] on ASCII: tab, line feed, vertical tab, form feed,
    carriage return and space. *)
Definition is_space (c : ascii) : bool :=
  let n := nat_of_ascii c in ((9 <=? n)%nat && (n <=? 13)%nat) || (n =? 32)%nat.

Definition lower_char (c : ascii) : ascii :=
  if is_upper c then ascii_of_nat (nat_of_ascii c + 32) else c.

(** [s.toLowerCase()] *)
Fixpoint toLowerCase (s : string) : string :=
  match s with
  | EmptyString => EmptyString
  | String c r => String (lower_char c) (toLowerCase r)
  end.

(** [hay.includes(needle)] *)
Fixpoint includes (hay needle : string) : bool :=
  String.prefix needle hay ||
  match hay with
  | EmptyString => false
  | String _ r => includes r needle
  end.

(** [s.replace(/[^\w\s]/g, '')] *)
Fixpoint strip_punctuation (s : string) : string :=
  match s with
  | EmptyString => EmptyString
  | String c r =>
      if is_word c || is_space c then String c (strip_punctuation r)
      else strip_punctuation r
  end.

(** [s.split(/\s+/)]: [cur] is the piece being read, [in_ws] tells that the
    previous character was white space.  As in JavaScript a leading or
    trailing run of white space yields an empty first or last piece, and
    the empty string splits into one empty piece. *)
Fixpoint split_ws_from (s : string) (cur : string) (in_ws : bool) : list string :=
  match s with
  | EmptyString => [cur]
  | String c r =>
      if is_space c then
        if in_ws then split_ws_from r cur true
        else cur :: split_ws_from r EmptyString true
      else split_ws_from r (cur ++ String c EmptyString) false
  end.

Definition split_ws (s : string) : list string := split_ws_from s EmptyString false.

(** [s.slice(0, n)] *)
Definition slice0 (n : nat) (s : string) : string := String.substring 0 n s.

(** [array.includes(x)] on strings. *)
Definition arr_includes (l : list string) (x : string) : bool :=
  existsb (String.eqb x) l.

(** [Array.prototype.sort(cmp)].  ECMAScript requires the sort to be stable,
    so for a consistent comparator the result is the stable arrangement in
    which [a] stands after [b] exactly when [cmp a b > 0]; stable insertion
    computes it. *)
Fixpoint sort_insert {A} (cmp : A -> A -> Q) (x : A) (l : list A) : list A :=
  match l with
  | [] => [x]
  | y :: r =>
      if Qlt_le_dec 0 (cmp x y) then y :: sort_insert cmp x r
      else x :: y :: r
  end.

Fixpoint sort {A} (cmp : A -> A -> Q) (l : list A) : list A :=
  match l with
  | [] => []
  | x :: r => sort_insert cmp x (sort cmp r)
  end.

(** [Math.ceil(n / 4)] for a length [n]. *)
Definition ceil_div4 (n : nat) : Z := (Z.of_nat n + 3) / 4.

(** The property names every object literal inherits from
    [Object.prototype]: [object[name]] is defined for them, a function (an
    object for [__proto__]), and so truthy and no array. *)
Definition inherited_names : list string :=
  ["constructor"; "__defineGetter__"; "__defineSetter__"; "hasOwnProperty";
   "__lookupGetter__"; "__lookupSetter__"; "isPrototypeOf";
   "propertyIsEnumerable"; "toString"; "valueOf"; "__proto__";
   "toLocaleString"].

(** A number as scoring produces it: a rational, or [NaN]. *)
Inductive number :=
| Num (q : Q)
| NaN.

(** Arithmetic with [NaN]: an operation on [NaN] is [NaN]. *)
Definition num_lift (f : Q -> Q -> Q) (a b : number) : number :=
  match a, b with
  | Num x, Num y => Num (f x y)
  | _, _ => NaN
  end.

Definition num_add : number -> number -> number := num_lift Qplus.
Definition num_sub : number -> number -> number := num_lift Qminus.
Definition num_mul : number -> number -> number := num_lift Qmult.

(** [Math.max(a, b)] and [Math.min(a, b)] *)
Definition num_max : number -> number -> number := num_lift Qmax.
Definition num_min : number -> number -> number := num_lift Qmin.

(** The value [v] that a comparator returned, as [sort] reads it: [NaN]
    counts as [+0].  A comparator that returns [NaN] for some pairs is not
    consistent, and ECMAScript then leaves the order to the implementation;
    [sort] above stands for the engine on consistent comparators only. *)
Definition compare_value (v : number) : Q :=
  match v with
  | Num q => q
  | NaN => 0
  end.

End JS.

Import JS.

(** ** Memory envelopes (envelope.js) *)

Module Envelope.

Record Lineage := {
  parents : list string;
  supersedes : list string;
  branches : list string
}.

Record Attestation := {
  attestation_id : string;
  attester_id : string;
  attester_type : string;
  level : string;
  signature : string;
  signature_algorithm : string;
  signed_at : Z;
  public_key : option string
}.

Record MemoryEnvelope := {
  mlp_version : string;
  envelope_id : string;
  cid : option string;
  content_hash : option string;
  created_at : Z;
  scope : string;
  kind : string;
  access_policy_ref : option string;
  lineage : Lineage;
  attestations : list Attestation;
  epoch_id : option string;
  topic_tags : list string;
  risk_class : string;
  ttl_hint : string
}.

(** [getSignableData()]: every field but the attestations and the hints. *)
Record SignableData := {
  s_mlp_version : string;
  s_envelope_id : string;
  s_cid : option string;
  s_content_hash : option string;
  s_created_at : Z;
  s_scope : string;
  s_kind : string;
  s_access_policy_ref : option string;
  s_lineage : Lineage;
  s_epoch_id : option string;
  s_topic_tags : list string;
  s_risk_class : string
}.

Definition getSignableData (e : MemoryEnvelope) : SignableData :=
  {| s_mlp_version := mlp_version e;
     s_envelope_id := envelope_id e;
     s_cid := cid e;
     s_content_hash := content_hash e;
     s_created_at := created_at e;
     s_scope := scope e;
     s_kind := kind e;
     s_access_policy_ref := access_policy_ref e;
     s_lineage := lineage e;
     s_epoch_id := epoch_id e;
     s_topic_tags := topic_tags e;
     s_risk_class := risk_class e |}.

(** [isTombstone()] *)
Definition isTombstone (e : MemoryEnvelope) : bool := String.eqb (kind e) "tombstone".

(** [supersedes(envelopeId)] *)
Definition supersedes_id (e : MemoryEnvelope) (envelopeId : string) : bool :=
  arr_includes (supersedes (lineage e)) envelopeId.

(** [createTombstone(reason)].  The constructor fills what the call leaves
    out: [fresh_id] is the [randomUUID()] drawn for [envelope_id], [now] the
    clock read for [created_at]; the other fields take the constructor's
    defaults. *)
Definition createTombstone (e : MemoryEnvelope) (fresh_id : string) (now : Z)
  : MemoryEnvelope :=
  {| mlp_version := mlp_version e;
     envelope_id := fresh_id;
     cid := None;
     content_hash := None;
     created_at := now;
     scope := scope e;
     kind := "tombstone";
     access_policy_ref := None;
     lineage := {| parents := []; supersedes := [envelope_id e]; branches := [] |};
     attestations := [];
     epoch_id := None;
     topic_tags := [];
     risk_class := "low";
     ttl_hint := "P30D" |}.

(** One entry of the [attestations] array that [verify] reports. *)
Record AttestationResult := {
  r_attester : string;
  r_valid : bool;
  r_level : option string;
  r_reason : option string
}.

Record VerifyResult := {
  valid : bool;
  reason : option string;
  results : option (list AttestationResult)
}.

Section Verify.

(** [encryption.verify(data, signature, publicKey)]: the signature check of
    the encryption object handed to [verify]; it returns a boolean or
    throws. *)
Variable enc_verify : SignableData -> string -> string -> outcome bool.

(** [trustedKeys]: attester id to public key. *)
Variable trustedKeys : gmap string string.

(** The body of the [for] loop of [verify] for one attestation. *)
Definition verify_one (e : MemoryEnvelope) (a : Attestation) : AttestationResult :=
  match or_else (trustedKeys !! attester_id a) (public_key a) with
  | None =>
      {| r_attester := attester_id a; r_valid := false; r_level := None;
         r_reason := Some "No public key available" |}
  | Some publicKey =>
      match enc_verify (getSignableData e) (signature a) publicKey with
      | Returns v =>
          {| r_attester := attester_id a; r_valid := v;
             r_level := Some (level a); r_reason := None |}
      | Throws msg =>
          {| r_attester := attester_id a; r_valid := false; r_level := None;
             r_reason := Some msg |}
      end
  end.

(** [verify(encryption, trustedKeys)] *)
Definition verify (e : MemoryEnvelope) : VerifyResult :=
  match attestations e with
  | [] => {| valid := false; reason := Some "No attestations"; results := None |}
  | _ :: _ =>
      let rs := map (verify_one e) (attestations e) in
      {| valid := forallb r_valid rs; reason := None; results := Some rs |}
  end.

End Verify.

End Envelope.

(** ** Relevance scoring (relevance.js) *)

Module Relevance.
Import Envelope.
Local Open Scope Q_scope.

(** The part of the identity kernel that scoring reads:
    [kernel?.invariants?.values]. *)
Record Invariants := {
  values : option (list string);
  boundaries : list string
}.

Record IdentityKernel := {
  kernel_id : string;
  invariants : option Invariants
}.

(** The object literal [scores] of [getKindScoresForIntent]. *)
Record KindScores := {
  semantic : Q;
  episodic : Q;
  reflection : Q;
  kernel_ref : Q;
  policy : Q;
  tombstone : Q
}.

Definition set_reflection (v : Q) (s : KindScores) : KindScores :=
  {| semantic := semantic s; episodic := episodic s; reflection := v;
     kernel_ref := kernel_ref s; policy := policy s; tombstone := tombstone s |}.

Definition set_episodic (v : Q) (s : KindScores) : KindScores :=
  {| semantic := semantic s; episodic := v; reflection := reflection s;
     kernel_ref := kernel_ref s; policy := policy s; tombstone := tombstone s |}.

Definition set_semantic (v : Q) (s : KindScores) : KindScores :=
  {| semantic := v; episodic := episodic s; reflection := reflection s;
     kernel_ref := kernel_ref s; policy := policy s; tombstone := tombstone s |}.

Definition set_kernel_ref (v : Q) (s : KindScores) : KindScores :=
  {| semantic := semantic s; episodic := episodic s; reflection := reflection s;
     kernel_ref := v; policy := policy s; tombstone := tombstone s |}.

Definition defaultKindScores : KindScores :=
  {| semantic := 0.7; episodic := 0.5; reflection := 0.6;
     kernel_ref := 0.8; policy := 0.4; tombstone := 0 |}.

(** [getKindScoresForIntent(intent)] *)
Definition getKindScoresForIntent (intent : string) : KindScores :=
  let intentLower := toLowerCase intent in
  let s0 := defaultKindScores in
  let s1 :=
    if includes intentLower "reflect" || includes intentLower "review"
    then set_episodic 0.8 (set_reflection 1.0 s0) else s0 in
  let s2 :=
    if includes intentLower "learn" || includes intentLower "knowledge"
    then set_semantic 1.0 s1 else s1 in
  let s3 :=
    if includes intentLower "history" || includes intentLower "past"
    then set_episodic 1.0 s2 else s2 in
  if includes intentLower "identity" || includes intentLower "values"
  then set_reflection 0.9 (set_kernel_ref 1.0 s3) else s3.

(** What [kindScores[kind]] evaluates to: the entry of that name, a member
    of [Object.prototype] for an inherited name, [undefined] for any other
    string. *)
Inductive KindScore :=
| OwnScore (q : Q)
| InheritedMember
| NoScore.

(** [kindScores[kind]] *)
Definition kindScores_get (s : KindScores) (k : string) : KindScore :=
  if String.eqb k "semantic" then OwnScore (semantic s)
  else if String.eqb k "episodic" then OwnScore (episodic s)
  else if String.eqb k "reflection" then OwnScore (reflection s)
  else if String.eqb k "kernel_ref" then OwnScore (kernel_ref s)
  else if String.eqb k "policy" then OwnScore (policy s)
  else if String.eqb k "tombstone" then OwnScore (tombstone s)
  else if arr_includes inherited_names k then InheritedMember
  else NoScore.

(** [x || d], as the factor it becomes in [weights.kindMatch * kindScore]:
    [undefined] and [0] are falsy and give [d]; an inherited member is
    truthy, and as a number it is [NaN]. *)
Definition num_or (x : KindScore) (d : Q) : number :=
  match x with
  | OwnScore q => if Qeq_bool q 0 then Num d else Num q
  | InheritedMember => NaN
  | NoScore => Num d
  end.

(** [tokenizeIntent(intent)] *)
Definition tokenizeIntent (intent : string) : list string :=
  List.filter (fun t => (2 <? String.length t)%nat)
         (split_ws (strip_punctuation (toLowerCase intent))).

(** [computeTagOverlap(intentTokens, tags)] *)
Definition computeTagOverlap (intentTokens tags : list string) : Q :=
  if (length tags =? 0)%nat || (length intentTokens =? 0)%nat then 0.5
  else
    let tagSet := map toLowerCase tags in
    let matches := length (List.filter (fun t => arr_includes tagSet t) intentTokens) in
    inject_Z (Z.of_nat matches)
    / inject_Z (Z.of_nat (Nat.max (length intentTokens) (length tags))).

(** [computeValueAlignment(envelope, kernel)]: the two nested [for] loops
    return 0.9 at the first token of a value that some tag includes. *)
Definition computeValueAlignment (envelope : MemoryEnvelope)
    (kernel : option IdentityKernel) : Q :=
  match kernel with
  | None => 0.5
  | Some k =>
      match invariants k with
      | None => 0.5
      | Some inv =>
          match values inv with
          | None => 0.5
          | Some vs =>
              let vals := map toLowerCase vs in
              let tags := map toLowerCase (topic_tags envelope) in
              if existsb
                   (fun value =>
                      existsb (fun token => existsb (fun t => includes t token) tags)
                              (split_ws value))
                   vals
              then 0.9 else 0.5
          end
      end
  end.

(** [computeRiskScore(envelope, intent)] *)
Definition computeRiskScore (envelope : MemoryEnvelope) (intent : string) : Q :=
  let risk := if String.eqb (risk_class envelope) "" then "low"%string
              else risk_class envelope in
  let intentLower := toLowerCase intent in
  if String.eqb risk "high" then
    if includes intentLower "sensitive" || includes intentLower "private"
       || includes intentLower "confidential"
    then 1.0 else 0.3
  else if String.eqb risk "med" then 0.7
  else 1.0.

(** [computeRelevance(envelope, intent, kernel)]; [now] is the value that
    [Date.now()] returns during the call. *)
Definition computeRelevance (now : Z) (envelope : MemoryEnvelope)
    (intent : string) (kernel : option IdentityKernel) : number :=
  let score := Num 0 in
  let ageMs := (now - created_at envelope)%Z in
  let ageDays := inject_Z ageMs / inject_Z (1000 * 60 * 60 * 24) in
  let recencyScore := Qmax 0 (1 - ageDays / 365) in
  let score := num_add score (Num (0.25 * recencyScore)) in
  let kindScores := getKindScoresForIntent intent in
  let kindScore := num_or (kindScores_get kindScores (kind envelope)) 0.5 in
  let score := num_add score (num_mul (Num 0.20) kindScore) in
  let intentTokens := tokenizeIntent intent in
  let tagOverlap := computeTagOverlap intentTokens (topic_tags envelope) in
  let score := num_add score (Num (0.25 * tagOverlap)) in
  let valueScore := computeValueAlignment envelope kernel in
  let score := num_add score (Num (0.15 * valueScore)) in
  let riskScore := computeRiskScore envelope intent in
  let score := num_add score (Num (0.15 * riskScore)) in
  num_min (Num 1) (num_max (Num 0) score).

(** [estimateTokens(content)].  Decrypted content is a string or a JSON
    value; [json_text] is the text [JSON.stringify] prints for the latter. *)
Inductive Content :=
| Text (s : string)
| Json (json_text : string).

Definition estimateTokens (content : Content) : Z :=
  let text := match content with
              | Text s => s
              | Json json_text => json_text
              end in
  ceil_div4 (String.length text).

(** An element of the array that [scoreEnvelopes] returns. *)
Record Scored := {
  envelope : MemoryEnvelope;
  score : number
}.

(** The [.map(env => ({envelope: env, score: computeRelevance(...)}))] step
    of [scoreEnvelopes].  Each call of [computeRelevance] reads the clock
    anew: [clock i] is the reading during the call for the envelope at
    index [i]. *)
Definition attach_scores (clock : nat -> Z) (envelopes : list MemoryEnvelope)
    (intent : string) (kernel : option IdentityKernel) : list Scored :=
  imap (fun i env => {| envelope := env;
                        score := computeRelevance (clock i) env intent kernel |})
       envelopes.

(** [scoreEnvelopes(envelopes, intent, kernel)] *)
Definition scoreEnvelopes (clock : nat -> Z) (envelopes : list MemoryEnvelope)
    (intent : string) (kernel : option IdentityKernel) : list Scored :=
  sort (fun a b => compare_value (num_sub (score b) (score a)))
       (attach_scores clock envelopes intent kernel).

End Relevance.

(** ** [computeRelevance] on the objects it is handed (relevance.js)

    The envelope and the kernel that [computeRelevance] receives are
    references to objects which the caller goes on using.  Here the objects
    live in a heap, and the function is a computation on the heap and on
    the clock: every property access of the source is a read of the heap
    at that point of the call. *)

Module Heap.
Import Envelope Relevance.
Local Open Scope Q_scope.

Abbreviation loc := nat.

(** The objects that the arguments reach.  An envelope object holds its
    fields, and its array [topic_tags] by reference ([None] when the field
    is missing; the list inside [fields] is not read); a kernel object
    holds [invariants] by reference, and that object the array [values]. *)
Inductive object :=
| ArrayObject (items : list string)
| EnvelopeObject (fields : MemoryEnvelope) (topic_tags_at : option loc)
| KernelObject (id : string) (invariants_at : option loc)
| InvariantsObject (values_at : option loc) (boundaries_ : list string).

(** The heap, and the number of clock readings taken so far. *)
Record World := {
  heap : gmap loc object;
  clock_reads : nat
}.

(** A computation: it returns or throws, and leaves a world. *)
Definition Run (A : Type) : Type := World -> outcome A * World.

Definition ret {A} (a : A) : Run A := fun w => (Returns a, w).

Definition throw {A} (msg : string) : Run A := fun w => (Throws msg, w).

Definition bind_run {A B} (c : Run A) (k : A -> Run B) : Run B :=
  fun w =>
    match c w with
    | (Returns a, w') => k a w'
    | (Throws msg, w') => (Throws msg, w')
    end.

Local Notation "'do' x <- c ; k" := (bind_run c (fun x => k))
  (at level 10, x name, c at level 100, k at level 200).

(** [Date.now()]: the next reading of the clock. *)
Definition Date_now (clock : nat -> Z) : Run Z :=
  fun w => (Returns (clock (clock_reads w)),
            {| heap := heap w; clock_reads := S (clock_reads w) |}).

(** The object behind a reference. *)
Definition read (l : loc) : Run object :=
  fun w =>
    match heap w !! l with
    | Some o => (Returns o, w)
    | None => (Throws "no object at this address", w)
    end.

(** [envelope.field] for a field held in the envelope object. *)
Definition envelope_field {A} (envelope : loc) (field : MemoryEnvelope -> A)
  : Run A :=
  do o <- read envelope ;
  match o with
  | EnvelopeObject fields _ => ret (field fields)
  | _ => throw "not an envelope"
  end.

(** The items of the array behind a reference, as [.length], [.map] and
    [.some] read them. *)
Definition array_items (l : loc) : Run (list string) :=
  do o <- read l ;
  match o with
  | ArrayObject items => ret items
  | _ => throw "not an array"
  end.

(** [envelope.topic_tags || []], read through. *)
Definition envelope_tags (envelope : loc) : Run (list string) :=
  do o <- read envelope ;
  match o with
  | EnvelopeObject _ (Some tags_at) => array_items tags_at
  | EnvelopeObject _ None => ret []
  | _ => throw "not an envelope"
  end.

(** [kernel?.invariants?.values], read through: [None] when the chain ends
    in [undefined]. *)
Definition kernel_values (kernel : option loc) : Run (option (list string)) :=
  match kernel with
  | None => ret None
  | Some k =>
      do o <- read k ;
      match o with
      | KernelObject _ (Some invariants_at) =>
          do i <- read invariants_at ;
          match i with
          | InvariantsObject (Some values_at) _ =>
              do vs <- array_items values_at ; ret (Some vs)
          | InvariantsObject None _ => ret None
          | _ => throw "not an invariants object"
          end
      | KernelObject _ None => ret None
      | _ => throw "not a kernel"
      end
  end.

(** [computeValueAlignment(envelope, kernel)] *)
Definition computeValueAlignment_run (envelope : loc) (kernel : option loc)
  : Run Q :=
  do kernel_values_ <- kernel_values kernel ;
  match kernel_values_ with
  | None => ret 0.5
  | Some vs =>
      let vals := map toLowerCase vs in
      do envelope_tags_ <- envelope_tags envelope ;
      let tags := map toLowerCase envelope_tags_ in
      if existsb
           (fun value =>
              existsb (fun token => existsb (fun t => includes t token) tags)
                      (split_ws value))
           vals
      then ret 0.9 else ret 0.5
  end.

(** [computeRiskScore(envelope, intent)] *)
Definition computeRiskScore_run (envelope : loc) (intent : string) : Run Q :=
  do risk_class_ <- envelope_field envelope risk_class ;
  let risk := if String.eqb risk_class_ "" then "low"%string else risk_class_ in
  let intentLower := toLowerCase intent in
  if String.eqb risk "high" then
    if includes intentLower "sensitive" || includes intentLower "private"
       || includes intentLower "confidential"
    then ret 1.0 else ret 0.3
  else if String.eqb risk "med" then ret 0.7
  else ret 1.0.

(** [computeRelevance(envelope, intent, kernel)] *)
Definition computeRelevance_run (clock : nat -> Z) (envelope : loc)
    (intent : string) (kernel : option loc) : Run number :=
  let score := Num 0 in
  do now <- Date_now clock ;
  do created <- envelope_field envelope created_at ;
  let ageMs := (now - created)%Z in
  let ageDays := inject_Z ageMs / inject_Z (1000 * 60 * 60 * 24) in
  let recencyScore := Qmax 0 (1 - ageDays / 365) in
  let score := num_add score (Num (0.25 * recencyScore)) in
  let kindScores := getKindScoresForIntent intent in
  do kind_ <- envelope_field envelope kind ;
  let kindScore := num_or (kindScores_get kindScores kind_) 0.5 in
  let score := num_add score (num_mul (Num 0.20) kindScore) in
  let intentTokens := tokenizeIntent intent in
  do tags <- envelope_tags envelope ;
  let tagOverlap := computeTagOverlap intentTokens tags in
  let score := num_add score (Num (0.25 * tagOverlap)) in
  do valueScore <- computeValueAlignment_run envelope kernel ;
  let score := num_add score (Num (0.15 * valueScore)) in
  do riskScore <- computeRiskScore_run envelope intent ;
  let score := num_add score (Num (0.15 * riskScore)) in
  ret (num_min (Num 1) (num_max (Num 0) score)).

(** The envelope [fields] with the array [tags] as its [topic_tags]. *)
Definition with_topic_tags (fields : MemoryEnvelope) (tags : list string)
  : MemoryEnvelope :=
  {| mlp_version := mlp_version fields; envelope_id := envelope_id fields;
     cid := cid fields; content_hash := content_hash fields;
     created_at := created_at fields; scope := scope fields;
     kind := kind fields; access_policy_ref := access_policy_ref fields;
     lineage := lineage fields; attestations := attestations fields;
     epoch_id := epoch_id fields; topic_tags := tags;
     risk_class := risk_class fields; ttl_hint := ttl_hint fields |}.

(** The envelope that the object at [l] stands for, read as a whole. *)
Definition envelope_view (h : gmap loc object) (l : loc) : option MemoryEnvelope :=
  match h !! l with
  | Some (EnvelopeObject fields (Some tags_at)) =>
      match h !! tags_at with
      | Some (ArrayObject items) => Some (with_topic_tags fields items)
      | _ => None
      end
  | Some (EnvelopeObject fields None) => Some (with_topic_tags fields [])
  | _ => None
  end.

(** The kernel that the argument [kernel] stands for, read as a whole;
    the outer [None] tells that the objects are not those of a kernel. *)
Definition kernel_view (h : gmap loc object) (kernel : option loc)
  : option (option IdentityKernel) :=
  match kernel with
  | None => Some None
  | Some k =>
      match h !! k with
      | Some (KernelObject id (Some invariants_at)) =>
          match h !! invariants_at with
          | Some (InvariantsObject (Some values_at) boundaries_) =>
              match h !! values_at with
              | Some (ArrayObject vs) =>
                  Some (Some {| kernel_id := id;
                                invariants :=
                                  Some {| values := Some vs;
                                          boundaries := boundaries_ |} |})
              | _ => None
              end
          | Some (InvariantsObject None boundaries_) =>
              Some (Some {| kernel_id := id;
                            invariants :=
                              Some {| values := None;
                                      boundaries := boundaries_ |} |})
          | _ => None
          end
      | Some (KernelObject id None) =>
          Some (Some {| kernel_id := id; invariants := None |})
      | _ => None
      end
  end.

End Heap.

(** ** ContextPack compilation (context-pack.js) *)

Module ContextPack.
Import Envelope Relevance.

(** [options.constraints]; a field left out is [None] and takes the default
    of the destructuring pattern. *)
Record Constraints := {
  c_scope : option (list string);
  c_kinds : option (list string);
  c_since : option Z;
  c_maxCandidates : option Z;
  c_maxTokens : option Z;
  c_maxMemories : option Z
}.

(** The argument of [queryEnvelopes]. *)
Record Query := {
  q_scope : list string;
  q_kinds : list string;
  q_since : option Z;
  q_limit : Z
}.

(** An element of [memory_slices]. *)
Record Slice := {
  slice_envelope : MemoryEnvelope;
  decrypted_content : option Content;
  access_level : string;
  relevance_score : number
}.

(** The variables of the budgeting loop. *)
Record LoopState := {
  tokenCount : Z;
  included : list Slice;
  denied : list string
}.

Definition initialState : LoopState :=
  {| tokenCount := 0; included := []; denied := [] |}.

(** [included.filter(m => m.access_level === lvl).length] *)
Definition count_level (lvl : string) (l : list Slice) : Z :=
  Z.of_nat (length (List.filter (fun m => String.eqb (access_level m) lvl) l)).

(** [estimateTokens(m.decrypted_content)]; withheld content is [null]. *)
Definition slice_tokens (m : Slice) : Z :=
  estimateTokens (default (Json "null") (decrypted_content m)).

(** The summed token estimate of the slices with access level 'full'. *)
Fixpoint full_tokens (l : list Slice) : Z :=
  match l with
  | [] => 0
  | m :: r =>
      if String.eqb (access_level m) "full" then slice_tokens m + full_tokens r
      else full_tokens r
  end.

Definition deny (st : LoopState) (id : string) : LoopState :=
  {| tokenCount := tokenCount st; included := included st;
     denied := denied st ++ [id] |}.

(** The slice pushed for an item over the token budget. *)
Definition metadata_slice (item : Scored) : Slice :=
  {| slice_envelope := envelope item; decrypted_content := None;
     access_level := "metadata_only"; relevance_score := score item |}.

(** The slice pushed for an item within the budget. *)
Definition full_slice (item : Scored) (blob : Content) : Slice :=
  {| slice_envelope := envelope item; decrypted_content := Some blob;
     access_level := "full"; relevance_score := score item |}.

Definition push_metadata_only (st : LoopState) (item : Scored) : LoopState :=
  {| tokenCount := tokenCount st;
     included := included st ++ [metadata_slice item];
     denied := denied st |}.

Definition push_full (st : LoopState) (item : Scored) (blob : Content)
    (tokens : Z) : LoopState :=
  {| tokenCount := tokenCount st + tokens;
     included := included st ++ [full_slice item blob];
     denied := denied st |}.

Record CompilationTrace := {
  requested_by : string;
  trace_intent : string;
  memories_considered : Z;
  memories_included : Z;
  memories_redacted : Z;
  memories_metadata_only : Z;
  memories_denied : Z;
  total_tokens : Z
}.

(** The compiled pack.  [pack_id], [compiled_at], [active_policies],
    [constraints_applied] and [session_constraints] are left out: they are
    drawn from the random source, the clock, the policy store and the
    constraints and feed neither the slices nor the counts. *)
Record Pack := {
  pack_kernel : IdentityKernel;
  memory_slices : list Slice;
  compilation_trace : CompilationTrace
}.

Section Compile.

(** [queryEnvelopes]: the caller's candidate query. *)
Variable queryEnvelopes : Query -> list MemoryEnvelope.

(** [fetchAndDecrypt(cid)]: the caller's blob loader; [Throws] when the blob
    is missing or does not decrypt (and for a result on which
    [estimateTokens] would throw, which the same [try] catches).  During one
    compilation an address yields one result. *)
Variable fetchAndDecrypt : option string -> outcome Content.

(** How one iteration of the [for] loop ends: it goes on to the next item
    with a new state ([continue], or the end of the body), or it leaves the
    loop ([break]). *)
Inductive Step :=
| Continue (st : LoopState)
| Break.

(** The body of [for (const item of scored)]. *)
Definition loop_body (maxTokens maxMemories : Z) (item : Scored)
    (st : LoopState) : Step :=
  if String.eqb (kind (envelope item)) "tombstone" then
    Continue (deny st (envelope_id (envelope item)))
  else
    match fetchAndDecrypt (cid (envelope item)) with
    | Throws _ => Continue (deny st (envelope_id (envelope item)))
    | Returns blob =>
        let tokens := estimateTokens blob in
        if maxTokens <? tokenCount st + tokens then
          Continue (push_metadata_only st item)
        else if maxMemories <=? count_level "full" (included st) then
          Break
        else
          Continue (push_full st item blob tokens)
    end.

(** The loop over [scored], from state [st] on. *)
Fixpoint budget_loop (maxTokens maxMemories : Z) (scored : list Scored)
    (st : LoopState) : LoopState :=
  match scored with
  | [] => st
  | item :: rest =>
      match loop_body maxTokens maxMemories item st with
      | Continue st' => budget_loop maxTokens maxMemories rest st'
      | Break => st
      end
  end.

(** The destructuring of [constraints] with its defaults. *)
Definition maxTokens_of (constraints : Constraints) : Z :=
  default 4000 (c_maxTokens constraints).

Definition maxMemories_of (constraints : Constraints) : Z :=
  default 20 (c_maxMemories constraints).

Definition query_of (constraints : Constraints) : Query :=
  {| q_scope := default ["user"; "agent"] (c_scope constraints);
     q_kinds := default ["episodic"; "semantic"; "reflection"] (c_kinds constraints);
     q_since := c_since constraints;
     q_limit := default 200 (c_maxCandidates constraints) |}.

(** Steps 2 and 3: the candidates, scored and ranked. *)
Definition ranked (clock : nat -> Z) (kernel : IdentityKernel)
    (intent : string) (constraints : Constraints) : list Scored :=
  scoreEnvelopes clock (queryEnvelopes (query_of constraints)) intent (Some kernel).

(** [compileContextPack({kernel, intent, constraints, queryEnvelopes,
    fetchAndDecrypt})] *)
Definition compileContextPack (clock : nat -> Z) (kernel : IdentityKernel)
    (intent : string) (constraints : Constraints) : Pack :=
  let candidates := queryEnvelopes (query_of constraints) in
  let scored := ranked clock kernel intent constraints in
  let st := budget_loop (maxTokens_of constraints) (maxMemories_of constraints)
                        scored initialState in
  {| pack_kernel := kernel;
     memory_slices := included st;
     compilation_trace :=
       {| requested_by := kernel_id kernel;
          trace_intent := intent;
          memories_considered := Z.of_nat (length candidates);
          memories_included := count_level "full" (included st);
          memories_redacted := count_level "redacted" (included st);
          memories_metadata_only := count_level "metadata_only" (included st);
          memories_denied := Z.of_nat (length (denied st));
          total_tokens := tokenCount st |} |}.

End Compile.

End ContextPack.

(** ** Local content store (class [Storage] of context-pack.js) *)

Module Storage.
Import Relevance.

(** The storage object.  The local directory is a finite map from file path
    to file content; [init()] has created the directory, so [writeFile]
    succeeds. *)
Record Storage := {
  provider : string;
  localPath : string
}.

(** [s.replace('~', home)]: the first tilde only. *)
Fixpoint replace_tilde (home s : string) : string :=
  match s with
  | EmptyString => EmptyString
  | String c r =>
      if Ascii.eqb c "~"%char then home ++ r
      else String c (replace_tilde home r)
  end.

(** The pieces of a path between its separators. *)
Fixpoint split_slash (s : string) : list string :=
  match s with
  | EmptyString => [EmptyString]
  | String c r =>
      if Ascii.eqb c "/" then EmptyString :: split_slash r
      else
        match split_slash r with
        | piece :: pieces => String c piece :: pieces
        | [] => [String c EmptyString]
        end
  end.

(** One segment in [normalizeString] of node's [path] (POSIX); [res] holds
    the segments kept so far, the last one first.  An empty segment and [.]
    are dropped; [..] removes the segment before it, and is kept only
    where there is none to remove and the path is relative. *)
Definition normalize_segment (allowAboveRoot : bool) (res : list string)
    (segment : string) : list string :=
  if String.eqb segment "" || String.eqb segment "." then res
  else if String.eqb segment ".." then
    match res with
    | last_ :: before =>
        if String.eqb last_ ".." then
          if allowAboveRoot then ".." :: res else res
        else before
    | [] => if allowAboveRoot then [".."] else []
    end
  else segment :: res.

(** [normalizeString(path, allowAboveRoot, '/', isPosixPathSeparator)] *)
Definition normalizeString (path : string) (allowAboveRoot : bool) : string :=
  String.concat "/"
    (rev (fold_left (normalize_segment allowAboveRoot) (split_slash path) [])).

(** The last character of [path] is a separator. *)
Fixpoint ends_with_slash (path : string) : bool :=
  match path with
  | EmptyString => false
  | String c EmptyString => Ascii.eqb c "/"
  | String _ r => ends_with_slash r
  end.

(** [path.normalize(path)] *)
Definition normalize (path : string) : string :=
  if String.eqb path "" then "."
  else
    let isAbsolute := String.prefix "/" path in
    let trailingSeparator := ends_with_slash path in
    let normalized := normalizeString path (negb isAbsolute) in
    if String.eqb normalized "" then
      if isAbsolute then "/"
      else if trailingSeparator then "./" else "."
    else
      (if isAbsolute then "/" else "") ++ normalized
      ++ (if trailingSeparator then "/" else "").

(** [path.join(dir, name)]: the arguments that are not empty, joined by a
    separator and normalized. *)
Definition join (dir name : string) : string :=
  if String.eqb dir "" then
    if String.eqb name "" then "." else normalize name
  else if String.eqb name "" then normalize dir
  else normalize (dir ++ "/" ++ name).

Section Store.

(** [process.env.HOME] *)
Variable home : string.

(** [createHash('sha256').update(content).digest('hex')] *)
Variable sha256_hex : string -> string.

(** [storeIPFS(content)]: the remote backend, outside this model. *)
Variable storeIPFS : string -> outcome string.

(** The content-addressed id of [storeLocal]. *)
Definition local_cid (content : string) : string :=
  "local_" ++ slice0 32 (sha256_hex content).

Definition local_file (this : Storage) (cid : string) : string :=
  join (replace_tilde home (localPath this)) (cid ++ ".json").

(** [storeLocal(content)]: returns the id and the directory after
    [writeFile]. *)
Definition storeLocal (this : Storage) (fs : gmap string string)
    (content : string) : string * gmap string string :=
  let cid := local_cid content in
  (cid, <[local_file this cid := content]> fs).

(** [retrieveLocal(cid)], before the attempt to parse the text as JSON;
    [readFile] throws when the file is missing. *)
Definition retrieveLocal (this : Storage) (fs : gmap string string)
    (cid : string) : outcome string :=
  match fs !! local_file this cid with
  | Some content => Returns content
  | None => Throws "ENOENT"
  end.

(** [store(data)] *)
Definition store (this : Storage) (fs : gmap string string) (data : Content)
  : outcome (string * gmap string string) :=
  let content := match data with
                 | Text s => s
                 | Json json_text => json_text
                 end in
  if String.eqb (provider this) "ipfs" then
    bind (storeIPFS content) (fun cid => Returns (cid, fs))
  else if String.eqb (provider this) "arweave" then
    Throws "Arweave storage not yet implemented"
  else Returns (storeLocal this fs content).

End Store.

End Storage.

(** ** Symmetric encryption (class [Encryption] of encryption.js) *)

Module Encryption.

Abbreviation bytes := (list Byte.byte).

(** The encryption object: [this.secretKey] is unset until [init()]. *)
Record Encryption := {
  keyPath : string;
  algorithm : string;
  secretKey : option bytes
}.

(** The record that [encrypt] returns. *)
Record Encrypted := {
  nonce : string;
  ciphertext : string;
  enc_algorithm : string
}.

Definition set_key (this : Encryption) (k : bytes) : Encryption :=
  {| keyPath := keyPath this; algorithm := algorithm this; secretKey := Some k |}.

Fixpoint trim_left (s : string) : string :=
  match s with
  | EmptyString => EmptyString
  | String c r => if is_space c then trim_left r else s
  end.

Fixpoint string_rev (s : string) : string :=
  match s with
  | EmptyString => EmptyString
  | String c r => string_rev r ++ String c EmptyString
  end.

(** [s.trim()] *)
Definition trim (s : string) : string :=
  string_rev (trim_left (string_rev (trim_left s))).

Section Crypto.

(** The values handed to [encrypt]. *)
Variable value : Type.

(** [JSON.stringify] and [JSON.parse] *)
Variable JSON_stringify : value -> string.
Variable JSON_parse : string -> outcome value.

(** tweetnacl-util *)
Variable decodeUTF8 : string -> bytes.
Variable encodeUTF8 : bytes -> string.
Variable encodeBase64 : bytes -> string.
Variable decodeBase64 : string -> outcome bytes.

(** tweetnacl: [nacl.secretbox(message, nonce, key)] and
    [nacl.secretbox.open(box, nonce, key)], which yields [null] when the box
    does not authenticate. *)
Variable secretbox : bytes -> bytes -> bytes -> bytes.
Variable secretbox_open : bytes -> bytes -> bytes -> option bytes.

(** [loadOrCreateKey()]: the key file is read from the key store [fs]; when
    it is missing, the key [fresh] drawn from [nacl.randomBytes] is written
    there.  Returns the key now in [this.secretKey], the object and the key
    store. *)
Definition loadOrCreateKey (this : Encryption) (fs : gmap string string)
    (fresh : bytes) : outcome (bytes * Encryption * gmap string string) :=
  let keyFile := Storage.join (keyPath this) "secret.key" in
  match fs !! keyFile with
  | Some keyData =>
      bind (decodeBase64 (trim keyData)) (fun k => Returns (k, set_key this k, fs))
  | None =>
      Returns (fresh, set_key this fresh, <[keyFile := encodeBase64 fresh]> fs)
  end.

(** [if (!this.secretKey) await this.init()] followed by the read of
    [this.secretKey]. *)
Definition ensure_key (this : Encryption) (fs : gmap string string)
    (fresh : bytes) : outcome (bytes * Encryption * gmap string string) :=
  match secretKey this with
  | Some k => Returns (k, this, fs)
  | None => loadOrCreateKey this fs fresh
  end.

(** [encrypt(data)]; [fresh_nonce] is the nonce drawn from
    [nacl.randomBytes]. *)
Definition encrypt (this : Encryption) (fs : gmap string string)
    (fresh_key fresh_nonce : bytes) (data : value)
  : outcome (Encrypted * Encryption * gmap string string) :=
  bind (ensure_key this fs fresh_key) (fun '(key, this', fs') =>
    let message := decodeUTF8 (JSON_stringify data) in
    let encrypted := secretbox message fresh_nonce key in
    Returns ({| nonce := encodeBase64 fresh_nonce;
                ciphertext := encodeBase64 encrypted;
                enc_algorithm := algorithm this' |}, this', fs')).

(** [decrypt(encryptedData)] *)
Definition decrypt (this : Encryption) (fs : gmap string string)
    (fresh_key : bytes) (encryptedData : Encrypted)
  : outcome (value * Encryption * gmap string string) :=
  bind (ensure_key this fs fresh_key) (fun '(key, this', fs') =>
    bind (decodeBase64 (nonce encryptedData)) (fun nonce_bytes =>
    bind (decodeBase64 (ciphertext encryptedData)) (fun box =>
      match secretbox_open box nonce_bytes key with
      | None => Throws "Decryption failed - invalid key or corrupted data"
      | Some decrypted =>
          bind (JSON_parse (encodeUTF8 decrypted)) (fun v =>
            Returns (v, this', fs'))
      end))).

End Crypto.

End Encryption.

(** ** Access policies (class [AccessPolicy] of encryption.js) *)

Module AccessPolicy.

(** A principal id as the code compares it: a string or [null]. *)
Abbreviation principal := (option string).

Record Constraints := {
  valid_from : option Z;
  valid_until : option Z;
  max_retrievals : option Z;
  allowed_intents : list string;
  denied_intents : list string
}.

Record Redaction := {
  enabled : bool;
  fields_to_redact : list string;
  redaction_pattern : string
}.

Record AccessPolicy := {
  policy_id : string;
  updated_at : Z;
  owner_id : principal;
  principals : list principal;
  permissions : gmap string (list principal);
  constraints : Constraints;
  redaction : Redaction
}.

(** The result of [isValid()]. *)
Record Validity := {
  valid : bool;
  reason : option string
}.

(** [array.includes(x)] and [array.filter(id => id !== x)] on principals. *)
Definition has_principal (l : list principal) (x : principal) : bool :=
  existsb (fun y => bool_decide (y = x)) l.

Definition without (x : principal) (l : list principal) : list principal :=
  List.filter (fun id => negb (bool_decide (id = x))) l.

(** [hasPermission(principalId, permission)] *)
Definition hasPermission (this : AccessPolicy) (principalId : principal)
    (permission : string) : bool :=
  if bool_decide (principalId = owner_id this) then true
  else
    let allowed := default [] (permissions this !! permission) in
    has_principal allowed principalId || has_principal allowed (Some "*").

(** [isValid()] at clock reading [now]. *)
Definition isValid (this : AccessPolicy) (now : Z) : Validity :=
  match valid_from (constraints this) with
  | Some from =>
      if now <? from
      then {| valid := false; reason := Some "Policy not yet active" |}
      else
        match valid_until (constraints this) with
        | Some until =>
            if until <? now
            then {| valid := false; reason := Some "Policy expired" |}
            else {| valid := true; reason := None |}
        | None => {| valid := true; reason := None |}
        end
  | None =>
      match valid_until (constraints this) with
      | Some until =>
          if until <? now
          then {| valid := false; reason := Some "Policy expired" |}
          else {| valid := true; reason := None |}
      | None => {| valid := true; reason := None |}
      end
  end.

(** [isIntentAllowed(intent)] *)
Definition isIntentAllowed (this : AccessPolicy) (intent : string) : bool :=
  let intentLower := toLowerCase intent in
  if existsb (fun denied => includes intentLower (toLowerCase denied))
             (denied_intents (constraints this))
  then false
  else if (length (allowed_intents (constraints this)) =? 0)%nat then true
  else existsb (fun allowed => includes intentLower (toLowerCase allowed))
               (allowed_intents (constraints this)).

Definition set_permissions (this : AccessPolicy)
    (perms : gmap string (list principal)) (ps : list principal) (now : Z)
  : AccessPolicy :=
  {| policy_id := policy_id this; updated_at := now; owner_id := owner_id this;
     principals := ps; permissions := perms;
     constraints := constraints this; redaction := redaction this |}.

(** [grant(principalId, permission)] *)
Definition grant (this : AccessPolicy) (now : Z) (principalId : principal)
    (permission : string) : outcome AccessPolicy :=
  match permissions this !! permission with
  | None => Throws ("Unknown permission: " ++ permission)
  | Some l =>
      let ps := if has_principal (principals this) principalId
                then principals this else (principals this ++ [principalId])%list in
      let l' := if has_principal l principalId then l else (l ++ [principalId])%list in
      Returns (set_permissions this (<[permission := l']> (permissions this)) ps now)
  end.

(** [revoke(principalId, permission)] *)
Definition revoke (this : AccessPolicy) (now : Z) (principalId : principal)
    (permission : string) : outcome AccessPolicy :=
  match permissions this !! permission with
  | None => Throws ("Unknown permission: " ++ permission)
  | Some l =>
      Returns (set_permissions this
                 (<[permission := without principalId l]> (permissions this))
                 (principals this) now)
  end.

(** [revokeAll(principalId)] *)
Definition revokeAll (this : AccessPolicy) (now : Z) (principalId : principal)
  : AccessPolicy :=
  set_permissions this (without principalId <$> permissions this)
                  (without principalId (principals this)) now.

(** [setTimeConstraints(validFrom, validUntil)] *)
Definition setTimeConstraints (this : AccessPolicy) (now : Z)
    (validFrom validUntil : option Z) : AccessPolicy :=
  {| policy_id := policy_id this; updated_at := now; owner_id := owner_id this;
     principals := principals this; permissions := permissions this;
     constraints :=
       {| valid_from := validFrom; valid_until := validUntil;
          max_retrievals := max_retrievals (constraints this);
          allowed_intents := allowed_intents (constraints this);
          denied_intents := denied_intents (constraints this) |};
     redaction := redaction this |}.

(** [x || null] on a principal id: the empty string is falsy. *)
Definition or_null (x : principal) : principal :=
  match x with
  | Some id => if String.eqb id "" then None else Some id
  | None => None
  end.

(** [AccessPolicy.createDefault(ownerId)]; [id] and [now] are the
    [randomUUID()] and the clock reading of the constructor, which stores
    [data.owner_id || null]. *)
Definition createDefault (id : string) (now : Z) (ownerId : principal)
  : AccessPolicy :=
  {| policy_id := id; updated_at := now; owner_id := or_null ownerId;
     principals := [ownerId];
     permissions :=
       <["read" := [ownerId]]> (<["write" := [ownerId]]> (<["derive" := [ownerId]]>
       (<["share" := [ownerId]]> (<["revoke" := [ownerId]]> ∅))));
     constraints :=
       {| valid_from := None; valid_until := None; max_retrievals := None;
          allowed_intents := []; denied_intents := [] |};
     redaction :=
       {| enabled := false; fields_to_redact := [];
          redaction_pattern := "[REDACTED]" |} |}.

(** [getAccessLevel(principalId, intent)] at clock reading [now]. *)
Definition getAccessLevel (this : AccessPolicy) (now : Z)
    (principalId : principal) (intent : string) : string :=
  if negb (valid (isValid this now)) then "denied"
  else if negb (isIntentAllowed this intent) then "denied"
  else if negb (hasPermission this principalId "read") then "denied"
  else if enabled (redaction this) && negb (bool_decide (principalId = owner_id this))
  then "redacted"
  else "full".

End AccessPolicy.

(** ** Notions used in the statements *)

Module Notions.
Import Envelope Relevance ContextPack.

(** Descending order of the keys of two items. *)
Definition desc {A} (key : A -> Q) (a b : A) : Prop := (key b <= key a)%Q.

(** The items whose key is [q]. *)
Definition tied {A} (key : A -> Q) (q : Q) (a : A) : bool := Qeq_bool (key a) q.

(** The slices and denied ids recorded so far. *)
Definition tally (st : LoopState) : Z :=
  Z.of_nat (length (included st)) + Z.of_nat (length (denied st)).

(** The access levels the budgeting loop assigns. *)
Definition known_level (m : Slice) : Prop :=
  access_level m = "full" \/ access_level m = "metadata_only".

(** The state in which the budgeting loop stands once it has gone through
    the items [pre] from state [st]; [None] when it has left the loop among
    them. *)
Fixpoint state_after (fetchAndDecrypt : option string -> outcome Content)
    (maxTokens maxMemories : Z) (pre : list Scored) (st : LoopState)
  : option LoopState :=
  match pre with
  | [] => Some st
  | item :: rest =>
      match loop_body fetchAndDecrypt maxTokens maxMemories item st with
      | Continue st' => state_after fetchAndDecrypt maxTokens maxMemories rest st'
      | Break => None
      end
  end.

(** The attestation [a] of [e] verifies: a public key is at hand, trusted
    or embedded, and the signature check [enc_verify] returns [true] for
    it. *)
Definition attests (enc_verify : SignableData -> string -> string -> outcome bool)
    (trustedKeys : gmap string string) (e : MemoryEnvelope) (a : Attestation)
  : Prop :=
  exists publicKey,
    or_else (trustedKeys !! attester_id a) (public_key a) = Some publicKey /\
    enc_verify (getSignableData e) (signature a) publicKey = Returns true.

(** The score of an item as the comparator of [scoreEnvelopes] reads it. *)
Definition rank_key (s : Scored) : Q := compare_value (score s).

(** The score that [computeRelevance] returns when the kind score is the
    number [kindScore]. *)
Definition score_with (now : Z) (envelope : MemoryEnvelope) (intent : string)
    (kernel : option IdentityKernel) (kindScore : Q) : Q :=
  let ageDays := (inject_Z (now - created_at envelope)
                  / inject_Z (1000 * 60 * 60 * 24))%Q in
  Qmin 1 (Qmax 0
    (0 + 0.25 * Qmax 0 (1 - ageDays / 365) + 0.20 * kindScore
     + 0.25 * computeTagOverlap (tokenizeIntent intent) (topic_tags envelope)
     + 0.15 * computeValueAlignment envelope kernel
     + 0.15 * computeRiskScore envelope intent))%Q.

(** The score [b] is not lower than [a]: both are numbers and [a <= b], or
    both are [NaN]. *)
Definition not_lower (a b : number) : Prop :=
  match a, b with
  | Num x, Num y => (x <= y)%Q
  | NaN, NaN => True
  | _, _ => False
  end.

(** What a pack shows of a slice: envelope id, access level, content. *)
Definition slice_view (m : Slice) : string * string * option Content :=
  (envelope_id (slice_envelope m), access_level m, decrypted_content m).

End Notions.

(** ** Sample data for the closed examples *)

Module Samples.
Import Envelope Relevance ContextPack.

Definition day : Z := 1000 * 60 * 60 * 24.

(** An agent-scoped, self-contained envelope with the constructor's
    defaults. *)
Definition memory (id kind_ : string) (created : Z) (blob_cid : string)
  : MemoryEnvelope :=
  {| mlp_version := "0.2"; envelope_id := id; cid := Some blob_cid;
     content_hash := None; created_at := created; scope := "agent";
     kind := kind_; access_policy_ref := None;
     lineage := {| parents := []; supersedes := []; branches := [] |};
     attestations := []; epoch_id := None; topic_tags := [];
     risk_class := "low"; ttl_hint := "P30D" |}.

Definition kernel : IdentityKernel :=
  {| kernel_id := "kernel-1"; invariants := None |}.

(** A blob store given by its entries; a missing address throws. *)
Fixpoint fetch_from (blobs : list (string * Content)) (address : option string)
  : outcome Content :=
  match blobs, address with
  | _, None => Throws "not found"
  | [], _ => Throws "not found"
  | (a, b) :: r, Some c => if String.eqb a c then Returns b else fetch_from r address
  end.

Definition unconstrained : Constraints :=
  {| c_scope := None; c_kinds := None; c_since := None;
     c_maxCandidates := None; c_maxTokens := None; c_maxMemories := None |}.

Definition with_maxTokens (T : Z) : Constraints :=
  {| c_scope := None; c_kinds := None; c_since := None;
     c_maxCandidates := None; c_maxTokens := Some T; c_maxMemories := None |}.

Definition with_maxMemories (M : Z) : Constraints :=
  {| c_scope := None; c_kinds := None; c_since := None;
     c_maxCandidates := None; c_maxTokens := None; c_maxMemories := Some M |}.

(** A revoked memory: the envelope and the tombstone written for it. *)
Definition revoked : MemoryEnvelope := memory "e1" "semantic" 0 "blob-e1".
Definition revoked_tombstone : MemoryEnvelope := createTombstone revoked "t1" day.

(** Two memories of eight and of four characters. *)
Definition long_memory : MemoryEnvelope := memory "a" "semantic" 0 "blob-a".
Definition short_memory : MemoryEnvelope := memory "b" "semantic" 0 "blob-b".
Definition two_blobs : list (string * Content) :=
  [("blob-a", Text "12345678"); ("blob-b", Text "1234")].

(** Two memories that differ in age only, both older than a year at
    [2 * 365 * day]. *)
Definition older : MemoryEnvelope := memory "older" "semantic" 0 "blob-a".
Definition newer : MemoryEnvelope := memory "newer" "semantic" day "blob-b".

(** A policy of owner alice, listed under [read], that expired at 100. *)
Definition expired_policy : AccessPolicy.AccessPolicy :=
  AccessPolicy.setTimeConstraints
    (AccessPolicy.createDefault "policy-1" 0 (Some "alice")) 0 None (Some 100).

(** A stand-in cipher for the closed example: the box is the key and the
    nonce followed by the message, and opens only under the same two. *)
Definition toy_secretbox (message nonce_bytes key : Encryption.bytes)
  : Encryption.bytes := ((key ++ nonce_bytes) ++ message)%list.

Definition toy_secretbox_open (box nonce_bytes key : Encryption.bytes)
  : option Encryption.bytes :=
  let tag := (key ++ nonce_bytes)%list in
  if List.list_eq_dec Byte.byte_eq_dec (firstn (length tag) box) tag
  then Some (skipn (length tag) box) else None.

End Samples.

(** ** Further notions used in the statements *)

Module Views.
Import Envelope Relevance.

(** The envelope [e] with its creation time set to [t]. *)
Definition with_created_at (e : MemoryEnvelope) (t : Z) : MemoryEnvelope :=
  {| mlp_version := mlp_version e; envelope_id := envelope_id e; cid := cid e;
     content_hash := content_hash e; created_at := t; scope := scope e;
     kind := kind e; access_policy_ref := access_policy_ref e;
     lineage := lineage e; attestations := attestations e;
     epoch_id := epoch_id e; topic_tags := topic_tags e;
     risk_class := risk_class e; ttl_hint := ttl_hint e |}.

(** The text whose length [estimateTokens] measures. *)
Definition content_text (c : Content) : string :=
  match c with
  | Text s => s
  | Json json_text => json_text
  end.

(** Every character of [s] satisfies [p]. *)
Fixpoint all_chars (p : ascii -> bool) (s : string) : bool :=
  match s with
  | EmptyString => true
  | String c r => p c && all_chars p r
  end.

(** A string without a path separator. *)
Definition plain_name (s : string) : bool :=
  all_chars (fun c => negb (Ascii.eqb c "/")) s.

(** A file name: one path segment that names an entry of its directory. *)
Definition file_name (s : string) : Prop :=
  plain_name s = true /\ s <> "" /\ s <> "." /\ s <> "..".

(** A lower-case word character: what a token of an intent is made of. *)
Definition token_char (c : ascii) : bool := is_word c && negb (is_upper c).

(** What [verify] reports for each attestation of [e], in order. *)
Definition reports (enc_verify : SignableData -> string -> string -> outcome bool)
    (trustedKeys : gmap string string) (e : MemoryEnvelope)
  : list AttestationResult :=
  map (verify_one enc_verify trustedKeys e) (attestations e).

End Views.

(** ** Identity kernel (class [IdentityKernel] of encryption.js) *)

Module Kernel.
Import Encryption.

Record Invariants := {
  values : list string;
  boundaries : list string;
  preferences : gmap string string
}.

Record EvolutionRules := {
  contradiction_handling : string;
  confirmation_required : list string;
  forbidden_inferences : list string
}.

Record RelationshipTemplates := {
  default_sharing_level : string;
  trust_requirements : list string
}.

Record MemoryDefaults := {
  eligible_for_storage : list string;
  default_ttl : string;
  review_cadence : string
}.

Record EpochState := {
  epoch_id : string;
  last_compiled : Z;
  epoch_started : Z;
  epoch_reason : option string
}.

Record Pointers := {
  kernel_history : list string;
  primary_storage : option string
}.

Record ThreatPosture := {
  anti_poisoning_strictness : string;
  high_impact_confirmation : bool
}.

Record GapProtocol := {
  admit_discontinuity : bool;
  discontinuity_rules : list string
}.

Record Cartouche := {
  dialect_id : string;
  dialect_version : string;
  cartouche_string : string;
  cartouche_hash : string;
  cartouche_signature : option string;
  cartouche_created_at : Z;
  stable_since : Z
}.

Record KeyPair := {
  publicKey : bytes;
  secretKey : bytes
}.

Record IdentityKernel := {
  kernel_id : string;
  mlp_version : string;
  invariants : Invariants;
  evolution_rules : EvolutionRules;
  relationship_templates : RelationshipTemplates;
  memory_defaults : MemoryDefaults;
  epoch_state : EpochState;
  pointers : Pointers;
  threat_posture : ThreatPosture;
  gap_protocol : GapProtocol;
  cartouche : option Cartouche;
  signature : option string;
  keypair : option KeyPair
}.

(** Assignments to one field of [this]. *)
Definition set_kernel_id (k : IdentityKernel) (v : string) : IdentityKernel :=
  {| kernel_id := v; mlp_version := mlp_version k; invariants := invariants k;
     evolution_rules := evolution_rules k;
     relationship_templates := relationship_templates k;
     memory_defaults := memory_defaults k; epoch_state := epoch_state k;
     pointers := pointers k; threat_posture := threat_posture k;
     gap_protocol := gap_protocol k; cartouche := cartouche k;
     signature := signature k; keypair := keypair k |}.

Definition set_invariants (k : IdentityKernel) (v : Invariants) : IdentityKernel :=
  {| kernel_id := kernel_id k; mlp_version := mlp_version k; invariants := v;
     evolution_rules := evolution_rules k;
     relationship_templates := relationship_templates k;
     memory_defaults := memory_defaults k; epoch_state := epoch_state k;
     pointers := pointers k; threat_posture := threat_posture k;
     gap_protocol := gap_protocol k; cartouche := cartouche k;
     signature := signature k; keypair := keypair k |}.

Definition set_epoch_state (k : IdentityKernel) (v : EpochState) : IdentityKernel :=
  {| kernel_id := kernel_id k; mlp_version := mlp_version k;
     invariants := invariants k; evolution_rules := evolution_rules k;
     relationship_templates := relationship_templates k;
     memory_defaults := memory_defaults k; epoch_state := v;
     pointers := pointers k; threat_posture := threat_posture k;
     gap_protocol := gap_protocol k; cartouche := cartouche k;
     signature := signature k; keypair := keypair k |}.

Definition set_pointers (k : IdentityKernel) (v : Pointers) : IdentityKernel :=
  {| kernel_id := kernel_id k; mlp_version := mlp_version k;
     invariants := invariants k; evolution_rules := evolution_rules k;
     relationship_templates := relationship_templates k;
     memory_defaults := memory_defaults k; epoch_state := epoch_state k;
     pointers := v; threat_posture := threat_posture k;
     gap_protocol := gap_protocol k; cartouche := cartouche k;
     signature := signature k; keypair := keypair k |}.

Definition set_threat_posture (k : IdentityKernel) (v : ThreatPosture)
  : IdentityKernel :=
  {| kernel_id := kernel_id k; mlp_version := mlp_version k;
     invariants := invariants k; evolution_rules := evolution_rules k;
     relationship_templates := relationship_templates k;
     memory_defaults := memory_defaults k; epoch_state := epoch_state k;
     pointers := pointers k; threat_posture := v;
     gap_protocol := gap_protocol k; cartouche := cartouche k;
     signature := signature k; keypair := keypair k |}.

Definition set_cartouche (k : IdentityKernel) (v : option Cartouche)
  : IdentityKernel :=
  {| kernel_id := kernel_id k; mlp_version := mlp_version k;
     invariants := invariants k; evolution_rules := evolution_rules k;
     relationship_templates := relationship_templates k;
     memory_defaults := memory_defaults k; epoch_state := epoch_state k;
     pointers := pointers k; threat_posture := threat_posture k;
     gap_protocol := gap_protocol k; cartouche := v;
     signature := signature k; keypair := keypair k |}.

Definition set_signature (k : IdentityKernel) (v : option string)
  : IdentityKernel :=
  {| kernel_id := kernel_id k; mlp_version := mlp_version k;
     invariants := invariants k; evolution_rules := evolution_rules k;
     relationship_templates := relationship_templates k;
     memory_defaults := memory_defaults k; epoch_state := epoch_state k;
     pointers := pointers k; threat_posture := threat_posture k;
     gap_protocol := gap_protocol k; cartouche := cartouche k;
     signature := v; keypair := keypair k |}.

Definition touch_last_compiled (e : EpochState) (now : Z) : EpochState :=
  {| epoch_id := epoch_id e; last_compiled := now;
     epoch_started := epoch_started e; epoch_reason := epoch_reason e |}.

(** The template literal [`epoch_${Date.now()}`]. *)
Definition epoch_name (now : Z) : string :=
  "epoch_" ++ DecimalString.NilZero.string_of_int (Z.to_int now).

(** [new IdentityKernel()] without data: every field takes its default;
    [fresh_id] is the [randomUUID()] drawn, [now] the clock reading. *)
Definition create (fresh_id : string) (now : Z) : IdentityKernel :=
  {| kernel_id := fresh_id;
     mlp_version := "0.2";
     invariants := {| values := []; boundaries := []; preferences := ∅ |};
     evolution_rules :=
       {| contradiction_handling := "require_confirmation";
          confirmation_required := ["boundary_changes"; "value_changes"];
          forbidden_inferences := [] |};
     relationship_templates :=
       {| default_sharing_level := "minimal"; trust_requirements := [] |};
     memory_defaults :=
       {| eligible_for_storage := ["reflections"; "semantic"; "episodic_with_consent"];
          default_ttl := "P30D"; review_cadence := "P7D" |};
     epoch_state :=
       {| epoch_id := epoch_name now; last_compiled := now;
          epoch_started := now; epoch_reason := None |};
     pointers := {| kernel_history := []; primary_storage := None |};
     threat_posture :=
       {| anti_poisoning_strictness := "medium"; high_impact_confirmation := true |};
     gap_protocol :=
       {| admit_discontinuity := true;
          discontinuity_rules := ["acknowledge gaps"; "do not fabricate"] |};
     cartouche := None;
     signature := None;
     keypair := None |}.

(** [addValue(value)]: the value returned and the kernel afterwards. *)
Definition addValue (this : IdentityKernel) (now : Z) (value : string)
  : bool * IdentityKernel :=
  if arr_includes (values (invariants this)) value then (false, this)
  else
    (true,
     set_epoch_state
       (set_invariants this
          {| values := values (invariants this) ++ [value];
             boundaries := boundaries (invariants this);
             preferences := preferences (invariants this) |})
       (touch_last_compiled (epoch_state this) now)).

(** What [addBoundary] returns: [false], the object
    [{requires_confirmation: true, pending}], or [true]. *)
Inductive BoundaryAnswer :=
| AlreadyPresent
| RequiresConfirmation (pending : string)
| Added.

(** [addBoundary(boundary)] *)
Definition addBoundary (this : IdentityKernel) (now : Z) (boundary : string)
  : BoundaryAnswer * IdentityKernel :=
  if arr_includes (boundaries (invariants this)) boundary then (AlreadyPresent, this)
  else if arr_includes (confirmation_required (evolution_rules this)) "boundary_changes"
  then (RequiresConfirmation boundary, this)
  else
    (Added,
     set_epoch_state
       (set_invariants this
          {| values := values (invariants this);
             boundaries := boundaries (invariants this) ++ [boundary];
             preferences := preferences (invariants this) |})
       (touch_last_compiled (epoch_state this) now)).

(** [newEpoch(reason)]: the new epoch state and the kernel afterwards. *)
Definition newEpoch (this : IdentityKernel) (fresh_id : string) (now : Z)
    (reason : option string) : EpochState * IdentityKernel :=
  let epoch := {| epoch_id := epoch_name now; last_compiled := now;
                  epoch_started := now; epoch_reason := reason |} in
  (epoch,
   set_epoch_state
     (set_kernel_id
        (set_pointers this
           {| kernel_history := kernel_history (pointers this) ++ [kernel_id this];
              primary_storage := primary_storage (pointers this) |})
        fresh_id)
     epoch).

(** [getSignableData()] *)
Record Signable := {
  s_kernel_id : string;
  s_mlp_version : string;
  s_invariants : Invariants;
  s_evolution_rules : EvolutionRules;
  s_memory_defaults : MemoryDefaults;
  s_epoch_state : EpochState;
  s_pointers : Pointers
}.

Definition getSignableData (this : IdentityKernel) : Signable :=
  {| s_kernel_id := kernel_id this; s_mlp_version := mlp_version this;
     s_invariants := invariants this; s_evolution_rules := evolution_rules this;
     s_memory_defaults := memory_defaults this; s_epoch_state := epoch_state this;
     s_pointers := pointers this |}.

(** The glyph tables of [_generateGlyphs]. *)
Definition value_glyphs : list string := ["⟁"; "🜇"; "◈"; "∿"; "⊛"].
Definition boundary_glyphs : list string := ["↺"; "⧫"; "⚷"; "⌬"; "⏣"].

(** [glyphSets.posture[strictness] || '◐'], for a strictness that names no
    inherited property of the table. *)
Definition posture_glyph (strictness : string) : string :=
  if String.eqb strictness "low" then "○"
  else if String.eqb strictness "medium" then "◐"
  else if String.eqb strictness "high" then "●"
  else if String.eqb strictness "paranoid" then "◉"
  else "◐".

(** [_generateGlyphs()] *)
Definition generateGlyphs (this : IdentityKernel) : list string :=
  let value_part :=
    imap (fun i (_ : string) =>
            nth (i mod length value_glyphs) value_glyphs EmptyString)
         (firstn 3 (values (invariants this))) in
  let boundary_part :=
    if (0 <? length (boundaries (invariants this)))%nat
    then [nth 0 boundary_glyphs EmptyString] else [] in
  value_part ++ boundary_part
    ++ [posture_glyph (anti_poisoning_strictness (threat_posture this))].

(** [glyphs.join('')] *)
Definition join_glyphs (glyphs : list string) : string :=
  fold_right String.append EmptyString glyphs.

Section Signed.

(** [encryption.hash], [encryption.sign] and [encryption.verify] of the
    encryption object handed in. *)
Variable enc_hash : string -> string.
Variable enc_sign : Signable -> option bytes -> outcome string.
Variable enc_verify : Signable -> string -> bytes -> outcome bool.

(** [generateCartouche(encryption)]: the cartouche and the kernel
    afterwards. *)
Definition generateCartouche (this : IdentityKernel) (now : Z)
  : Cartouche * IdentityKernel :=
  let cartoucheString := join_glyphs (generateGlyphs this) in
  let c := {| dialect_id := "GLYPH-1"; dialect_version := "1.0";
              cartouche_string := cartoucheString;
              cartouche_hash := enc_hash cartoucheString;
              cartouche_signature := None;
              cartouche_created_at := now; stable_since := now |} in
  (c, set_cartouche this (Some c)).

(** [sign(encryption)] *)
Definition sign (this : IdentityKernel) : outcome IdentityKernel :=
  bind (enc_sign (getSignableData this) (secretKey <$> keypair this))
       (fun s => Returns (set_signature this (Some s))).

(** [verify(encryption, publicKey)]; an empty signature is falsy like a
    missing one. *)
Definition verify (this : IdentityKernel) (pk : bytes) : outcome bool :=
  match signature this with
  | None => Returns false
  | Some s =>
      if String.eqb s "" then Returns false
      else enc_verify (getSignableData this) s pk
  end.

End Signed.

End Kernel.

(** ** Writing envelopes (envelope.js, continued) *)

Module EnvelopeOps.
Import Envelope Encryption.

(** The argument of [addAttestation]; a field left out is [None].  The
    [claims] of an attestation are not modelled: nothing reads them. *)
Record AttestationInput := {
  i_attestation_id : option string;
  i_attester_id : string;
  i_attester_type : option string;
  i_level : option string;
  i_signature : string;
  i_signature_algorithm : option string;
  i_signed_at : option Z;
  i_public_key : option string
}.

Definition set_attestations (e : MemoryEnvelope) (l : list Attestation)
  : MemoryEnvelope :=
  {| mlp_version := mlp_version e; envelope_id := envelope_id e; cid := cid e;
     content_hash := content_hash e; created_at := created_at e;
     scope := scope e; kind := kind e;
     access_policy_ref := access_policy_ref e; lineage := lineage e;
     attestations := l; epoch_id := epoch_id e; topic_tags := topic_tags e;
     risk_class := risk_class e; ttl_hint := ttl_hint e |}.

(** [x || d] on a string field: a missing field and the empty string are
    falsy. *)
Definition str_or (x : option string) (d : string) : string :=
  match x with
  | Some s => if String.eqb s "" then d else s
  | None => d
  end.

(** [x || null] on a string field. *)
Definition str_or_null (x : option string) : option string :=
  match x with
  | Some s => if String.eqb s "" then None else Some s
  | None => None
  end.

(** [addAttestation(attestation)]: the attestation with its defaults
    filled in is pushed; [fresh_id] and [now] stand for the [randomUUID()]
    and the clock reading that fill a missing id and time. *)
Definition fullAttestation (fresh_id : string) (now : Z)
    (attestation : AttestationInput) : Attestation :=
  {| attestation_id := str_or (i_attestation_id attestation) fresh_id;
     attester_id := i_attester_id attestation;
     attester_type := str_or (i_attester_type attestation) "agent";
     level := str_or (i_level attestation) "SELF_SIGNED";
     signature := i_signature attestation;
     signature_algorithm := str_or (i_signature_algorithm attestation) "Ed25519";
     signed_at := default now (i_signed_at attestation);
     public_key := str_or_null (i_public_key attestation) |}.

Definition addAttestation (this : MemoryEnvelope) (fresh_id : string) (now : Z)
    (attestation : AttestationInput) : MemoryEnvelope :=
  set_attestations this
    (attestations this ++ [fullAttestation fresh_id now attestation]).

Section Signing.

(** [encryption.sign(data, secretKey)] of the encryption object handed in. *)
Variable enc_sign : SignableData -> option bytes -> outcome string.

(** [sign(identity, encryption)] *)
Definition sign (this : MemoryEnvelope) (fresh_id : string) (now : Z)
    (identity : Kernel.IdentityKernel) : outcome MemoryEnvelope :=
  bind (enc_sign (getSignableData this)
                 (Kernel.secretKey <$> Kernel.keypair identity))
       (fun signature_ =>
          Returns (addAttestation this fresh_id now
            {| i_attestation_id := None;
               i_attester_id := Kernel.kernel_id identity;
               i_attester_type := Some "agent";
               i_level := Some "SELF_SIGNED";
               i_signature := signature_;
               i_signature_algorithm := None;
               i_signed_at := None;
               i_public_key := None |})).

(** [addWitness(witnessIdentity, encryption)] *)
Definition addWitness (this : MemoryEnvelope) (fresh_id : string) (now : Z)
    (witnessIdentity : Kernel.IdentityKernel) : outcome MemoryEnvelope :=
  bind (enc_sign (getSignableData this)
                 (Kernel.secretKey <$> Kernel.keypair witnessIdentity))
       (fun signature_ =>
          Returns (addAttestation this fresh_id now
            {| i_attestation_id := None;
               i_attester_id := Kernel.kernel_id witnessIdentity;
               i_attester_type := Some "witness";
               i_level := Some "WITNESS_SIGNED";
               i_signature := signature_;
               i_signature_algorithm := None;
               i_signed_at := None;
               i_public_key := None |})).

End Signing.

(** The [updates] of [createChild]: the envelope fields the constructor
    reads, [None] where the object has no such key, and the flag
    [supersedes_parent]. *)
Record Updates := {
  u_mlp_version : option string;
  u_envelope_id : option string;
  u_cid : option string;
  u_content_hash : option string;
  u_created_at : option Z;
  u_scope : option string;
  u_kind : option string;
  u_access_policy_ref : option string;
  u_epoch_id : option string;
  u_topic_tags : option (list string);
  u_risk_class : option string;
  u_ttl_hint : option string;
  supersedes_parent : bool
}.

(** [createChild(updates)]: the spread [...updates] comes after the fields
    copied from the parent and before [lineage] and [attestations]; the
    constructor then fills what is missing or falsy with its defaults. *)
Definition createChild (this : MemoryEnvelope) (fresh_id : string) (now : Z)
    (updates : Updates) : MemoryEnvelope :=
  {| mlp_version :=
       str_or (Some (default (mlp_version this) (u_mlp_version updates))) "0.2";
     envelope_id := str_or (u_envelope_id updates) fresh_id;
     cid := str_or_null (u_cid updates);
     content_hash := str_or_null (u_content_hash updates);
     created_at := default now (u_created_at updates);
     scope := str_or (Some (default (scope this) (u_scope updates))) "agent";
     kind := str_or (Some (default (kind this) (u_kind updates))) "semantic";
     access_policy_ref := str_or_null (u_access_policy_ref updates);
     lineage :=
       {| parents := [envelope_id this];
          supersedes := if supersedes_parent updates then [envelope_id this] else [];
          branches := [] |};
     attestations := [];
     epoch_id := str_or_null (or_else (u_epoch_id updates) (epoch_id this));
     topic_tags := default (topic_tags this) (u_topic_tags updates);
     risk_class := str_or (u_risk_class updates) "low";
     ttl_hint := str_or (u_ttl_hint updates) "P30D" |}.

(** [getIndexData()] *)
Record IndexData := {
  x_envelope_id : string;
  x_created_at : Z;
  x_scope : string;
  x_kind : string;
  x_topic_tags : list string;
  x_risk_class : string;
  has_parents : bool;
  attestation_count : nat;
  attestation_levels : list string
}.

Definition getIndexData (this : MemoryEnvelope) : IndexData :=
  {| x_envelope_id := envelope_id this; x_created_at := created_at this;
     x_scope := scope this; x_kind := kind this;
     x_topic_tags := topic_tags this; x_risk_class := risk_class this;
     has_parents := (0 <? length (parents (lineage this)))%nat;
     attestation_count := length (attestations this);
     attestation_levels := map level (attestations this) |}.

End EnvelopeOps.

(** ** Signatures and digests (class [Encryption] of encryption.js,
    continued).  The functions below are those of an object whose [init()]
    has run: [this.nacl] is loaded, so the guard at their top does nothing. *)

Module Signing.
Import Encryption.

Section Sign.

(** The values handed to [hash], [sign] and [verify]. *)
Variable value : Type.

(** [JSON.stringify] *)
Variable JSON_stringify : value -> string.

(** tweetnacl-util *)
Variable decodeUTF8 : string -> bytes.
Variable encodeBase64 : bytes -> string.
Variable decodeBase64 : string -> outcome bytes.

(** tweetnacl: [nacl.sign.detached(message, secretKey)] and
    [nacl.sign.detached.verify(message, signature, publicKey)]; both throw
    on a key or signature of the wrong size. *)
Variable sign_detached : bytes -> bytes -> outcome bytes.
Variable verify_detached : bytes -> bytes -> bytes -> outcome bool.

(** [createHash('sha256').update(content).digest('hex')] *)
Variable sha256_hex : string -> string.

Definition signing_key_file (this : Encryption) : string :=
  Storage.join (keyPath this) "signing.key".

Definition signing_pub_file (this : Encryption) : string :=
  Storage.join (keyPath this) "signing.pub".

(** [hash(data)] on JSON data and on a string. *)
Definition hash (data : value) : string := sha256_hex (JSON_stringify data).
Definition hash_text (data : string) : string := sha256_hex data.

(** [getSigningKey()]: the secret signing key and the key store
    afterwards; [fresh] is the pair that [nacl.sign.keyPair()] draws when
    the key file is missing. *)
Definition getSigningKey (this : Encryption) (fs : gmap string string)
    (fresh : Kernel.KeyPair) : outcome (bytes * gmap string string) :=
  match fs !! signing_key_file this with
  | Some keyData =>
      bind (decodeBase64 (trim keyData)) (fun k => Returns (k, fs))
  | None =>
      Returns (Kernel.secretKey fresh,
               <[signing_pub_file this := encodeBase64 (Kernel.publicKey fresh)]>
                 (<[signing_key_file this := encodeBase64 (Kernel.secretKey fresh)]> fs))
  end.

(** [getPublicKey()]: any failure to read or decode the public key file
    falls back to [getSigningKey()] and a second read. *)
Definition getPublicKey (this : Encryption) (fs : gmap string string)
    (fresh : Kernel.KeyPair) : outcome (bytes * gmap string string) :=
  let retry :=
    bind (getSigningKey this fs fresh) (fun '(_, fs') =>
      match fs' !! signing_pub_file this with
      | Some keyData =>
          bind (decodeBase64 (trim keyData)) (fun k => Returns (k, fs'))
      | None => Throws "ENOENT"
      end) in
  match fs !! signing_pub_file this with
  | Some keyData =>
      match decodeBase64 (trim keyData) with
      | Returns k => Returns (k, fs)
      | Throws _ => retry
      end
  | None => retry
  end.

(** [sign(data, secretKey)]: the signature in base64 and the key store
    afterwards. *)
Definition sign (this : Encryption) (fs : gmap string string)
    (fresh : Kernel.KeyPair) (data : value) (secretKey : option bytes)
  : outcome (string * gmap string string) :=
  bind (match secretKey with
        | Some k => Returns (k, fs)
        | None => getSigningKey this fs fresh
        end)
       (fun '(key, fs') =>
          let message := decodeUTF8 (JSON_stringify data) in
          bind (sign_detached message key) (fun signature_ =>
            Returns (encodeBase64 signature_, fs'))).

(** [verify(data, signature, publicKey)] *)
Definition verify (data : value) (signature_ : string) (publicKey : bytes)
  : outcome bool :=
  let message := decodeUTF8 (JSON_stringify data) in
  bind (decodeBase64 signature_) (fun sig =>
    verify_detached message sig publicKey).

End Sign.

End Signing.


(** ** Access policies: sharing, redaction, gathering
    ([src/mlp-storage/src/encryption.js], class [AccessPolicy] and
    [gatherPolicies]) *)

Module PolicyOps.
Import Envelope Relevance ContextPack AccessPolicy.

(** One round of [for (const perm of permissions)] in [createShared]:
    [policy.permissions[perm].push(...sharedWith)] under the test
    [if (policy.permissions[perm])].  An inherited name passes the test and
    has no [push]. *)
Definition share_with (sharedWith : list principal)
    (perms : outcome (gmap string (list principal))) (perm : string)
  : outcome (gmap string (list principal)) :=
  bind perms (fun m =>
    match m !! perm with
    | Some l => Returns (<[perm := (l ++ sharedWith)%list]> m)
    | None =>
        if arr_includes inherited_names perm
        then Throws "policy.permissions[perm].push is not a function"
        else Returns m
    end).

(** [AccessPolicy.createShared(ownerId, sharedWith, permissions)];
    [permissions_arg = None] is the call without the third argument. *)
Definition createShared (id : string) (now : Z) (ownerId : principal)
    (sharedWith : list principal) (permissions_arg : option (list string))
  : outcome AccessPolicy :=
  let policy := createDefault id now ownerId in
  bind (fold_left (share_with sharedWith) (default ["read"] permissions_arg)
                  (Returns (permissions policy)))
       (fun perms =>
          Returns (set_permissions policy perms
                     (principals policy ++ sharedWith)%list now)).

(** [enableRedaction(fields, pattern)]; [pattern_arg = None] is the call
    without the second argument. *)
Definition enableRedaction (this : AccessPolicy) (now : Z) (fields : list string)
    (pattern_arg : option string) : AccessPolicy :=
  {| policy_id := policy_id this; updated_at := now; owner_id := owner_id this;
     principals := principals this; permissions := permissions this;
     constraints := constraints this;
     redaction := {| enabled := true; fields_to_redact := fields;
                     redaction_pattern := default "[REDACTED]" pattern_arg |} |}.

Section Redact.

(** The values of a content object, and a string as such a value. *)
Variable value : Type.
Variable of_string : string -> value.

(** One round of the loop of [applyRedaction] on the copy [redacted]:
    [redacted[field] !== undefined] holds for a field of the content and
    for an inherited name; assigning to [__proto__] a string adds no
    field. *)
Definition redact_field (pattern : string) (redacted : gmap string value)
    (field : string) : gmap string value :=
  match redacted !! field with
  | Some _ => <[field := of_string pattern]> redacted
  | None =>
      if arr_includes inherited_names field && negb (String.eqb field "__proto__")
      then <[field := of_string pattern]> redacted
      else redacted
  end.

(** The fields for which the test [redacted[field] !== undefined] of that
    loop leads to a new value. *)
Definition redactable (content : gmap string value) (k : string) : bool :=
  bool_decide (is_Some (content !! k))
  || (arr_includes inherited_names k && negb (String.eqb k "__proto__")).

(** [applyRedaction(content)] for a content object, given by its own
    fields. *)
Definition applyRedaction (this : AccessPolicy) (content : gmap string value)
  : gmap string value :=
  if enabled (redaction this)
  then fold_left (redact_field (redaction_pattern (redaction this)))
                 (fields_to_redact (redaction this)) content
  else content.

End Redact.

Section Gather.

(** [AccessPolicy.fromJSON(await storage.retrieve(policyRef))]: it throws
    when the reference cannot be retrieved. *)
Variable loadPolicy : string -> outcome AccessPolicy.

(** [slice.envelope?.access_policy_ref], when it is truthy. *)
Definition policy_ref (slice : Slice) : option string :=
  match access_policy_ref (slice_envelope slice) with
  | Some policyRef => if String.eqb policyRef "" then None else Some policyRef
  | None => None
  end.

(** The loop of [gatherPolicies] from the state ([policies],
    [seenPolicyIds]) on. *)
Fixpoint gather (memorySlices : list Slice) (policies : list AccessPolicy)
    (seenPolicyIds : gset string) : list AccessPolicy * gset string :=
  match memorySlices with
  | [] => (policies, seenPolicyIds)
  | slice :: rest =>
      match policy_ref slice with
      | Some policyRef =>
          if bool_decide (policyRef ∈ seenPolicyIds)
          then gather rest policies seenPolicyIds
          else
            match loadPolicy policyRef with
            | Returns p =>
                gather rest (policies ++ [p])%list ({[policyRef]} ∪ seenPolicyIds)
            | Throws _ => gather rest policies seenPolicyIds
            end
      | None => gather rest policies seenPolicyIds
      end
  end.

(** [gatherPolicies(memorySlices, storage)] *)
Definition gatherPolicies (memorySlices : list Slice) : list AccessPolicy :=
  fst (gather memorySlices [] ∅).

End Gather.

End PolicyOps.

(** ** The agent interface ([src/mlp-storage/src/encryption.js], class
    [MLP]) after [init()] *)

Module MLP.
Import Envelope Relevance.

(** What [storage.retrieve(cid)] hands to [_fetchEnvelopes]: the data of an
    envelope, or anything else (a blob, a policy, a text). *)
Inductive Stored :=
| EnvelopeData (data : MemoryEnvelope)
| OtherData.

(** The [constraints] object of [generateContextPack]; [time_range] is
    never read and left out. *)
Record FetchConstraints := {
  kinds : option (list string);
  max_count : Z
}.

(** [array.slice(0, n)]: a negative [n] counts from the end. *)
Definition slice_upto {A} (n : Z) (l : list A) : list A :=
  if n <? 0 then firstn (Z.to_nat (Z.of_nat (length l) + n)) l
  else firstn (Z.to_nat n) l.

(** [options] of [generateContextPack]; a field left out is [None] and
    takes the default of the destructuring pattern. *)
Record Options := {
  o_intent : option string;
  o_memoryTypes : option (list string);
  o_maxMemories : option Z
}.

(** An element of [memory_slices]. *)
Record Slice := {
  slice_envelope : MemoryEnvelope;
  decrypted_content : option Content;
  access_level : string
}.

(** The variables of the loop of [generateContextPack];
    [memoriesRedacted] is never assigned and stays 0. *)
Record LoopState := {
  memorySlices : list Slice;
  memoriesConsidered : Z;
  memoriesIncluded : Z;
  memoriesDenied : Z
}.

Definition initialState : LoopState :=
  {| memorySlices := []; memoriesConsidered := 0; memoriesIncluded := 0;
     memoriesDenied := 0 |}.

Record CompilationTrace := {
  requested_by : string;
  trace_intent : string;
  memories_considered : Z;
  memories_included : Z;
  memories_redacted : Z;
  memories_denied : Z
}.

(** The compiled pack, without [pack_id], [kernel], [active_policies]
    (always empty), [compiled_at] and [session_constraints]. *)
Record Pack := {
  memory_slices : list Slice;
  compilation_trace : CompilationTrace
}.

Section Agent.

(** [this.config.storage.provider] *)
Variable provider : string.

(** [await this.storage.list()] *)
Variable allCids : list string.

(** [await this.storage.retrieve(cid)] as [_fetchEnvelopes] reads it. *)
Variable retrieve : string -> outcome Stored.

(** [(await this.encryption.decrypt(await this.storage.retrieve(cid))).content]:
    it throws when the blob is missing or does not decrypt. *)
Variable readContent : option string -> outcome Content.

(** The loop of [_fetchEnvelopes] over the stored items. *)
Fixpoint collect (kinds_ : option (list string)) (cids : list string)
  : list MemoryEnvelope :=
  match cids with
  | [] => []
  | cid_ :: rest =>
      match retrieve cid_ with
      | Returns (EnvelopeData data) =>
          if negb (String.eqb (envelope_id data) "")
             && negb (String.eqb (kind data) "")
          then
            match kinds_ with
            | Some l =>
                if negb (arr_includes l (kind data)) then collect kinds_ rest
                else data :: collect kinds_ rest
            | None => data :: collect kinds_ rest
            end
          else collect kinds_ rest
      | Returns OtherData => collect kinds_ rest
      | Throws _ => collect kinds_ rest
      end
  end.

(** [_fetchEnvelopes(constraints)] *)
Definition _fetchEnvelopes (constraints : FetchConstraints) : list MemoryEnvelope :=
  if negb (String.eqb provider "local") then []
  else
    let envelopes :=
      sort (fun a b => inject_Z (created_at b) - inject_Z (created_at a))%Q
           (collect (kinds constraints) allCids) in
    slice_upto (if max_count constraints =? 0 then 50 else max_count constraints)
               envelopes.

Definition push_slice (st : LoopState) (envelope : MemoryEnvelope)
    (content : outcome Content) : LoopState :=
  match content with
  | Returns c =>
      {| memorySlices :=
           memorySlices st ++ [{| slice_envelope := envelope;
                                  decrypted_content := Some c;
                                  access_level := "full" |}];
         memoriesConsidered := memoriesConsidered st;
         memoriesIncluded := memoriesIncluded st + 1;
         memoriesDenied := memoriesDenied st |}
  | Throws _ =>
      {| memorySlices :=
           memorySlices st ++ [{| slice_envelope := envelope;
                                  decrypted_content := None;
                                  access_level := "denied" |}];
         memoriesConsidered := memoriesConsidered st;
         memoriesIncluded := memoriesIncluded st;
         memoriesDenied := memoriesDenied st + 1 |}
  end.

(** The loop [for (const envelopeData of allEnvelopes)]. *)
Fixpoint slices_loop (maxMemories : Z) (allEnvelopes : list MemoryEnvelope)
    (st : LoopState) : LoopState :=
  match allEnvelopes with
  | [] => st
  | envelope :: rest =>
      let st1 := {| memorySlices := memorySlices st;
                    memoriesConsidered := memoriesConsidered st + 1;
                    memoriesIncluded := memoriesIncluded st;
                    memoriesDenied := memoriesDenied st |} in
      if isTombstone envelope then
        slices_loop maxMemories rest
          {| memorySlices := memorySlices st1;
             memoriesConsidered := memoriesConsidered st1;
             memoriesIncluded := memoriesIncluded st1;
             memoriesDenied := memoriesDenied st1 + 1 |}
      else
        let st2 := push_slice st1 envelope (readContent (cid envelope)) in
        if maxMemories <=? memoriesIncluded st2 then st2
        else slices_loop maxMemories rest st2
  end.

(** [generateContextPack(options)] for the identity [kernel_id_]. *)
Definition generateContextPack (kernel_id_ : string) (options : Options) : Pack :=
  let intent := default "general_session" (o_intent options) in
  let memoryTypes := default ["semantic"; "reflection"] (o_memoryTypes options) in
  let maxMemories := default 10 (o_maxMemories options) in
  let constraints := {| kinds := Some memoryTypes; max_count := maxMemories |} in
  let allEnvelopes := _fetchEnvelopes constraints in
  let st := slices_loop maxMemories allEnvelopes initialState in
  {| memory_slices := memorySlices st;
     compilation_trace :=
       {| requested_by := kernel_id_;
          trace_intent := intent;
          memories_considered := memoriesConsidered st;
          memories_included := memoriesIncluded st;
          memories_redacted := 0;
          memories_denied := memoriesDenied st |} |}.

End Agent.

End MLP.

(** ** Reading the store back, and validating a pack
    ([src/mlp-storage/src/context-pack.js]) *)

Module Retrieval.
Import Relevance Storage.

(** The text [store] writes for [data]. *)
Definition stored_text (data : Content) : string :=
  match data with
  | Text s => s
  | Json json_text => json_text
  end.

Section Retrieve.

Variable home : string.

(** [JSON.parse(content)] as a content value; [None] when it throws. *)
Variable JSON_parse : string -> option Content.

(** [retrieveIPFS(cid)]: the remote backend, outside this model. *)
Variable retrieveIPFS : string -> outcome Content.

(** [retrieveLocal(cid)] with its attempt to parse the text. *)
Definition retrieveLocal (this : Storage) (fs : gmap string string)
    (cid : string) : outcome Content :=
  bind (Storage.retrieveLocal home this fs cid) (fun content =>
    match JSON_parse content with
    | Some parsed => Returns parsed
    | None => Returns (Text content)
    end).

(** [retrieve(cid)] *)
Definition retrieve (this : Storage) (fs : gmap string string) (cid : string)
  : outcome Content :=
  if String.eqb (provider this) "ipfs" then retrieveIPFS cid
  else if String.eqb (provider this) "arweave" then
    Throws "Arweave storage not yet implemented"
  else retrieveLocal this fs cid.

End Retrieve.

End Retrieval.

Module PackCheck.
Import Relevance ContextPack.

(** A pack object as [validateContextPack] reads it: a field that is
    missing is [None]. *)
Record PackObject := {
  pack_id : option string;
  mlp_version : option string;
  kernel : option IdentityKernel;
  memory_slices : option (list Slice);
  compilation_trace : option CompilationTrace;
  compiled_at : option Z;
  expires_at : option Z
}.

Record Validation := {
  valid : bool;
  errors : list string
}.

(** [!field] for a string field. *)
Definition missing_text (field : option string) : bool :=
  match field with
  | Some s => String.eqb s ""
  | None => true
  end.

Definition missing {A} (field : option A) : bool :=
  match field with
  | Some _ => false
  | None => true
  end.

Definition check (failed : bool) (message : string) : list string :=
  if failed then [message] else [].

(** [validateContextPack(pack)] at clock reading [now]. *)
Definition validateContextPack (pack : PackObject) (now : Z) : Validation :=
  let errors :=
    (check (missing_text (pack_id pack)) "Missing pack_id"
     ++ check (missing_text (mlp_version pack)) "Missing mlp_version"
     ++ check (missing (kernel pack)) "Missing kernel"
     ++ check (missing (memory_slices pack)) "Missing memory_slices"
     ++ check (missing (compilation_trace pack)) "Missing compilation_trace"
     ++ check (missing (compiled_at pack)) "Missing compiled_at"
     ++ check (match expires_at pack with
               | Some expires => expires <? now
               | None => false
               end) "ContextPack has expired")%list in
  {| valid := (length errors =? 0)%nat; errors := errors |}.

(** Step 7 of [compileContextPack] and the expiration that follows it:
    [fresh_id] is the [randomUUID()], [compiled] and [now] are the clock
    readings of [new Date()] and of [Date.now()], [expiresIn] is
    [constraints.expiresIn] in milliseconds. *)
Definition build_pack (compiled_pack : Pack) (fresh_id : string)
    (compiled now : Z) (expiresIn : option Z) : PackObject :=
  {| pack_id := Some fresh_id;
     mlp_version := Some "0.2";
     kernel := Some (pack_kernel compiled_pack);
     memory_slices := Some (ContextPack.memory_slices compiled_pack);
     compilation_trace := Some (ContextPack.compilation_trace compiled_pack);
     compiled_at := Some compiled;
     expires_at :=
       match expiresIn with
       | Some d => if d =? 0 then None else Some (now + d)
       | None => None
       end |}.

End PackCheck.
(** ** Further sample data *)

Module MoreSamples.
Import Envelope Encryption.

(** A freshly created kernel. *)
Definition identity : Kernel.IdentityKernel := Kernel.create "kernel-1" 0.

(** A kernel with three values. *)
Definition seasoned : Kernel.IdentityKernel :=
  Kernel.set_invariants identity
    {| Kernel.values := ["protect agency"; "truth over convenience"; "care"];
       Kernel.boundaries := []; Kernel.preferences := ∅ |}.

(** A stand-in signature scheme: the signature of everything is "sig". *)
Definition toy_sign {A} (data : A) (secretKey : option bytes) : outcome string :=
  Returns "sig".

Definition toy_verify {A K} (data : A) (signature_ : string) (publicKey : K)
  : outcome bool := Returns (String.eqb signature_ "sig").

(** An unsigned memory. *)
Definition draft : MemoryEnvelope := Samples.memory "m1" "semantic" 0 "blob-a".

(** An initialised encryption object with its keys under "keys". *)
Definition toy_encryption : Encryption :=
  {| keyPath := "keys"; algorithm := "xchacha20-poly1305"; secretKey := Some [] |}.

(** A stand-in signing pair and scheme: the signature is the secret key,
    and it verifies under the equal public key. *)
Definition toy_pair : Kernel.KeyPair :=
  {| Kernel.publicKey := [Byte.x6b]; Kernel.secretKey := [Byte.x6b] |}.

Definition toy_sign_detached (message key : bytes) : outcome bytes := Returns key.

Definition toy_verify_detached (message sig publicKey : bytes) : outcome bool :=
  Returns (if List.list_eq_dec Byte.byte_eq_dec sig publicKey then true else false).

End MoreSamples.

(** * Properties *)

Import Envelope Relevance ContextPack Notions Samples.

(** ** Facts about [Array.prototype.sort] *)

Section SortAnyFacts.
Context {A : Type} (cmp : A -> A -> Q).

Lemma sort_insert_perm (x : A) (l : list A) :
  Permutation (sort_insert cmp x l) (x :: l).
Proof.
  induction l as [|y r IH]; simpl; [reflexivity|].
  destruct (Qlt_le_dec 0 (cmp x y)); [|reflexivity].
  rewrite IH. apply perm_swap.
Qed.

Lemma sort_perm (l : list A) : Permutation (sort cmp l) l.
Proof.
  induction l as [|x r IH]; simpl; [reflexivity|].
  rewrite sort_insert_perm. now constructor.
Qed.

(** The result depends on the comparator through the pairs of the list
    only. *)
Lemma sort_insert_ext (cmp' : A -> A -> Q) (x : A) (l : list A) :
  (forall y, In y l -> cmp x y = cmp' x y) ->
  sort_insert cmp x l = sort_insert cmp' x l.
Proof.
  induction l as [|y r IH]; intros H; simpl; [reflexivity|].
  rewrite <- (H y) by now left.
  destruct (Qlt_le_dec 0 (cmp x y)); [|reflexivity].
  f_equal. apply IH. intros z Hz. apply H. now right.
Qed.

Lemma sort_ext (cmp' : A -> A -> Q) (l : list A) :
  (forall x y, In x l -> In y l -> cmp x y = cmp' x y) ->
  sort cmp l = sort cmp' l.
Proof.
  induction l as [|x r IH]; intros H; simpl; [reflexivity|].
  rewrite <- IH by (intros a b Ha Hb; apply H; now right).
  apply sort_insert_ext. intros y Hy. apply H; [now left|].
  right. exact (Permutation_in _ (sort_perm r) Hy).
Qed.

End SortAnyFacts.

(** With a comparator that subtracts keys, [(a, b) => key(b) - key(a)]. *)

Section SortFacts.
Context {A : Type} (key : A -> Q).
Let cmp := fun a b : A => (key b - key a)%Q.

Lemma cmp_pos (x y : A) : (0 < cmp x y)%Q <-> (key x < key y)%Q.
Proof. unfold cmp. rewrite <- (Qlt_minus_iff (key x) (key y)). reflexivity. Qed.

Lemma sort_insert_sorted (x : A) (l : list A) :
  StronglySorted (desc key) l -> StronglySorted (desc key) (sort_insert cmp x l).
Proof.
  induction 1 as [|y r Hs IH Hall]; simpl.
  - constructor; constructor.
  - destruct (Qlt_le_dec 0 (cmp x y)) as [Hlt|Hle].
    + constructor; [exact IH|].
      apply cmp_pos in Hlt.
      rewrite Forall_forall. intros z Hz.
      rewrite (sort_insert_perm cmp x r) in Hz.
      apply elem_of_cons in Hz. destruct Hz as [->|Hz].
      * unfold desc. now apply Qlt_le_weak.
      * rewrite Forall_forall in Hall. now apply Hall.
    + assert (Hxy : (key y <= key x)%Q).
      { destruct (Qlt_le_dec (key x) (key y)) as [H|H]; [|exact H].
        apply cmp_pos in H. exfalso. exact (Qlt_not_le _ _ H Hle). }
      constructor; [constructor; assumption|].
      constructor; [exact Hxy|].
      rewrite Forall_forall in *. intros z Hz. unfold desc in *.
      eapply Qle_trans; [apply Hall, Hz | exact Hxy].
Qed.

Lemma sort_sorted (l : list A) : StronglySorted (desc key) (sort cmp l).
Proof.
  induction l as [|x r IH]; simpl; [constructor|].
  now apply sort_insert_sorted.
Qed.

(** Stability: an item is moved only past items with a strictly larger
    key, so items with equal keys keep their order. *)
Lemma sort_insert_tied (q : Q) (x : A) (l : list A) :
  List.filter (tied key q) (sort_insert cmp x l) = List.filter (tied key q) (x :: l).
Proof.
  induction l as [|y r IH]; simpl; [reflexivity|].
  destruct (Qlt_le_dec 0 (cmp x y)) as [Hlt|Hle]; [|reflexivity].
  apply cmp_pos in Hlt.
  cbn [List.filter]. rewrite IH. cbn [List.filter].
  destruct (tied key q x) eqn:Hx; [|reflexivity].
  destruct (tied key q y) eqn:Hy; [|reflexivity].
  exfalso. unfold tied in *. apply Qeq_bool_iff in Hx, Hy.
  rewrite Hx, Hy in Hlt. exact (Qlt_irrefl _ Hlt).
Qed.

Lemma sort_tied (q : Q) (l : list A) :
  List.filter (tied key q) (sort cmp l) = List.filter (tied key q) l.
Proof.
  induction l as [|x r IH]; simpl; [reflexivity|].
  rewrite sort_insert_tied. cbn [List.filter]. now rewrite IH.
Qed.

End SortFacts.

(** ** Facts about the budgeting loop *)

Section LoopFacts.
Variable fetchAndDecrypt : option string -> outcome Content.
Variables maxTokens maxMemories : Z.
Let body := loop_body fetchAndDecrypt maxTokens maxMemories.
Let loop := budget_loop fetchAndDecrypt maxTokens maxMemories.
Let after := state_after fetchAndDecrypt maxTokens maxMemories.

Lemma full_tokens_app (l : list Slice) (m : Slice) :
  full_tokens (l ++ [m]) =
  full_tokens l + (if String.eqb (access_level m) "full" then slice_tokens m else 0).
Proof.
  induction l as [|x r IH]; cbn [full_tokens app].
  - destruct (String.eqb _ _); lia.
  - rewrite IH. destruct (String.eqb (access_level x) "full"); lia.
Qed.

Lemma count_level_app (lvl : string) (l : list Slice) (m : Slice) :
  count_level lvl (l ++ [m]) =
  count_level lvl l + (if String.eqb (access_level m) lvl then 1 else 0).
Proof.
  unfold count_level. rewrite List.filter_app, length_app. cbn [List.filter].
  destruct (String.eqb _ _); cbn [length]; lia.
Qed.

(** What one iteration does to the state, case by case. *)
Lemma body_cases (item : Scored) (st : LoopState) :
  body item st = Continue (deny st (envelope_id (envelope item))) \/
  body item st = Continue (push_metadata_only st item) \/
  (body item st = Break /\ maxMemories <= count_level "full" (included st)) \/
  (exists blob,
     body item st = Continue (push_full st item blob (estimateTokens blob)) /\
     tokenCount st + estimateTokens blob <= maxTokens).
Proof.
  subst body. unfold loop_body.
  destruct (String.eqb (kind (envelope item)) "tombstone"); [now left|].
  destruct (fetchAndDecrypt (cid (envelope item))) as [blob|msg]; [|now left].
  destruct (maxTokens <? _) eqn:Hbudget; [now right; left|].
  destruct (maxMemories <=? _) eqn:Hcap.
  - right; right; left. split; [reflexivity|]. now apply Z.leb_le.
  - right; right; right. exists blob. split; [reflexivity|].
    apply Z.ltb_ge in Hbudget. exact Hbudget.
Qed.

(** Case analysis on the iteration for [item] in state [st], rewriting the
    goal with what the body returns. *)
Ltac loop_cases item st :=
  destruct (body_cases item st) as [E|[E|[[E Hcap]|[blob [E Hfit]]]]];
  subst body; cbv zeta in E; rewrite E.

(** The running count is the token estimate of the full slices, and it
    stays within the budget (at 0 under a negative budget). *)
Lemma loop_tokens (scored : list Scored) (st : LoopState) :
  full_tokens (included st) = tokenCount st ->
  tokenCount st <= Z.max 0 maxTokens ->
  full_tokens (included (loop scored st)) = tokenCount (loop scored st) /\
  tokenCount (loop scored st) <= Z.max 0 maxTokens.
Proof.
  subst loop. revert st.
  induction scored as [|item rest IH]; intros st Hsum Hle; [now split|].
  cbn [budget_loop].
  loop_cases item st; try (now split); apply IH; cbn;
    try assumption.
  - rewrite full_tokens_app. cbn. lia.
  - rewrite full_tokens_app. cbn. unfold slice_tokens. cbn. lia.
  - lia.
Qed.

(** Slices are only ever appended. *)
Lemma loop_included_prefix (scored : list Scored) (st : LoopState) :
  exists more, included (loop scored st) = (included st ++ more)%list.
Proof.
  subst loop. revert st.
  induction scored as [|item rest IH]; intros st;
    [exists []; now rewrite app_nil_r|].
  cbn [budget_loop].
  loop_cases item st.
  - destruct (IH (deny st (envelope_id (envelope item)))) as [more ->].
    now exists more.
  - destruct (IH (push_metadata_only st item)) as [more ->].
    cbn. rewrite <- app_assoc. eauto.
  - exists []. now rewrite app_nil_r.
  - destruct (IH (push_full st item blob (estimateTokens blob))) as [more ->].
    cbn. rewrite <- app_assoc. eauto.
Qed.

(** Running the loop over [pre ++ l] is running it over [l] from the state
    reached after [pre]. *)
Lemma loop_resume (pre l : list Scored) (st st' : LoopState) :
  after pre st = Some st' -> loop (pre ++ l) st = loop l st'.
Proof.
  subst loop after. revert st.
  induction pre as [|item rest IH]; intros st H; cbn in *; [congruence|].
  destruct (loop_body _ _ _ item st); [now apply IH|discriminate].
Qed.

(** Every iteration adds one slice or one denied id, until the loop is
    left; it is left only when the cap on full slices is reached. *)
Lemma loop_tally (scored : list Scored) (st : LoopState) :
  tally (loop scored st) <= tally st + Z.of_nat (length scored) /\
  (count_level "full" (included (loop scored st)) < maxMemories ->
   tally (loop scored st) = tally st + Z.of_nat (length scored)).
Proof.
  subst loop. revert st.
  induction scored as [|item rest IH]; intros st; [cbn; lia|].
  cbn [length budget_loop].
  loop_cases item st; [ | | lia | ];
    match goal with |- context [budget_loop _ _ _ rest ?s] =>
      destruct (IH s) as [H1 H2] end;
    unfold tally in *; cbn in *; rewrite length_app in *; cbn in *; lia.
Qed.

Lemma loop_levels (scored : list Scored) (st : LoopState) :
  Forall known_level (included st) ->
  Forall known_level (included (loop scored st)).
Proof.
  subst loop. revert st.
  induction scored as [|item rest IH]; intros st H; [exact H|].
  cbn [budget_loop].
  loop_cases item st; try assumption; apply IH; cbn;
    try assumption.
  - apply Forall_app; split; [assumption|]. constructor; [now right|constructor].
  - apply Forall_app; split; [assumption|]. constructor; [now left|constructor].
Qed.

Lemma known_levels_count (l : list Slice) :
  Forall known_level l ->
  count_level "full" l + count_level "metadata_only" l = Z.of_nat (length l) /\
  count_level "redacted" l = 0.
Proof.
  induction 1 as [|m r Hm _ IH]; [now cbn|].
  unfold count_level in *. cbn [List.filter length].
  destruct Hm as [-> | ->]; cbn; cbn in IH; lia.
Qed.

(** A tombstone is denied before anything is fetched, so no slice carries
    one. *)
Lemma loop_no_tombstone (scored : list Scored) (st : LoopState) :
  Forall (fun m => isTombstone (slice_envelope m) = false) (included st) ->
  Forall (fun m => isTombstone (slice_envelope m) = false)
         (included (loop scored st)).
Proof.
  subst loop. revert st.
  induction scored as [|item rest IH]; intros st H; [exact H|].
  cbn [budget_loop]. unfold loop_body.
  destruct (String.eqb (kind (envelope item)) "tombstone") eqn:Hkind;
    [now apply IH|].
  destruct (fetchAndDecrypt (cid (envelope item))) as [blob|msg];
    [|now apply IH].
  destruct (maxTokens <? _); [|destruct (maxMemories <=? _); [exact H|]];
    apply IH; cbn; apply Forall_app; split; try assumption;
    constructor; [exact Hkind|constructor|exact Hkind|constructor].
Qed.

(** The number of full slices stays within the cap. *)
Lemma loop_cap (scored : list Scored) (st : LoopState) :
  count_level "full" (included st) <= Z.max 0 maxMemories ->
  count_level "full" (included (loop scored st)) <= Z.max 0 maxMemories.
Proof.
  subst loop. revert st.
  induction scored as [|item rest IH]; intros st H; [exact H|].
  cbn [budget_loop]. unfold loop_body.
  destruct (String.eqb (kind (envelope item)) "tombstone"); [now apply IH|].
  destruct (fetchAndDecrypt (cid (envelope item))) as [blob|msg];
    [|now apply IH].
  destruct (maxTokens <? _).
  - apply IH. cbn. rewrite count_level_app. cbn. lia.
  - destruct (maxMemories <=? _) eqn:Hcap; [exact H|].
    apply Z.leb_gt in Hcap. apply IH. cbn. rewrite count_level_app. cbn. lia.
Qed.

End LoopFacts.

(** ** ContextPack compilation *)

Section CompileFacts.
Variable queryEnvelopes : Query -> list MemoryEnvelope.
Variable fetchAndDecrypt : option string -> outcome Content.

Lemma ranked_length clock kernel intent cs :
  length (ranked queryEnvelopes clock kernel intent cs) =
  length (queryEnvelopes (query_of cs)).
Proof.
  unfold ranked, scoreEnvelopes, attach_scores.
  rewrite (Permutation_length (sort_perm _ _)). apply length_imap.
Qed.

(** C2 (as amended).  With [maxTokens = T], the token estimates of the
    slices returned with access level 'full' sum to the trace's
    [total_tokens], which never exceeds [T] when [T] is not negative (and is
    0 when it is).  A candidate that the loop reaches in state [st], that is
    no tombstone, whose blob decrypts and whose estimate would take the
    running count above [T], is in the pack as a metadata-only slice:
    envelope present, content [null].  Nothing is said of the candidates
    after it: each is tested against the budget on its own. *)
Theorem compileContextPack_budget (clock : nat -> Z) (kernel : IdentityKernel)
    (intent : string) (cs : Constraints) (T : Z) :
  c_maxTokens cs = Some T ->
  let pack := compileContextPack queryEnvelopes fetchAndDecrypt clock kernel intent cs in
  full_tokens (memory_slices pack) = total_tokens (compilation_trace pack) /\
  full_tokens (memory_slices pack) <= Z.max 0 T /\
  forall pre item post st blob,
    ranked queryEnvelopes clock kernel intent cs = (pre ++ item :: post)%list ->
    state_after fetchAndDecrypt T (maxMemories_of cs) pre initialState = Some st ->
    isTombstone (envelope item) = false ->
    fetchAndDecrypt (cid (envelope item)) = Returns blob ->
    T < tokenCount st + estimateTokens blob ->
    In (metadata_slice item) (memory_slices pack) /\
    decrypted_content (metadata_slice item) = None.
Proof.
  intros HT pack. subst pack. unfold compileContextPack.
  cbn [memory_slices compilation_trace total_tokens].
  unfold maxTokens_of. rewrite HT. change (default 4000 (Some T)) with T.
  destruct (loop_tokens fetchAndDecrypt T (maxMemories_of cs)
              (ranked queryEnvelopes clock kernel intent cs) initialState)
    as [Hsum Hle]; [reflexivity | cbn; lia |].
  split; [exact Hsum|]. split; [rewrite Hsum; exact Hle|].
  intros pre item post st blob Hsplit Hst Hkind Hfetch Hover.
  split; [|reflexivity].
  rewrite Hsplit.
  rewrite (loop_resume fetchAndDecrypt T (maxMemories_of cs) pre (item :: post)
             initialState st Hst).
  cbn [budget_loop]. unfold loop_body. unfold isTombstone in Hkind.
  rewrite Hkind, Hfetch.
  apply Z.ltb_lt in Hover. rewrite Hover.
  destruct (loop_included_prefix fetchAndDecrypt T (maxMemories_of cs) post
              (push_metadata_only st item)) as [more ->].
  cbn. apply in_or_app. left. apply in_or_app. right. now left.
Qed.


(** X1.  No memory slice of a compiled pack carries a tombstone
    envelope. *)
Theorem tombstones_never_sliced (clock : nat -> Z) (kernel : IdentityKernel)
    (intent : string) (cs : Constraints) :
  Forall (fun m => isTombstone (slice_envelope m) = false)
         (memory_slices
            (compileContextPack queryEnvelopes fetchAndDecrypt clock kernel intent cs)).
Proof. apply loop_no_tombstone. constructor. Qed.

(** X2.  A compiled pack holds at most [maxMemories] full slices (none
    when [maxMemories] is negative). *)
Theorem included_within_cap (clock : nat -> Z) (kernel : IdentityKernel)
    (intent : string) (cs : Constraints) :
  memories_included
    (compilation_trace
       (compileContextPack queryEnvelopes fetchAndDecrypt clock kernel intent cs))
  <= Z.max 0 (maxMemories_of cs).
Proof. apply loop_cap. change (0 <= Z.max 0 (maxMemories_of cs)). lia. Qed.

End CompileFacts.


(** C1.  The compilation over a candidate set that holds a memory and the
    tombstone superseding it: the pack serves the revoked memory in full,
    with its decrypted content, and [memories_denied] counts the tombstone
    alone. *)
Example tombstoned_memory_still_served :
  let pack := compileContextPack (fun _ => [revoked; revoked_tombstone])
                (fetch_from [("blob-e1", Text "secret")])
                (fun _ => day) kernel "recall" unconstrained in
  supersedes_id revoked_tombstone (envelope_id revoked) = true /\
  map slice_view (memory_slices pack) = [("e1", "full", Some (Text "secret"))] /\
  memories_denied (compilation_trace pack) = 1 /\
  memories_included (compilation_trace pack) = 1.
Proof. vm_compute. repeat split; reflexivity. Qed.

(** The tombstone itself never reaches a slice: whatever the state, the
    loop body files it under the denied ids. *)
Lemma tombstone_denied fetch maxTokens maxMemories (item : Scored) (st : LoopState) :
  isTombstone (envelope item) = true ->
  loop_body fetch maxTokens maxMemories item st =
  Continue (deny st (envelope_id (envelope item))).
Proof. unfold isTombstone, loop_body. now intros ->. Qed.

(** Witness of C2: a budget of one token against blobs of two tokens and
    of one. *)
Lemma compileContextPack_budget_witness :
  let pack := compileContextPack (fun _ => [long_memory; short_memory])
                (fetch_from two_blobs) (fun _ => day) kernel "recall"
                (with_maxTokens 1) in
  full_tokens (memory_slices pack) <= 1 /\
  In ("a", "metadata_only", None) (map slice_view (memory_slices pack)).
Proof.
  pose proof (compileContextPack_budget (fun _ => [long_memory; short_memory])
                (fetch_from two_blobs) (fun _ => day) kernel "recall"
                (with_maxTokens 1) 1 eq_refl) as [_ [Hle Hrec]].
  split; [exact Hle|].
  assert (H := fun item post E K F O =>
    proj1 (Hrec [] item post initialState (Text "12345678") E eq_refl K F O)).
  specialize (H _ _ ltac:(lazy; reflexivity) eq_refl eq_refl ltac:(lazy; reflexivity)).
  exact (in_map slice_view _ _ H).
Defined.

(** Counterexample to C2 as stated.  With [maxTokens = 1] the first
    candidate (two tokens) exceeds the budget and is recorded as metadata
    only, yet the candidate after it (one token) is returned in full: the
    candidates after an over-budget item are not all metadata-only. *)
Lemma later_candidate_is_full :
  let pack := compileContextPack (fun _ => [long_memory; short_memory])
                (fetch_from two_blobs) (fun _ => day) kernel "recall"
                (with_maxTokens 1) in
  map (fun s => envelope_id (envelope s))
      (ranked (fun _ => [long_memory; short_memory]) (fun _ => day) kernel
              "recall" (with_maxTokens 1)) = ["a"; "b"] /\
  map slice_view (memory_slices pack) =
    [("a", "metadata_only", None); ("b", "full", Some (Text "1234"))].
Proof. vm_compute. split; reflexivity. Qed.


(** ** Relevance scoring *)

(** The kind score is [NaN] for the kinds that name a member of
    [Object.prototype], and a number for every other kind. *)
Lemma kind_score_cases (intent kind_ : string) :
  match num_or (kindScores_get (getKindScoresForIntent intent) kind_) 0.5 with
  | Num _ => arr_includes inherited_names kind_ = false
  | NaN => arr_includes inherited_names kind_ = true
  end.
Proof.
  unfold kindScores_get.
  destruct (String.eqb_spec kind_ "semantic") as [->|_];
    [cbn [num_or]; now destruct (Qeq_bool _ _)|].
  destruct (String.eqb_spec kind_ "episodic") as [->|_];
    [cbn [num_or]; now destruct (Qeq_bool _ _)|].
  destruct (String.eqb_spec kind_ "reflection") as [->|_];
    [cbn [num_or]; now destruct (Qeq_bool _ _)|].
  destruct (String.eqb_spec kind_ "kernel_ref") as [->|_];
    [cbn [num_or]; now destruct (Qeq_bool _ _)|].
  destruct (String.eqb_spec kind_ "policy") as [->|_];
    [cbn [num_or]; now destruct (Qeq_bool _ _)|].
  destruct (String.eqb_spec kind_ "tombstone") as [->|_];
    [cbn [num_or]; now destruct (Qeq_bool _ _)|].
  now destruct (arr_includes inherited_names kind_).
Qed.

Lemma computeRelevance_shape (now : Z) (e : MemoryEnvelope) (intent : string)
    (kernel : option IdentityKernel) :
  computeRelevance now e intent kernel =
  match num_or (kindScores_get (getKindScoresForIntent intent) (kind e)) 0.5 with
  | Num kindScore => Num (score_with now e intent kernel kindScore)
  | NaN => NaN
  end.
Proof.
  unfold computeRelevance, score_with. cbv zeta.
  now destruct (num_or _ _).
Qed.

Lemma computeRelevance_finite (now : Z) (e : MemoryEnvelope) (intent : string)
    (kernel : option IdentityKernel) :
  arr_includes inherited_names (kind e) = false ->
  exists q, computeRelevance now e intent kernel = Num q.
Proof.
  intros H. rewrite computeRelevance_shape.
  pose proof (kind_score_cases intent (kind e)) as Hk.
  destruct (num_or _ _) as [k|]; [eauto|congruence].
Qed.

Lemma attach_scores_finite (envelopes : list MemoryEnvelope) (intent : string)
    (kernel : option IdentityKernel) :
  forall clock : nat -> Z,
    Forall (fun e => arr_includes inherited_names (kind e) = false) envelopes ->
    Forall (fun s => exists q, score s = Num q)
           (attach_scores clock envelopes intent kernel).
Proof.
  unfold attach_scores.
  induction envelopes as [|e r IH]; intros clock H; [constructor|].
  apply Forall_cons in H. destruct H as [He Hr].
  cbn [imap]. constructor.
  - cbn [score]. now apply computeRelevance_finite.
  - exact (IH (fun i => clock (S i)) Hr).
Qed.




Section EffectFacts.
Import Heap.

Lemma bind_run_returns {A B} (c : Run A) (f : A -> Run B) (w w' : World) (a : A) :
  c w = (Returns a, w') -> bind_run c f w = f a w'.
Proof. unfold bind_run. now intros ->. Qed.

Lemma envelope_field_run {A} (field : MemoryEnvelope -> A) (w : World)
    (envelope : loc) (e : MemoryEnvelope) :
  (forall fields tags, field (with_topic_tags fields tags) = field fields) ->
  envelope_view (heap w) envelope = Some e ->
  envelope_field envelope field w = (Returns (field e), w).
Proof.
  intros Hfield He. unfold envelope_view in He.
  unfold envelope_field, bind_run, read.
  destruct (heap w !! envelope) as [[items|fields tags_at|id inv|vals b]|];
    try discriminate He.
  destruct tags_at as [tags_at|].
  - destruct (heap w !! tags_at) as [[items| | |]|]; try discriminate He.
    injection He as <-. unfold ret. now rewrite Hfield.
  - injection He as <-. unfold ret. now rewrite Hfield.
Qed.

Lemma envelope_tags_run (w : World) (envelope : loc) (e : MemoryEnvelope) :
  envelope_view (heap w) envelope = Some e ->
  envelope_tags envelope w = (Returns (topic_tags e), w).
Proof.
  intros He. unfold envelope_view in He.
  unfold envelope_tags, array_items, bind_run, read.
  destruct (heap w !! envelope) as [[items|fields tags_at|id inv|vals b]|];
    try discriminate He.
  destruct tags_at as [tags_at|].
  - destruct (heap w !! tags_at) as [[items| | |]|]; try discriminate He.
    now injection He as <-.
  - now injection He as <-.
Qed.

Lemma kernel_values_run (w : World) (kernel : option loc)
    (k : option IdentityKernel) :
  kernel_view (heap w) kernel = Some k ->
  kernel_values kernel w
  = (Returns (match k with
              | Some k' => match invariants k' with
                           | Some inv => values inv
                           | None => None
                           end
              | None => None
              end), w).
Proof.
  intros Hk. unfold kernel_view in Hk.
  unfold kernel_values, array_items, bind_run, read.
  destruct kernel as [l|]; [|now injection Hk as <-].
  destruct (heap w !! l) as [[items|fields tags_at|id [inv|]|vals b]|];
    try discriminate Hk; [|now injection Hk as <-].
  destruct (heap w !! inv) as [[items|fields tags_at|id' inv'|[vals|] b]|];
    try discriminate Hk; [|now injection Hk as <-].
  destruct (heap w !! vals) as [[items| | |]|]; try discriminate Hk.
  now injection Hk as <-.
Qed.

Lemma computeValueAlignment_reads (w : World) (envelope : loc)
    (kernel : option loc) (e : MemoryEnvelope) (k : option IdentityKernel) :
  envelope_view (heap w) envelope = Some e ->
  kernel_view (heap w) kernel = Some k ->
  computeValueAlignment_run envelope kernel w
  = (Returns (computeValueAlignment e k), w).
Proof.
  intros He Hk. unfold computeValueAlignment_run, computeValueAlignment.
  rewrite (bind_run_returns _ _ _ _ _ (kernel_values_run w kernel k Hk)).
  destruct k as [k'|]; [|reflexivity].
  destruct (invariants k') as [inv|]; [|reflexivity].
  destruct (values inv) as [vs|]; [|reflexivity].
  rewrite (bind_run_returns _ _ _ _ _ (envelope_tags_run w envelope e He)).
  now destruct (existsb _ _).
Qed.

Lemma computeRiskScore_reads (w : World) (envelope : loc) (intent : string)
    (e : MemoryEnvelope) :
  envelope_view (heap w) envelope = Some e ->
  computeRiskScore_run envelope intent w = (Returns (computeRiskScore e intent), w).
Proof.
  intros He. unfold computeRiskScore_run, computeRiskScore.
  rewrite (bind_run_returns _ _ _ _ _
             (envelope_field_run risk_class w envelope e (fun _ _ => eq_refl) He)).
  cbv zeta.
  repeat match goal with |- context [if ?b then _ else _] => destruct b end;
    reflexivity.
Qed.


End EffectFacts.



(** X3.  The kind score applied to a tombstone is 0.5 for every intent: the
    table's entry 0 is falsy, so [kindScores[kind] || 0.5] takes the
    default. *)
Theorem tombstone_kind_score (intent : string) :
  num_or (kindScores_get (getKindScoresForIntent intent) "tombstone") 0.5 = Num 0.5.
Proof.
  unfold getKindScoresForIntent. cbv zeta.
  repeat match goal with |- context [if ?b then _ else _] => destruct b end;
    reflexivity.
Qed.

(** An example.  Three memories of kinds semantic, episodic and reflection, of
    equal age and without tags, compiled for the intent "learn about the
    project" under the default constraints: the semantic one ranks first,
    three memories are considered and three are included. *)
Example learn_scenario :
  let memories := [memory "m-episodic" "episodic" 0 "blob-a";
                   memory "m-semantic" "semantic" 0 "blob-b";
                   memory "m-reflection" "reflection" 0 "blob-a"] in
  let pack := compileContextPack (fun _ => memories) (fetch_from two_blobs)
                (fun _ => day) kernel "learn about the project" unconstrained in
  map (fun m => envelope_id (slice_envelope m)) (memory_slices pack)
    = ["m-semantic"; "m-reflection"; "m-episodic"] /\
  memories_considered (compilation_trace pack) = 3 /\
  memories_included (compilation_trace pack) = 3.
Proof. vm_compute. repeat split; reflexivity. Qed.

(** ** Attestation verification *)

Section VerifyFacts.
Variable enc_verify : SignableData -> string -> string -> outcome bool.
Variable trustedKeys : gmap string string.

Lemma verify_one_valid (e : MemoryEnvelope) (a : Attestation) :
  r_valid (verify_one enc_verify trustedKeys e a) = true <-> attests enc_verify trustedKeys e a.
Proof.
  unfold verify_one, attests.
  destruct (or_else _ _) as [publicKey|].
  - destruct (enc_verify _ _ publicKey) as [v|msg] eqn:E; cbn.
    + split.
      * intros ->. eauto.
      * intros [k [[= <-] Hk]]. congruence.
    + split; [discriminate|]. intros [k [[= <-] Hk]]. congruence.
  - cbn. split; [discriminate|]. intros [k [Hk _]]. discriminate.
Qed.

Lemma verify_one_attester (e : MemoryEnvelope) (a : Attestation) :
  r_attester (verify_one enc_verify trustedKeys e a) = attester_id a.
Proof.
  unfold verify_one. destruct (or_else _ _); [|reflexivity].
  now destruct (enc_verify _ _ _).
Qed.

(** C6.  [verify] answers [valid = true] exactly when the envelope has at
    least one attestation and every attestation verifies against its key.
    Without attestations it answers [{valid: false, reason: 'No
    attestations'}].  With attestations it reports one result per
    attestation, in order, whether or not they pass; so one failing
    attestation makes the answer false while the result of each, the
    failing one's under its attester's id, is still there. *)
Theorem verify_all_attestations (e : MemoryEnvelope) :
  let r := verify enc_verify trustedKeys e in
  (Envelope.valid r = true <->
   attestations e <> [] /\
   Forall (attests enc_verify trustedKeys e) (attestations e)) /\
  (attestations e = [] ->
   r = {| Envelope.valid := false; Envelope.reason := Some "No attestations";
          results := None |}) /\
  (attestations e <> [] ->
   results r = Some (map (verify_one enc_verify trustedKeys e) (attestations e))) /\
  (forall a, In a (attestations e) -> ~ attests enc_verify trustedKeys e a ->
     Envelope.valid r = false /\
     r_valid (verify_one enc_verify trustedKeys e a) = false /\
     r_attester (verify_one enc_verify trustedKeys e a) = attester_id a).
Proof.
  intros r. subst r. unfold verify.
  destruct (attestations e) as [|a0 l] eqn:Hatt.
  - cbn. repeat split; try congruence; try contradiction.
    intros [H _]. congruence.
  - cbn [Envelope.valid results].
    assert (Hall : forallb r_valid (map (verify_one enc_verify trustedKeys e) (a0 :: l))
                   = true <-> Forall (attests enc_verify trustedKeys e) (a0 :: l)).
    { rewrite forallb_forall, Forall_forall. split.
      - intros H a Ha. apply verify_one_valid. apply H.
        apply in_map. now apply list_elem_of_In.
      - intros H r Hr. apply in_map_iff in Hr. destruct Hr as [a [<- Ha]].
        apply verify_one_valid. apply H. now apply list_elem_of_In. }
    split; [|split; [|split]]; [|discriminate|reflexivity|].
    + rewrite Hall. split; [intros H; split; [discriminate|exact H]|tauto].
    + intros a Ha Hfail. split; [|split].
      * apply not_true_is_false. rewrite Hall. intros H.
        rewrite Forall_forall in H. apply Hfail, H. now apply list_elem_of_In.
      * apply not_true_is_false. now rewrite verify_one_valid.
      * apply verify_one_attester.
Qed.

End VerifyFacts.

(** ** Local content store *)

Section StoreFacts.
Variable home : string.
Variable sha256_hex : string -> string.
Variable storeIPFS : string -> outcome string.

(** C8.  Storing the same content twice on the local backend returns the
    same address both times; the second write leaves the store as the first
    one made it, so it holds one object for that content (and, starting from
    an empty store, exactly one object), which reads back as the content.
    The address is a function of the content alone. *)
Theorem storeLocal_idempotent (this : Storage.Storage) (fs : gmap string string)
    (X : string) :
  let first := Storage.storeLocal home sha256_hex this fs X in
  let second := Storage.storeLocal home sha256_hex this first.2 X in
  first.1 = Storage.local_cid sha256_hex X /\
  second.1 = first.1 /\
  second.2 = first.2 /\
  Storage.retrieveLocal home this second.2 second.1 = Returns X /\
  size (Storage.storeLocal home sha256_hex this
          (Storage.storeLocal home sha256_hex this ∅ X).2 X).2 = 1%nat.
Proof.
  cbn. unfold Storage.storeLocal, Storage.retrieveLocal. cbn.
  repeat split.
  - apply insert_insert_eq.
  - now rewrite insert_insert_eq, lookup_insert_eq.
  - rewrite insert_insert_eq, insert_empty. apply map_size_singleton.
Qed.

(** [store] on the local backend is [storeLocal] of the text. *)
Lemma store_local (this : Storage.Storage) (fs : gmap string string) (X : string) :
  Storage.provider this = "local" ->
  Storage.store home sha256_hex storeIPFS this fs (Text X) =
  Returns (Storage.storeLocal home sha256_hex this fs X).
Proof. unfold Storage.store. now intros ->. Qed.

End StoreFacts.

(** ** Access policies *)

Section PolicyFacts.
Import AccessPolicy.

Lemma isValid_window (p : AccessPolicy) (now : Z) :
  (exists u, valid_until (constraints p) = Some u /\ u < now) \/
  (exists f, valid_from (constraints p) = Some f /\ now < f) ->
  AccessPolicy.valid (isValid p now) = false.
Proof.
  unfold isValid. intros [[u [-> Hu]]|[f [-> Hf]]].
  - apply Z.ltb_lt in Hu. rewrite Hu.
    destruct (valid_from (constraints p)) as [f|]; [|reflexivity].
    now destruct (now <? f).
  - apply Z.ltb_lt in Hf. now rewrite Hf.
Qed.

(** C5.  A policy whose [valid_until] lies before the clock reading, or
    whose [valid_from] lies after it, answers 'denied' to every principal
    and every intent: the validity check comes first. *)
Theorem expired_policy_denies (p : AccessPolicy) (now : Z)
    (principalId : principal) (intent : string) :
  (exists u, valid_until (constraints p) = Some u /\ u < now) \/
  (exists f, valid_from (constraints p) = Some f /\ now < f) ->
  getAccessLevel p now principalId intent = "denied".
Proof.
  intros H. unfold getAccessLevel. now rewrite (isValid_window p now H).
Qed.

(** The owner is past every lookup. *)
Lemma owner_hasPermission (p : AccessPolicy) (perm : string) :
  hasPermission p (owner_id p) perm = true.
Proof. unfold hasPermission. now rewrite bool_decide_eq_true_2. Qed.

(** [revokeAll] does remove the principal from every permission list. *)
Lemma revokeAll_clears (p : AccessPolicy) (now : Z) (x : principal)
    (perm : string) (l : list principal) :
  permissions (revokeAll p now x) !! perm = Some l ->
  has_principal l x = false.
Proof.
  unfold revokeAll. cbn. rewrite lookup_fmap.
  destruct (permissions p !! perm) as [l0|]; [|discriminate].
  cbn. intros [= <-]. unfold has_principal, without.
  apply not_true_is_false. intros H. apply existsb_exists in H.
  destruct H as [y [Hy Hxy]]. apply filter_In in Hy. destruct Hy as [_ Hy].
  now rewrite Hxy in Hy.
Qed.

(** C10.  After [revokeAll(owner_id)], and after [revoke(owner_id, perm')]
    whether it returns or throws on an unknown permission name, the owner
    still holds every permission: [hasPermission] compares the principal
    with [owner_id] before it looks at any list. *)
Theorem owner_survives_revocation (p : AccessPolicy) (now : Z) (perm : string) :
  hasPermission (revokeAll p now (owner_id p)) (owner_id p) perm = true /\
  forall perm',
    match revoke p now (owner_id p) perm' with
    | Returns p' => hasPermission p' (owner_id p) perm = true
    | Throws _ => hasPermission p (owner_id p) perm = true
    end.
Proof.
  split.
  - apply (owner_hasPermission (revokeAll p now (owner_id p))).
  - intros perm'. unfold revoke.
    destruct (permissions p !! perm') as [l|].
    + apply (owner_hasPermission (set_permissions p _ _ now)).
    + apply owner_hasPermission.
Qed.

End PolicyFacts.

(** Witness of C5: at time 200 the expired policy denies its owner, who is
    listed under [read]. *)
Lemma expired_policy_denies_witness :
  AccessPolicy.permissions expired_policy !! "read" = Some [Some "alice"] /\
  AccessPolicy.getAccessLevel expired_policy 200 (Some "alice") "read memories"
    = "denied".
Proof.
  split; [reflexivity|].
  apply (expired_policy_denies expired_policy 200 (Some "alice") "read memories").
  left. exists 100. split; [reflexivity|lia].
Defined.

(** ** Symmetric encryption *)

Section CryptoFacts.
Import Encryption.

Variable value : Type.
Variable JSON_stringify : value -> string.
Variable JSON_parse : string -> outcome value.
Variable decodeUTF8 : string -> bytes.
Variable encodeUTF8 : bytes -> string.
Variable encodeBase64 : bytes -> string.
Variable decodeBase64 : string -> outcome bytes.
Variable secretbox : bytes -> bytes -> bytes -> bytes.
Variable secretbox_open : bytes -> bytes -> bytes -> option bytes.

(** The contracts of the runtime and of the two libraries. *)
Hypothesis JSON_roundtrip : forall v, JSON_parse (JSON_stringify v) = Returns v.
Hypothesis UTF8_roundtrip : forall s, encodeUTF8 (decodeUTF8 s) = s.
Hypothesis Base64_roundtrip : forall b, decodeBase64 (encodeBase64 b) = Returns b.
Hypothesis secretbox_roundtrip :
  forall message nonce_bytes key,
    secretbox_open (secretbox message nonce_bytes key) nonce_bytes key = Some message.

Let enc := encrypt value JSON_stringify decodeUTF8 encodeBase64 decodeBase64 secretbox.
Let dec := decrypt value JSON_parse encodeUTF8 encodeBase64 decodeBase64 secretbox_open.

(** After a successful key lookup the object holds the key it returned. *)
Lemma ensure_key_sets this fs fresh key this' fs' :
  ensure_key encodeBase64 decodeBase64 this fs fresh = Returns (key, this', fs') ->
  secretKey this' = Some key.
Proof.
  unfold ensure_key. destruct (secretKey this) as [k|] eqn:Hk.
  - now intros [= <- <- <-].
  - unfold loadOrCreateKey. destruct (fs !! _) as [keyData|].
    + destruct (decodeBase64 (trim keyData)); cbn; [|discriminate].
      now intros [= <- <- <-].
    + now intros [= <- <- <-].
Qed.

(** The key lookup fails only on a key file that does not decode. *)
Lemma ensure_key_throws this fs fresh msg :
  ensure_key encodeBase64 decodeBase64 this fs fresh = Throws msg ->
  secretKey this = None /\
  exists keyData,
    fs !! Storage.join (keyPath this) "secret.key" = Some keyData /\
    decodeBase64 (trim keyData) = Throws msg.
Proof.
  unfold ensure_key, loadOrCreateKey.
  destruct (secretKey this); [discriminate|].
  destruct (fs !! _) as [keyData|]; [|discriminate].
  destruct (decodeBase64 (trim keyData)) eqn:E; cbn; [discriminate|].
  intros [= <-]. eauto.
Qed.

(** C4.  Whatever the state of the encryption object and of the key store,
    and whatever nonce is drawn: when [encrypt(P)] returns, [decrypt] of the
    record it returned yields [P], on the same object and on any object
    that holds the same secret key; and [encrypt] throws only when the
    stored key file does not decode. *)
Theorem decrypt_encrypt (this : Encryption) (fs : gmap string string)
    (fresh_key fresh_nonce : bytes) (P : value) :
  match enc this fs fresh_key fresh_nonce P with
  | Returns (payload, this', fs') =>
      forall (that : Encryption) (fs'' : gmap string string) (fresh_key' : bytes),
        secretKey that = secretKey this' ->
        dec that fs'' fresh_key' payload = Returns (P, that, fs'')
  | Throws msg =>
      secretKey this = None /\
      exists keyData,
        fs !! Storage.join (keyPath this) "secret.key" = Some keyData /\
        decodeBase64 (trim keyData) = Throws msg
  end.
Proof.
  subst enc dec. unfold encrypt, decrypt.
  destruct (ensure_key encodeBase64 decodeBase64 this fs fresh_key)
    as [[[key this'] fs']|msg] eqn:Hkey; cbn [bind].
  - intros that fs'' fresh_key' Hsame.
    rewrite (ensure_key_sets _ _ _ _ _ _ Hkey) in Hsame.
    unfold ensure_key. rewrite Hsame. cbn.
    rewrite !Base64_roundtrip. cbn.
    rewrite secretbox_roundtrip, UTF8_roundtrip, JSON_roundtrip. reflexivity.
  - exact (ensure_key_throws this fs fresh_key msg Hkey).
Qed.

End CryptoFacts.

Lemma toy_secretbox_roundtrip message nonce_bytes key :
  toy_secretbox_open (toy_secretbox message nonce_bytes key) nonce_bytes key
  = Some message.
Proof.
  unfold toy_secretbox_open, toy_secretbox.
  rewrite take_app_length, drop_app_length.
  destruct (List.list_eq_dec _ _ _); [reflexivity|contradiction].
Qed.

(** Witness of C4, with strings as values, printed as themselves, and bytes
    written out character by character: a fresh object creates its key,
    encrypts, and decrypts what it encrypted. *)
Lemma decrypt_encrypt_witness :
  let this := {| Encryption.keyPath := "keys";
                 Encryption.algorithm := "xchacha20-poly1305";
                 Encryption.secretKey := None |} in
  match Encryption.encrypt string (fun s => s) list_byte_of_string string_of_list_byte
          (fun s => Returns (list_byte_of_string s)) toy_secretbox
          this ∅ [Byte.x01; Byte.x02] [Byte.x03] "remember this" with
  | Returns (payload, this', fs') =>
      Encryption.decrypt string Returns string_of_list_byte string_of_list_byte
          (fun s => Returns (list_byte_of_string s)) toy_secretbox_open
          this' fs' [] payload = Returns ("remember this", this', fs')
  | Throws _ => False
  end.
Proof.
  intros this.
  pose proof (decrypt_encrypt string (fun s => s) Returns list_byte_of_string
                string_of_list_byte string_of_list_byte
                (fun s => Returns (list_byte_of_string s))
                toy_secretbox toy_secretbox_open
                (fun v => eq_refl) string_of_list_byte_of_string
                (fun b => f_equal Returns (list_byte_of_string_of_list_byte b))
                toy_secretbox_roundtrip
                this ∅ [Byte.x01; Byte.x02] [Byte.x03] "remember this") as H.
  destruct (Encryption.encrypt _ _ _ _ _ _ this _ _ _ _)
    as [[[payload this'] fs']|msg].
  - apply H. reflexivity.
  - destruct H as [_ [keyData [Hfile _]]]. discriminate Hfile.
Defined.

(** ** Further properties of relevance scoring *)

Import Views.

Lemma lower_char_idem (c : ascii) : lower_char (lower_char c) = lower_char c.
Proof. destruct c as [[] [] [] [] [] [] [] []]; reflexivity. Qed.

Lemma toLowerCase_idem (s : string) : toLowerCase (toLowerCase s) = toLowerCase s.
Proof.
  induction s as [|c r IH]; [reflexivity|].
  cbn [toLowerCase]. now rewrite lower_char_idem, IH.
Qed.

(** X4.  Scoring reads the intent through [toLowerCase] only: an intent
    and its lower-case form score every envelope alike. *)
Theorem computeRelevance_intent_case (now : Z) (e : MemoryEnvelope)
    (intent : string) (kernel : option IdentityKernel) :
  computeRelevance now e (toLowerCase intent) kernel =
  computeRelevance now e intent kernel.
Proof.
  unfold computeRelevance, getKindScoresForIntent, tokenizeIntent, computeRiskScore.
  now rewrite toLowerCase_idem.
Qed.

(** [estimateTokens] is the ceiling of a quarter of the text length:
    the least number of four-character tokens that cover the text. *)
Lemma estimateTokens_ceiling (c : Content) :
  let n := Z.of_nat (String.length (content_text c)) in
  n <= 4 * estimateTokens c < n + 4.
Proof.
  intros n. subst n. unfold estimateTokens, ceil_div4.
  destruct c as [s|t]; cbn [content_text];
    set (n := Z.of_nat (String.length _));
    pose proof (Z.div_mod (n + 3) 4 ltac:(lia));
    pose proof (Z.mod_pos_bound (n + 3) 4 ltac:(lia)); lia.
Qed.

(** The sub-scores and their ranges. *)

Lemma kind_score_range (intent kind_ : string) :
  match num_or (kindScores_get (getKindScoresForIntent intent) kind_) 0.5 with
  | Num kindScore => (0.4 <= kindScore <= 1)%Q
  | NaN => True
  end.
Proof.
  unfold getKindScoresForIntent, kindScores_get. cbv zeta.
  repeat match goal with |- context [if ?b then _ else _] => destruct b end;
    vm_compute; first [exact I | split; discriminate].
Qed.

Lemma tag_overlap_range (intentTokens tags : list string) :
  (0 <= computeTagOverlap intentTokens tags <= 1)%Q.
Proof.
  unfold computeTagOverlap.
  destruct ((length tags =? 0)%nat || (length intentTokens =? 0)%nat) eqn:E;
    [split; discriminate|].
  apply orb_false_elim in E. destruct E as [Et Ei].
  apply Nat.eqb_neq in Et, Ei.
  set (m := length (List.filter _ intentTokens)).
  assert (Hm : (m <= length intentTokens)%nat) by apply List.filter_length_le.
  set (M := Nat.max (length intentTokens) (length tags)).
  assert (HM : (0 < M)%nat) by lia.
  assert (HmM : (m <= M)%nat) by lia.
  unfold Qdiv, Qle, Qmult, Qinv, inject_Z. cbn.
  destruct (Z.of_nat M) eqn:EM; try lia. cbn.
  split; nia.
Qed.

Lemma value_alignment_range (e : MemoryEnvelope) (kernel : option IdentityKernel) :
  (0.5 <= computeValueAlignment e kernel <= 0.9)%Q.
Proof.
  unfold computeValueAlignment.
  destruct kernel as [k|]; [|split; discriminate].
  destruct (invariants k) as [inv|]; [|split; discriminate].
  destruct (values inv) as [vs|]; [|split; discriminate].
  destruct (existsb _ _); split; discriminate.
Qed.

Lemma risk_score_range (e : MemoryEnvelope) (intent : string) :
  (0.3 <= computeRiskScore e intent <= 1)%Q.
Proof.
  unfold computeRiskScore. cbv zeta.
  repeat match goal with |- context [if ?b then _ else _] => destruct b end;
    split; discriminate.
Qed.

Lemma recency_nonneg (x : Q) : (0 <= Qmax 0 x)%Q.
Proof. apply Q.le_max_l. Qed.

Lemma clamp_mono (x y : Q) :
  (x <= y)%Q -> (Qmin 1 (Qmax 0 x) <= Qmin 1 (Qmax 0 y))%Q.
Proof.
  intros H. apply Q.min_le_compat_l. now apply Q.max_le_compat_l.
Qed.

Lemma score_with_range (now : Z) (e : MemoryEnvelope) (intent : string)
    (kernel : option IdentityKernel) (k : Q) :
  (0.4 <= k <= 1)%Q ->
  (0.2 <= score_with now e intent kernel k)%Q /\
  (created_at e <= now -> (score_with now e intent kernel k <= 0.985)%Q).
Proof.
  intros [Hk1 Hk2]. unfold score_with. cbv zeta.
  pose proof (tag_overlap_range (tokenizeIntent intent) (topic_tags e)) as [Ht1 Ht2].
  pose proof (value_alignment_range e kernel) as [Hv1 Hv2].
  pose proof (risk_score_range e intent) as [Hr1 Hr2].
  set (age := (inject_Z (now - created_at e) / inject_Z (1000 * 60 * 60 * 24))%Q).
  pose proof (recency_nonneg (1 - age / 365)) as Hrec.
  set (rec := Qmax 0 (1 - age / 365)) in *.
  set (t := computeTagOverlap _ _) in *.
  set (v := computeValueAlignment _ _) in *. set (r := computeRiskScore _ _) in *.
  split.
  - apply Q.min_glb; [discriminate|].
    eapply Qle_trans; [|apply Q.le_max_r]. lra.
  - intros Hage.
    assert (Hage' : (0 <= age)%Q).
    { subst age. apply Qle_shift_div_l; [reflexivity|]. rewrite Qmult_0_l.
      change 0%Q with (inject_Z 0). rewrite <- Zle_Qle. lia. }
    assert (Hrec1 : (rec <= 1)%Q).
    { subst rec. apply Q.max_lub; [discriminate|]. 
      assert (0 <= age / 365)%Q; [|lra].
      apply Qle_shift_div_l; [reflexivity|]. lra. }
    eapply Qle_trans; [apply Q.le_min_r|].
    apply Q.max_lub; [discriminate|]. lra.
Qed.


Lemma score_with_newer (now : Z) (e : MemoryEnvelope) (intent : string)
    (kernel : option IdentityKernel) (k : Q) (t1 t2 : Z) :
  t1 <= t2 ->
  (score_with now (with_created_at e t1) intent kernel k
   <= score_with now (with_created_at e t2) intent kernel k)%Q.
Proof.
  intros Ht. unfold score_with. cbv zeta.
  change (topic_tags (with_created_at e t1)) with (topic_tags e).
  change (topic_tags (with_created_at e t2)) with (topic_tags e).
  change (created_at (with_created_at e t1)) with t1.
  change (created_at (with_created_at e t2)) with t2.
  assert (Hv : computeValueAlignment (with_created_at e t1) kernel =
               computeValueAlignment (with_created_at e t2) kernel) by reflexivity.
  assert (Hr : computeRiskScore (with_created_at e t1) intent =
               computeRiskScore (with_created_at e t2) intent) by reflexivity.
  rewrite Hv, Hr.
  apply clamp_mono.
  assert (Hrec : (Qmax 0 (1 - inject_Z (now - t1) / inject_Z (1000 * 60 * 60 * 24) / 365)
                  <= Qmax 0 (1 - inject_Z (now - t2) / inject_Z (1000 * 60 * 60 * 24) / 365))%Q).
  { apply Q.max_le_compat_l.
    assert (inject_Z (now - t2) / inject_Z (1000 * 60 * 60 * 24) / 365
            <= inject_Z (now - t1) / inject_Z (1000 * 60 * 60 * 24) / 365)%Q; [|lra].
    assert (Hz : (inject_Z (now - t2) <= inject_Z (now - t1))%Q)
      by (rewrite <- Zle_Qle; lia).
    apply Qmult_le_compat_r; [|discriminate].
    apply Qmult_le_compat_r; [exact Hz|discriminate]. }
  lra.
Qed.

(** X6.  Of two envelopes that differ in their creation time only, scored
    at the same clock reading for the same intent and kernel, the newer one
    never scores lower: both scores are numbers and the newer one's is at
    least the older one's, or (for a kind that names a member of
    [Object.prototype]) both are [NaN]. *)
Theorem computeRelevance_newer_not_lower (now : Z) (e : MemoryEnvelope)
    (intent : string) (kernel : option IdentityKernel) (t1 t2 : Z) :
  t1 <= t2 ->
  not_lower (computeRelevance now (with_created_at e t1) intent kernel)
            (computeRelevance now (with_created_at e t2) intent kernel).
Proof.
  intros Ht. rewrite !computeRelevance_shape.
  change (kind (with_created_at e t1)) with (kind e).
  change (kind (with_created_at e t2)) with (kind e).
  destruct (num_or _ _) as [k|]; [|exact I].
  cbn [not_lower]. now apply score_with_newer.
Qed.

(** Witness of X6: a memory a day old against the same memory fresh. *)
Lemma computeRelevance_newer_not_lower_witness :
  not_lower (computeRelevance day (with_created_at older 0) "recall" None)
            (computeRelevance day (with_created_at older day) "recall" None).
Proof.
  apply (computeRelevance_newer_not_lower day older "recall" None 0 day).
  discriminate.
Defined.

Lemma all_chars_snoc (p : ascii -> bool) (s : string) (c : ascii) :
  all_chars p (s ++ String c EmptyString) = all_chars p s && p c.
Proof.
  induction s as [|d r IH]; simpl.
  - now destruct (p c).
  - now rewrite IH, andb_assoc.
Qed.

Lemma split_ws_from_chars (p : ascii -> bool) (s cur : string) (in_ws : bool) :
  all_chars p cur = true ->
  all_chars (fun c => is_space c || p c) s = true ->
  Forall (fun t => all_chars p t = true) (split_ws_from s cur in_ws).
Proof.
  revert cur in_ws.
  induction s as [|c r IH]; intros cur in_ws Hcur Hs; cbn.
  - now constructor.
  - cbn in Hs. apply andb_prop in Hs. destruct Hs as [Hc Hr].
    destruct (is_space c) eqn:Esp.
    + destruct in_ws; [now apply IH|]. constructor; [exact Hcur|now apply IH].
    + apply IH; [|exact Hr]. rewrite all_chars_snoc, Hcur. exact Hc.
Qed.

Lemma lower_char_not_upper (c : ascii) : is_upper (lower_char c) = false.
Proof. destruct c as [[] [] [] [] [] [] [] []]; reflexivity. Qed.

Lemma stripped_lower_chars (s : string) :
  all_chars (fun c => is_space c || token_char c)
            (strip_punctuation (toLowerCase s)) = true.
Proof.
  induction s as [|c r IH]; [reflexivity|].
  cbn [toLowerCase strip_punctuation].
  destruct (is_word (lower_char c) || is_space (lower_char c)) eqn:E; [|exact IH].
  cbn [all_chars]. rewrite IH, andb_true_r. unfold token_char.
  rewrite lower_char_not_upper.
  destruct (is_word (lower_char c)), (is_space (lower_char c)); now cbn in *.
Qed.

(** X7.  Every token that [tokenizeIntent] returns is longer than two
    characters and made of lower-case letters, digits and underscores only:
    case, punctuation and white space of the intent never reach the
    comparison with the tags. *)
Theorem tokenizeIntent_tokens (intent : string) :
  Forall (fun t => (2 < String.length t)%nat /\ all_chars token_char t = true)
         (tokenizeIntent intent).
Proof.
  unfold tokenizeIntent.
  pose proof (split_ws_from_chars token_char
                (strip_punctuation (toLowerCase intent)) EmptyString false
                eq_refl (stripped_lower_chars intent)) as H.
  fold (split_ws (strip_punctuation (toLowerCase intent))) in H.
  rewrite Forall_forall in *. intros t Ht.
  apply list_elem_of_In, filter_In in Ht. destruct Ht as [Ht Hlen].
  split; [now apply Nat.ltb_lt|]. apply H. now apply list_elem_of_In.
Qed.

(** ** Signing and co-signing envelopes *)

Section EnvelopeOpsFacts.
Import EnvelopeOps.
Variable enc_sign : SignableData -> option Encryption.bytes -> outcome string.
Variable enc_verify : SignableData -> string -> string -> outcome bool.
Variable trustedKeys : gmap string string.

Lemma verify_nonempty (e : MemoryEnvelope) :
  attestations e <> [] ->
  verify enc_verify trustedKeys e =
  {| Envelope.valid := forallb r_valid (reports enc_verify trustedKeys e);
     Envelope.reason := None;
     results := Some (reports enc_verify trustedKeys e) |}.
Proof. unfold verify, reports. destruct (attestations e); [congruence|reflexivity]. Qed.

Lemma verify_addAttestation (e : MemoryEnvelope) fresh now input :
  verify enc_verify trustedKeys (addAttestation e fresh now input) =
  let r := verify_one enc_verify trustedKeys e (fullAttestation fresh now input) in
  {| Envelope.valid := forallb r_valid (reports enc_verify trustedKeys e) && r_valid r;
     Envelope.reason := None;
     results := Some (reports enc_verify trustedKeys e ++ [r])%list |}.
Proof.
  rewrite verify_nonempty
    by (unfold addAttestation; cbn; now destruct (attestations e)).
  unfold reports, addAttestation. cbn [attestations set_attestations].
  rewrite map_app, forallb_app. cbn. now rewrite andb_true_r.
Qed.

Lemma verify_one_attester_id (e : MemoryEnvelope) (a : Attestation) :
  r_attester (verify_one enc_verify trustedKeys e a) = attester_id a.
Proof.
  unfold verify_one. destruct (or_else _ _); [|reflexivity].
  now destruct (enc_verify _ _ _).
Qed.

Lemma verify_one_no_key (e : MemoryEnvelope) (a : Attestation) :
  trustedKeys !! attester_id a = None -> public_key a = None ->
  verify_one enc_verify trustedKeys e a =
  {| r_attester := attester_id a; r_valid := false; r_level := None;
     r_reason := Some "No public key available" |}.
Proof. unfold verify_one. now intros -> ->. Qed.

Lemma verify_one_trusted (e : MemoryEnvelope) (a : Attestation) (publicKey : string) :
  trustedKeys !! attester_id a = Some publicKey ->
  enc_verify (getSignableData e) (signature a) publicKey = Returns true ->
  r_valid (verify_one enc_verify trustedKeys e a) = true.
Proof. intros H1 H2. unfold verify_one. rewrite H1. cbn. now rewrite H2. Qed.

(** X8.  Adding an attestation leaves the verdict on every earlier
    attestation as it was (the signed data does not include the
    attestations): [verify] then reports the earlier results, followed by
    one for the new attestation under its attester's id, and the envelope
    is valid exactly when the earlier attestations all verified and the new
    one does. *)
Theorem cosigning_keeps_verdicts (e : MemoryEnvelope) (fresh : string) (now : Z)
    (input : AttestationInput) :
  let e' := addAttestation e fresh now input in
  exists r,
    results (verify enc_verify trustedKeys e')
      = Some (reports enc_verify trustedKeys e ++ [r])%list /\
    r_attester r = i_attester_id input /\
    Envelope.valid (verify enc_verify trustedKeys e')
      = forallb r_valid (reports enc_verify trustedKeys e) && r_valid r.
Proof.
  intros e'. subst e'. rewrite verify_addAttestation. cbv zeta.
  eexists. split; [reflexivity|]. split; [|reflexivity].
  apply verify_one_attester_id.
Qed.

(** X9.  An envelope signed with [sign] carries no public key in the new
    attestation, so [verify] judges it invalid unless [trustedKeys] names
    the signer: whatever the signature, the attestation is reported with
    reason 'No public key available'. *)
Theorem signed_needs_trusted_key (e e' : MemoryEnvelope) (fresh : string) (now : Z)
    (identity : Kernel.IdentityKernel) :
  sign enc_sign e fresh now identity = Returns e' ->
  trustedKeys !! Kernel.kernel_id identity = None ->
  Envelope.valid (verify enc_verify trustedKeys e') = false /\
  results (verify enc_verify trustedKeys e')
    = Some (reports enc_verify trustedKeys e ++
            [{| r_attester := Kernel.kernel_id identity; r_valid := false;
                r_level := None;
                r_reason := Some "No public key available" |}])%list.
Proof.
  unfold sign. destruct (enc_sign _ _) as [s|msg]; cbn [bind]; [|discriminate].
  intros [= <-] Hkey. rewrite verify_addAttestation. cbv zeta.
  rewrite verify_one_no_key by (try exact Hkey; reflexivity).
  cbn. split; [apply andb_false_r|reflexivity].
Qed.

(** X10.  With the signer's public key among [trustedKeys], and a
    signature scheme in which that key verifies what the identity's secret
    key signed, an envelope is valid after [sign] exactly when its earlier
    attestations all verified; a fresh envelope is valid once signed. *)
Theorem signed_with_trusted_key (e e' : MemoryEnvelope) (fresh : string) (now : Z)
    (identity : Kernel.IdentityKernel) (publicKey : string) :
  sign enc_sign e fresh now identity = Returns e' ->
  trustedKeys !! Kernel.kernel_id identity = Some publicKey ->
  (forall s, enc_sign (getSignableData e)
                      (Kernel.secretKey <$> Kernel.keypair identity) = Returns s ->
             enc_verify (getSignableData e) s publicKey = Returns true) ->
  Envelope.valid (verify enc_verify trustedKeys e')
    = forallb r_valid (reports enc_verify trustedKeys e) /\
  (attestations e = [] -> Envelope.valid (verify enc_verify trustedKeys e') = true).
Proof.
  unfold sign. destruct (enc_sign _ _) as [s|msg] eqn:Es; cbn [bind]; [|discriminate].
  intros [= <-] Hkey Hscheme. specialize (Hscheme s eq_refl).
  rewrite verify_addAttestation. cbv zeta. cbn [Envelope.valid].
  erewrite verify_one_trusted; [|exact Hkey|exact Hscheme].
  rewrite andb_true_r. split; [reflexivity|].
  intros He. unfold reports. now rewrite He.
Qed.

End EnvelopeOpsFacts.

(** Witness of X9: the sample identity signs a draft; no key is trusted. *)
Lemma signed_needs_trusted_key_witness :
  match EnvelopeOps.sign MoreSamples.toy_sign MoreSamples.draft "att-1" 1
          MoreSamples.identity with
  | Returns e' =>
      Envelope.valid (verify MoreSamples.toy_verify ∅ e') = false
  | Throws _ => False
  end.
Proof.
  cbn.
  exact (proj1 (signed_needs_trusted_key MoreSamples.toy_sign MoreSamples.toy_verify ∅
                  MoreSamples.draft _ "att-1" 1 MoreSamples.identity
                  eq_refl eq_refl)).
Defined.

(** Witness of X10: the same signature under a trusted key. *)
Lemma signed_with_trusted_key_witness :
  match EnvelopeOps.sign MoreSamples.toy_sign MoreSamples.draft "att-1" 1
          MoreSamples.identity with
  | Returns e' =>
      Envelope.valid
        (verify MoreSamples.toy_verify {[ "kernel-1" := "public-key" ]} e') = true
  | Throws _ => False
  end.
Proof.
  cbn.
  refine (proj2 (signed_with_trusted_key MoreSamples.toy_sign MoreSamples.toy_verify
                  {[ "kernel-1" := "public-key" ]}
                  MoreSamples.draft _ "att-1" 1 MoreSamples.identity "public-key"
                  eq_refl eq_refl _) eq_refl).
  intros s [= <-]. reflexivity.
Defined.

(** A child envelope starts without attestations, so [verify]
    rejects it until it is signed; it names its parent in
    [lineage.parents] and supersedes it exactly when asked to.  The blob
    address, the access policy and the risk class are not inherited: unless
    the updates give a risk class the child is 'low', and scores as low-risk
    whatever the parent's class. *)
Lemma child_starts_unattested (this : MemoryEnvelope) (fresh : string) (now : Z)
    (updates : EnvelopeOps.Updates) enc_verify trustedKeys :
  let child := EnvelopeOps.createChild this fresh now updates in
  verify enc_verify trustedKeys child =
    {| Envelope.valid := false; Envelope.reason := Some "No attestations";
       results := None |} /\
  parents (lineage child) = [envelope_id this] /\
  supersedes_id child (envelope_id this) = EnvelopeOps.supersedes_parent updates /\
  cid child = EnvelopeOps.str_or_null (EnvelopeOps.u_cid updates) /\
  access_policy_ref child
    = EnvelopeOps.str_or_null (EnvelopeOps.u_access_policy_ref updates) /\
  (EnvelopeOps.u_risk_class updates = None ->
   forall intent, computeRiskScore child intent = 1.0%Q).
Proof.
  intros child. subst child. repeat split.
  - unfold supersedes_id, EnvelopeOps.createChild. cbn.
    destruct (EnvelopeOps.supersedes_parent updates); cbn; [|reflexivity].
    now rewrite String.eqb_refl.
  - intros Hrisk intent. unfold computeRiskScore, EnvelopeOps.createChild. cbn.
    now rewrite Hrisk.
Qed.

(** ** Identity kernel *)

Section KernelFacts.
Import Kernel.

Lemma arr_includes_In (l : list string) (x : string) :
  arr_includes l x = true <-> In x l.
Proof.
  unfold arr_includes. rewrite existsb_exists. split.
  - intros [y [Hy Hxy]]. apply String.eqb_eq in Hxy. now subst.
  - intros H. exists x. split; [exact H|apply String.eqb_refl].
Qed.

Lemma addValue_present (this : IdentityKernel) (now : Z) (value : string) :
  In value (values (invariants this)) -> addValue this now value = (false, this).
Proof. intros H. apply arr_includes_In in H. unfold addValue. now rewrite H. Qed.

Lemma addValue_absent (this : IdentityKernel) (now : Z) (value : string) :
  ~ In value (values (invariants this)) ->
  (addValue this now value).1 = true /\
  values (invariants (addValue this now value).2)
    = (values (invariants this) ++ [value])%list.
Proof.
  intros H. unfold addValue.
  destruct (arr_includes (values (invariants this)) value) eqn:E.
  - apply arr_includes_In in E. contradiction.
  - split; reflexivity.
Qed.

(** X11.  [addValue] appends the value when it is absent and does nothing
    when it is present: afterwards the value is there, the earlier values
    stand where they stood, a list without duplicates stays without, and a
    second call with the same value returns [false] and changes nothing.
    The rule 'value_changes' of [confirmation_required] is not
    consulted. *)
Theorem addValue_once (this : IdentityKernel) (now now' : Z) (value : string) :
  let k := (addValue this now value).2 in
  In value (values (invariants k)) /\
  (exists more, values (invariants k) = (values (invariants this) ++ more)%list) /\
  (NoDup (values (invariants this)) -> NoDup (values (invariants k))) /\
  addValue k now' value = (false, k) /\
  ((addValue this now value).1 = false <-> In value (values (invariants this))).
Proof.
  intros k. subst k.
  destruct (in_dec string_dec value (values (invariants this))) as [HIn|Hnot].
  - rewrite (addValue_present this now value HIn). cbn [fst snd].
    repeat split; try assumption; try tauto.
    + exists []. now rewrite app_nil_r.
    + now apply addValue_present.
  - destruct (addValue_absent this now value Hnot) as [Hret Hvals].
    assert (HIn' : In value (values (invariants (addValue this now value).2))).
    { rewrite Hvals. apply in_or_app. right. now left. }
    rewrite Hret. repeat split; try assumption; try discriminate.
    + rewrite Hvals. eauto.
    + intros Hnd. rewrite Hvals. apply NoDup_app. repeat split; try assumption.
      * intros x Hx Hx'. apply list_elem_of_In in Hx.
        apply list_elem_of_In in Hx'. destruct Hx' as [<-|[]]. tauto.
      * apply NoDup_singleton.
    + now apply addValue_present.
    + tauto.
Qed.

(** X12.  While 'boundary_changes' is listed under
    [confirmation_required], as it is in a kernel created with the
    defaults, [addBoundary] never changes the kernel: however many
    boundaries are submitted, none is added. *)
Theorem addBoundary_needs_confirmation (this : IdentityKernel) (now : Z)
    (submitted : list string) :
  arr_includes (confirmation_required (evolution_rules this)) "boundary_changes"
    = true ->
  fold_left (fun k boundary => (addBoundary k now boundary).2) submitted this = this /\
  forall boundary, (addBoundary this now boundary).1 <> Added.
Proof.
  intros Hrule. split.
  - induction submitted as [|b r IH]; [reflexivity|]. cbn [fold_left].
    unfold addBoundary at 2. rewrite Hrule.
    destruct (arr_includes (boundaries (invariants this)) b); exact IH.
  - intros b. unfold addBoundary. rewrite Hrule.
    destruct (arr_includes _ b); discriminate.
Qed.

Lemma newEpoch_lineage (this : IdentityKernel) fresh now reason :
  let k := (newEpoch this fresh now reason).2 in
  (kernel_history (pointers k) ++ [kernel_id k])%list
    = ((kernel_history (pointers this) ++ [kernel_id this]) ++ [fresh])%list /\
  invariants k = invariants this /\ cartouche k = cartouche this /\
  signature k = signature this /\ threat_posture k = threat_posture this.
Proof. now cbn. Qed.

(** X13.  Epoch transitions only ever append to the kernel history: after
    any series of [newEpoch] calls the history followed by the current id
    is the earlier history, the earlier id and the ids drawn since, in
    order.  The values and boundaries, the signature and the cartouche are
    carried over untouched: a new epoch neither re-signs the kernel nor
    regenerates its cartouche. *)
Theorem epochs_append_history (this : IdentityKernel)
    (epochs : list (string * Z * option string)) :
  let k := fold_left (fun k '(fresh, now, reason) => (newEpoch k fresh now reason).2)
                     epochs this in
  (kernel_history (pointers k) ++ [kernel_id k])%list
    = (kernel_history (pointers this) ++ [kernel_id this]
       ++ map (fun epoch => epoch.1.1) epochs)%list /\
  invariants k = invariants this /\ cartouche k = cartouche this /\
  signature k = signature this.
Proof.
  revert this. induction epochs as [|[[fresh now] reason] r IH]; intros this.
  - cbn. rewrite ?app_nil_r. now repeat split.
  - cbn [fold_left map]. specialize (IH (newEpoch this fresh now reason).2).
    cbv zeta in IH. destruct IH as [Hh [Hi [Hc Hs]]].
    destruct (newEpoch_lineage this fresh now reason) as [Hh' [Hi' [Hc' [Hs' _]]]].
    cbv zeta in Hh', Hi', Hc', Hs'.
    rewrite Hi, Hc, Hs, Hi', Hc', Hs'. repeat split.
    rewrite Hh. rewrite (app_assoc _ [kernel_id _]), Hh'.
    now rewrite <- !app_assoc.
Qed.

Lemma imap_index_only {A B} (f : nat -> B) (l : list A) :
  imap (fun i _ => f i) l = map f (seq 0 (length l)).
Proof.
  revert f. induction l as [|x r IH]; intros f; [reflexivity|].
  cbn [imap length seq map]. f_equal.
  rewrite <- seq_shift, map_map. apply (IH (fun i => f (S i))).
Qed.

(** The glyphs read three things off a kernel: how many of its first three
    values there are, whether it has a boundary, and its threat posture. *)
Lemma glyphs_read (k k' : IdentityKernel) :
  length (firstn 3 (values (invariants k))) = length (firstn 3 (values (invariants k'))) ->
  (0 <? length (boundaries (invariants k)))%nat
    = (0 <? length (boundaries (invariants k')))%nat ->
  anti_poisoning_strictness (threat_posture k)
    = anti_poisoning_strictness (threat_posture k') ->
  generateGlyphs k = generateGlyphs k'.
Proof.
  intros Hv Hb Hp. unfold generateGlyphs. cbv zeta.
  rewrite !imap_index_only, Hv, Hb, Hp. reflexivity.
Qed.

(** X14.  For every kernel the cartouche string has between one and five
    glyphs, and an epoch transition never changes them: the cartouche
    generated after [newEpoch] is spelled like the one before.  Once a
    kernel has three values, adding further values does not change its
    glyphs either. *)
Theorem cartouche_stable (this : IdentityKernel) (now : Z) (value fresh : string)
    (reason : option string) :
  (1 <= length (generateGlyphs this) <= 5)%nat /\
  generateGlyphs (newEpoch this fresh now reason).2 = generateGlyphs this /\
  ((3 <= length (values (invariants this)))%nat ->
   generateGlyphs (addValue this now value).2 = generateGlyphs this).
Proof.
  split; [|split].
  - unfold generateGlyphs. cbv zeta.
    rewrite !length_app, length_imap, length_firstn. cbn [length].
    destruct (0 <? _)%nat; cbn [length]; lia.
  - now apply glyphs_read.
  - intros H3. apply glyphs_read; unfold addValue;
      destruct (arr_includes _ _); cbn; try reflexivity.
    rewrite !length_firstn, length_app. cbn [length]. lia.
Qed.

Section KernelSigned.
Variable enc_hash : string -> string.
Variable enc_sign : Signable -> option Encryption.bytes -> outcome string.
Variable enc_verify : Signable -> string -> Encryption.bytes -> outcome bool.

(** X15.  An unsigned kernel never verifies.  A kernel that [sign] has
    signed verifies under a public key that matches the signing key, and
    goes on verifying after its cartouche is generated or its threat
    posture is changed: the signature covers neither. *)
Theorem kernel_signature_scope (this signed : IdentityKernel) (pk : Encryption.bytes)
    (now : Z) (posture : ThreatPosture) :
  sign enc_sign this = Returns signed ->
  (forall s, enc_sign (getSignableData this) (secretKey <$> keypair this) = Returns s ->
             s <> "" /\ enc_verify (getSignableData this) s pk = Returns true) ->
  verify enc_verify (set_signature this None) pk = Returns false /\
  verify enc_verify signed pk = Returns true /\
  verify enc_verify (generateCartouche enc_hash signed now).2 pk = Returns true /\
  verify enc_verify (set_threat_posture signed posture) pk = Returns true.
Proof.
  unfold sign. destruct (enc_sign _ _) as [s|msg] eqn:Es; cbn [bind]; [|discriminate].
  intros [= <-] Hscheme. destruct (Hscheme s eq_refl) as [Hne Hok].
  apply String.eqb_neq in Hne.
  repeat split; unfold verify; cbn; rewrite Hne; exact Hok.
Qed.

End KernelSigned.

End KernelFacts.

(** Witness of X14: a kernel with three values. *)
Lemma cartouche_stable_witness :
  Kernel.generateGlyphs (Kernel.addValue MoreSamples.seasoned 9 "curiosity").2
    = Kernel.generateGlyphs MoreSamples.seasoned /\
  length (Kernel.values (Kernel.invariants
            (Kernel.addValue MoreSamples.seasoned 9 "curiosity").2)) = 4%nat.
Proof.
  split; [|reflexivity].
  exact (proj2 (proj2 (cartouche_stable MoreSamples.seasoned 9 "curiosity" "k2" None))
               ltac:(cbn; lia)).
Defined.

(** Witness of X15: the stand-in scheme signs the sample kernel. *)
Lemma kernel_signature_scope_witness :
  match Kernel.sign MoreSamples.toy_sign MoreSamples.identity with
  | Returns signed =>
      Kernel.verify MoreSamples.toy_verify
        (Kernel.generateCartouche (fun s => s) signed 7).2 [] = Returns true
  | Throws _ => False
  end.
Proof.
  cbn [Kernel.sign MoreSamples.toy_sign bind].
  refine (proj1 (proj2 (proj2 (kernel_signature_scope (fun s => s)
            MoreSamples.toy_sign MoreSamples.toy_verify MoreSamples.identity _ [] 7
            (Kernel.threat_posture MoreSamples.identity) eq_refl _)))).
  intros s [= <-]. split; [discriminate|reflexivity].
Defined.


(** Witness of X12: three boundaries submitted to a fresh kernel. *)
Lemma addBoundary_needs_confirmation_witness :
  Kernel.boundaries (Kernel.invariants
    (fold_left (fun k boundary => (Kernel.addBoundary k 5 boundary).2)
               ["will not deceive"; "will acknowledge uncertainty"; "no secrets"]
               MoreSamples.identity)) = [].
Proof.
  rewrite (proj1 (addBoundary_needs_confirmation MoreSamples.identity 5
                    ["will not deceive"; "will acknowledge uncertainty"; "no secrets"]
                    eq_refl)).
  reflexivity.
Defined.

(** ** Signatures and the signing key files *)

Lemma append_cancel_l (s a b : string) : (s ++ a)%string = (s ++ b)%string -> a = b.
Proof. induction s as [|c r IH]; cbn; [tauto|]. intros [= H]. now apply IH. Qed.

Lemma string_length_append (a b : string) :
  String.length (a ++ b) = (String.length a + String.length b)%nat.
Proof. induction a as [|c a IH]; simpl; [reflexivity|now f_equal]. Qed.

Lemma append_cancel_r (s a b : string) : (a ++ s)%string = (b ++ s)%string -> a = b.
Proof.
  revert b. induction a as [|c a IH]; intros [|d b].
  - reflexivity.
  - intros H. apply (f_equal String.length) in H.
    rewrite !string_length_append in H. cbn [String.length] in H. lia.
  - intros H. apply (f_equal String.length) in H.
    rewrite !string_length_append in H. cbn [String.length] in H. lia.
  - intros H. simpl in H. injection H as -> H. f_equal. now apply IH.
Qed.

(** *** Paths *)

Lemma string_cons_app (c : ascii) (a b : string) :
  (String c a ++ b)%string = String c (a ++ b).
Proof. reflexivity. Qed.

Lemma string_app_assoc (a b c : string) :
  ((a ++ b) ++ c)%string = (a ++ b ++ c)%string.
Proof.
  induction a as [|x a IH]; [reflexivity|].
  rewrite !string_cons_app. now f_equal.
Qed.

Lemma string_app_nil_r (a : string) : (a ++ "")%string = a.
Proof.
  induction a as [|x a IH]; [reflexivity|].
  rewrite string_cons_app. now f_equal.
Qed.

Lemma split_slash_nonempty (s : string) : Storage.split_slash s <> [].
Proof.
  destruct s as [|c r]; cbn; [discriminate|].
  destruct (Ascii.eqb c "/"); [discriminate|].
  destruct (Storage.split_slash r); discriminate.
Qed.

Lemma split_slash_plain (s : string) :
  plain_name s = true -> Storage.split_slash s = [s].
Proof.
  induction s as [|c r IH]; [reflexivity|].
  unfold plain_name. cbn [all_chars Storage.split_slash].
  intros H. apply andb_true_iff in H. destruct H as [Hc Hr].
  apply negb_true_iff in Hc. rewrite Hc.
  fold (plain_name r) in Hr. now rewrite (IH Hr).
Qed.

Lemma split_slash_app (a b : string) :
  Storage.split_slash (a ++ "/" ++ b)
  = (Storage.split_slash a ++ Storage.split_slash b)%list.
Proof.
  induction a as [|c a IH]; [reflexivity|].
  rewrite string_cons_app. cbn [Storage.split_slash].
  destruct (Ascii.eqb c "/").
  - now rewrite IH.
  - rewrite IH.
    pose proof (split_slash_nonempty a) as Hne.
    destruct (Storage.split_slash a); [contradiction|reflexivity].
Qed.

Lemma concat_snoc (l : list string) (x : string) :
  String.concat "/" (l ++ [x])
  = match l with
    | [] => x
    | _ => (String.concat "/" l ++ "/" ++ x)%string
    end.
Proof.
  induction l as [|y r IH]; [reflexivity|].
  destruct r as [|z r].
  - reflexivity.
  - change (String.concat "/" ((y :: z :: r) ++ [x]))
      with (y ++ "/" ++ String.concat "/" ((z :: r) ++ [x]))%string.
    rewrite IH.
    change (String.concat "/" (y :: z :: r))
      with (y ++ "/" ++ String.concat "/" (z :: r))%string.
    now rewrite <- !string_app_assoc.
Qed.

Lemma ends_with_slash_app (a b : string) :
  b <> "" -> Storage.ends_with_slash (a ++ b) = Storage.ends_with_slash b.
Proof.
  intros Hb. induction a as [|c a IH]; [reflexivity|].
  rewrite string_cons_app. cbn [Storage.ends_with_slash].
  destruct (a ++ b)%string eqn:E; [|exact IH].
  destruct a; [contradiction|discriminate].
Qed.

Lemma ends_with_slash_plain (s : string) :
  plain_name s = true -> Storage.ends_with_slash s = false.
Proof.
  induction s as [|c r IH]; [reflexivity|].
  unfold plain_name. cbn [all_chars]. intros H.
  apply andb_true_iff in H. destruct H as [Hc Hr].
  apply negb_true_iff in Hc. simpl.
  destruct r; [exact Hc|]. now apply IH.
Qed.

Lemma file_name_segment (allowAboveRoot : bool) (res : list string) (name : string) :
  file_name name -> Storage.normalize_segment allowAboveRoot res name = name :: res.
Proof.
  intros [_ [H0 [H1 H2]]]. unfold Storage.normalize_segment.
  rewrite (proj2 (String.eqb_neq _ _) H0), (proj2 (String.eqb_neq _ _) H1),
    (proj2 (String.eqb_neq _ _) H2). reflexivity.
Qed.

Lemma append_nonempty (a b : string) : b <> "" -> (a ++ b)%string <> "".
Proof. intros Hb H. destruct a; [contradiction|discriminate]. Qed.

(** A path whose last segment is a file name normalizes to the segments
    kept before it, followed by that name. *)
Lemma normalize_file (path name : string) (before : list string) :
  file_name name ->
  Storage.split_slash path = (before ++ [name])%list ->
  Storage.ends_with_slash path = false ->
  Storage.normalize path
  = ((if String.prefix "/" path then "/" else "")
     ++ String.concat "/"
          (rev (fold_left (Storage.normalize_segment (negb (String.prefix "/" path)))
                          before [])
           ++ [name]))%string.
Proof.
  intros Hname Hsplit Hend. unfold Storage.normalize, Storage.normalizeString.
  assert (Hpath : path <> "").
  { intros ->. cbn in Hsplit. destruct before as [|? [|? ?]]; try discriminate.
    injection Hsplit as <-. now destruct Hname as [_ [H _]]. }
  rewrite (proj2 (String.eqb_neq _ _) Hpath). cbv zeta.
  rewrite Hsplit, fold_left_app. cbn [fold_left].
  rewrite (file_name_segment _ _ _ Hname). cbn [rev]. rewrite Hend.
  set (kept := rev (fold_left _ before [])).
  assert (Hne : String.concat "/" (kept ++ [name]) <> "").
  { rewrite concat_snoc. destruct Hname as [_ [H0 _]].
    destruct kept; [exact H0|].
    apply append_nonempty, append_nonempty. exact H0. }
  rewrite (proj2 (String.eqb_neq _ _) Hne).
  now rewrite string_app_nil_r.
Qed.

Lemma prefix_slash_app (a b : string) :
  a <> "" -> String.prefix "/" (a ++ b) = String.prefix "/" a.
Proof.
  destruct a as [|c a]; [contradiction|]. intros _.
  rewrite string_cons_app. cbn [String.prefix].
  destruct (ascii_dec "/" c); [|reflexivity].
  destruct (a ++ b)%string, a; reflexivity.
Qed.

Lemma prefix_slash_plain (s : string) :
  plain_name s = true -> String.prefix "/" s = false.
Proof.
  destruct s as [|c r]; [reflexivity|]. unfold plain_name. cbn [all_chars].
  intros H. apply andb_true_iff in H. destruct H as [Hc _].
  apply negb_true_iff in Hc. cbn [String.prefix].
  destruct (ascii_dec "/" c) as [<-|Hne]; [discriminate Hc|reflexivity].
Qed.

(** [join(dir, name)] for a file name: what [dir] normalizes to, followed
    by the name. *)
Lemma join_file_name (dir : string) :
  exists directory : string,
    forall name, file_name name ->
      Storage.join dir name = (directory ++ name)%string /\
      Storage.join dir ("x/../" ++ name) = (directory ++ name)%string.
Proof.
  destruct (String.eqb_spec dir "") as [->|Hdir].
  - exists "". intros name Hname.
    pose proof Hname as [Hplain [H0 _]].
    unfold Storage.join. cbn [String.eqb].
    rewrite (proj2 (String.eqb_neq _ _) H0). split.
    + rewrite (normalize_file name name [] Hname (split_slash_plain _ Hplain)
                 (ends_with_slash_plain _ Hplain)).
      now rewrite (prefix_slash_plain _ Hplain).
    + rewrite (normalize_file ("x/../" ++ name) name ["x"; ".."] Hname).
      * reflexivity.
      * change ("x/../" ++ name)%string with ("x" ++ "/" ++ (".." ++ "/" ++ name))%string.
        rewrite !split_slash_app, (split_slash_plain _ Hplain). reflexivity.
      * change ("x/../" ++ name)%string with ("x/../" ++ name)%string.
        rewrite (ends_with_slash_app "x/../" name H0).
        now apply ends_with_slash_plain.
  - set (absolute := String.prefix "/" dir).
    set (kept := rev (fold_left (Storage.normalize_segment (negb absolute))
                                (Storage.split_slash dir) [])).
    exists ((if absolute then "/" else "")
            ++ match kept with
               | [] => ""
               | _ => String.concat "/" kept ++ "/"
               end)%string.
    intros name Hname. pose proof Hname as [Hplain [H0 _]].
    assert (Hshape : forall middle : list string,
      fold_left (Storage.normalize_segment (negb absolute)) middle
        (fold_left (Storage.normalize_segment (negb absolute))
                   (Storage.split_slash dir) [])
      = fold_left (Storage.normalize_segment (negb absolute))
                  (Storage.split_slash dir) [] ->
      forall tail : string,
        Storage.split_slash tail = (middle ++ [name])%list ->
        Storage.ends_with_slash tail = false -> tail <> "" ->
        Storage.normalize (dir ++ "/" ++ tail)
        = (((if absolute then "/" else "")
            ++ match kept with
               | [] => ""
               | _ => String.concat "/" kept ++ "/"
               end) ++ name)%string).
    { intros middle Hmiddle tail Htail Hend Hne.
      rewrite (normalize_file (dir ++ "/" ++ tail) name
                 (Storage.split_slash dir ++ middle) Hname).
      - rewrite (prefix_slash_app dir _ Hdir). fold absolute.
        rewrite fold_left_app, Hmiddle. fold kept. rewrite concat_snoc.
        destruct kept as [|first_ more].
        + now rewrite string_app_nil_r.
        + now rewrite !string_app_assoc.
      - rewrite split_slash_app, Htail. now rewrite app_assoc.
      - rewrite (ends_with_slash_app dir ("/" ++ tail)) by discriminate.
        now rewrite (ends_with_slash_app "/" tail Hne). }
    unfold Storage.join. rewrite (proj2 (String.eqb_neq _ _) Hdir).
    rewrite (proj2 (String.eqb_neq _ _) H0).
    assert (Hx : ("x/../" ++ name)%string <> "") by discriminate.
    rewrite (proj2 (String.eqb_neq _ _) Hx). split.
    + apply (Hshape [] eq_refl name (split_slash_plain _ Hplain)
               (ends_with_slash_plain _ Hplain) H0).
    + apply (Hshape ["x"; ".."]).
      * cbn [fold_left].
        generalize (fold_left (Storage.normalize_segment (negb absolute))
                              (Storage.split_slash dir) []).
        intros res. reflexivity.
      * change ("x/../" ++ name)%string with ("x" ++ "/" ++ (".." ++ "/" ++ name))%string.
        rewrite !split_slash_app, (split_slash_plain _ Hplain). reflexivity.
      * rewrite (ends_with_slash_app "x/../" name H0).
        now apply ends_with_slash_plain.
      * exact Hx.
Qed.

Lemma join_inj (dir a b : string) :
  file_name a -> file_name b ->
  Storage.join dir a = Storage.join dir b -> a = b.
Proof.
  intros Ha Hb H. destruct (join_file_name dir) as [directory Hjoin].
  rewrite (proj1 (Hjoin a Ha)), (proj1 (Hjoin b Hb)) in H.
  now apply append_cancel_l in H.
Qed.

Lemma all_chars_app (p : ascii -> bool) (a b : string) :
  all_chars p (a ++ b) = all_chars p a && all_chars p b.
Proof.
  induction a as [|c a IH]; [reflexivity|].
  rewrite string_cons_app. cbn [all_chars]. now rewrite IH, andb_assoc.
Qed.

(** The file of a plain address is a file name. *)
Lemma json_file_name (cid : string) :
  plain_name cid = true -> file_name (cid ++ ".json").
Proof.
  intros H. unfold file_name, plain_name in *.
  rewrite all_chars_app, H. split; [reflexivity|].
  repeat split; intros E; apply (f_equal String.length) in E;
    rewrite string_length_append in E; cbn in E; lia.
Qed.

Lemma toy_pair_verifies (message sig : Encryption.bytes) :
  MoreSamples.toy_sign_detached message (Kernel.secretKey MoreSamples.toy_pair)
    = Returns sig ->
  MoreSamples.toy_verify_detached message sig (Kernel.publicKey MoreSamples.toy_pair)
    = Returns true.
Proof.
  intros [= <-]. unfold MoreSamples.toy_verify_detached.
  now destruct (List.list_eq_dec _ _ _).
Qed.

Section SigningFacts.
Import Encryption Signing.

Variable value : Type.
Variable JSON_stringify : value -> string.
Variable decodeUTF8 : string -> bytes.
Variable encodeBase64 : bytes -> string.
Variable decodeBase64 : string -> outcome bytes.
Variable sign_detached : bytes -> bytes -> outcome bytes.
Variable verify_detached : bytes -> bytes -> bytes -> outcome bool.

(** The base64 codec inverts itself. *)
Hypothesis Base64_roundtrip : forall b, decodeBase64 (encodeBase64 b) = Returns b.

Let sign_ := sign value JSON_stringify decodeUTF8 encodeBase64 decodeBase64 sign_detached.
Let verify_ := verify value JSON_stringify decodeUTF8 decodeBase64 verify_detached.
Let getPublicKey_ := getPublicKey encodeBase64 decodeBase64.

Lemma key_files_differ (this : Encryption) :
  signing_key_file this <> signing_pub_file this.
Proof.
  intros H. apply join_inj in H; [discriminate| |];
    (split; [reflexivity|repeat split; discriminate]).
Qed.


(** X17.  When the secret signing key is stored but its public key file is
    not, [getPublicKey] throws: the fallback reads the existing secret key,
    writes nothing, and the second read of the public key file fails. *)
Theorem getPublicKey_orphan_secret (this : Encryption) (fs : gmap string string)
    (fresh : Kernel.KeyPair) (keyData : string) (key : bytes) :
  fs !! signing_key_file this = Some keyData ->
  decodeBase64 (trim keyData) = Returns key ->
  fs !! signing_pub_file this = None ->
  getPublicKey_ this fs fresh = Throws "ENOENT".
Proof.
  intros Hkey Hdec Hpub. subst getPublicKey_.
  unfold getPublicKey, getSigningKey. rewrite Hpub, Hkey, Hdec. cbn [bind].
  now rewrite Hpub.
Qed.

End SigningFacts.


(** Witness of X17: a key store that holds the secret signing key only. *)
Lemma getPublicKey_orphan_secret_witness :
  Signing.getPublicKey string_of_list_byte (fun s => Returns (list_byte_of_string s))
    MoreSamples.toy_encryption {[ "keys/signing.key" := "secret" ]}
    MoreSamples.toy_pair = Throws "ENOENT".
Proof.
  exact (getPublicKey_orphan_secret string_of_list_byte
           (fun s => Returns (list_byte_of_string s))
           MoreSamples.toy_encryption {[ "keys/signing.key" := "secret" ]}
           MoreSamples.toy_pair "secret" (list_byte_of_string "secret")
           eq_refl eq_refl eq_refl).
Defined.

(** ** The symmetric key and its file *)

Section KeyStoreFacts.
Import Encryption.

Variable value : Type.
Variable JSON_stringify : value -> string.
Variable JSON_parse : string -> outcome value.
Variable decodeUTF8 : string -> bytes.
Variable encodeUTF8 : bytes -> string.
Variable encodeBase64 : bytes -> string.
Variable decodeBase64 : string -> outcome bytes.
Variable secretbox : bytes -> bytes -> bytes -> bytes.
Variable secretbox_open : bytes -> bytes -> bytes -> option bytes.

Let enc := encrypt value JSON_stringify decodeUTF8 encodeBase64 decodeBase64 secretbox.
Let dec := decrypt value JSON_parse encodeUTF8 encodeBase64 decodeBase64 secretbox_open.
Let key_file (this : Encryption) := Storage.join (keyPath this) "secret.key".

Lemma ensure_key_store (this this' : Encryption) (fs fs' : gmap string string)
    (fresh key : bytes) :
  ensure_key encodeBase64 decodeBase64 this fs fresh = Returns (key, this', fs') ->
  secretKey this' = Some key /\
  ((fs' = fs /\ (secretKey this = Some key \/
                 exists keyData, fs !! key_file this = Some keyData /\
                                 decodeBase64 (trim keyData) = Returns key)) \/
   (secretKey this = None /\ fs !! key_file this = None /\ key = fresh /\
    fs' = <[key_file this := encodeBase64 fresh]> fs)).
Proof.
  subst key_file. unfold ensure_key, loadOrCreateKey.
  destruct (secretKey this) as [k|] eqn:Hk.
  - intros [= <- <- <-]. split; [exact Hk|]. left. split; [reflexivity|now left].
  - destruct (fs !! _) as [keyData|] eqn:Hfile.
    + destruct (decodeBase64 (trim keyData)) as [k|msg] eqn:Hdec; cbn [bind];
        [|discriminate].
      intros [= <- <- <-]. split; [reflexivity|]. left. split; [reflexivity|].
      right. eauto.
    + intros [= <- <- <-]. split; [reflexivity|]. right. now repeat split.
Qed.

(** X18.  [encrypt] writes the key store in one case only: no key is
    loaded and there is no key file; it then stores the key it drew and
    nothing else.  A key file that exists is never replaced, and no other
    file is touched. *)
Theorem encrypt_keeps_key_file (this : Encryption) (fs : gmap string string)
    (fresh_key fresh_nonce : bytes) (P : value) :
  match enc this fs fresh_key fresh_nonce P with
  | Returns (_, this', fs') =>
      (fs' = fs \/
       (secretKey this = None /\ fs !! key_file this = None /\
        fs' = <[key_file this := encodeBase64 fresh_key]> fs /\
        secretKey this' = Some fresh_key)) /\
      (forall keyData, fs !! key_file this = Some keyData ->
                       fs' !! key_file this = Some keyData) /\
      (forall path, path <> key_file this -> fs' !! path = fs !! path)
  | Throws _ => True
  end.
Proof.
  subst enc. unfold encrypt.
  destruct (ensure_key encodeBase64 decodeBase64 this fs fresh_key)
    as [[[key this'] fs']|msg] eqn:Hkey; cbn [bind]; [|exact I].
  destruct (ensure_key_store _ _ _ _ _ _ Hkey) as [Hset [[-> _]|[Hnone [Hfile [-> ->]]]]].
  - split; [now left|]. split; auto.
  - split; [right; now repeat split|]. split.
    + intros keyData Hsome. congruence.
    + intros path Hpath. now rewrite lookup_insert_ne.
Qed.

Hypothesis JSON_roundtrip : forall v, JSON_parse (JSON_stringify v) = Returns v.
Hypothesis UTF8_roundtrip : forall s, encodeUTF8 (decodeUTF8 s) = s.
Hypothesis Base64_roundtrip : forall b, decodeBase64 (encodeBase64 b) = Returns b.
Hypothesis secretbox_roundtrip :
  forall message nonce_bytes key,
    secretbox_open (secretbox message nonce_bytes key) nonce_bytes key = Some message.


End KeyStoreFacts.


(** ** Access policies *)

Section PolicyFacts.
Import AccessPolicy PolicyOps.

Lemma has_principal_In (l : list principal) (x : principal) :
  has_principal l x = true <-> In x l.
Proof.
  unfold has_principal. rewrite existsb_exists. split.
  - intros [y [Hy Heq]]. apply bool_decide_eq_true in Heq. now subst.
  - intros Hx. exists x. split; [exact Hx|]. now apply bool_decide_eq_true.
Qed.

Lemma has_principal_app (l1 l2 : list principal) (x : principal) :
  has_principal (l1 ++ l2) x = has_principal l1 x || has_principal l2 x.
Proof. apply existsb_app. Qed.

Lemma has_principal_self (x : principal) : has_principal [x] x = true.
Proof. apply has_principal_In. now left. Qed.

Lemma has_without (p q : principal) (l : list principal) :
  has_principal (without p l) q = negb (bool_decide (q = p)) && has_principal l q.
Proof.
  apply eq_true_iff_eq. rewrite andb_true_iff, negb_true_iff, bool_decide_eq_false.
  rewrite !has_principal_In. unfold without. rewrite filter_In.
  rewrite negb_true_iff, bool_decide_eq_false. tauto.
Qed.

(** X20.  [grant] throws exactly when the policy has no list for the
    permission name.  When it returns, the principal holds the permission
    and is listed among the principals, and granting the same again changes
    the time stamp only. *)
Theorem grant_then_permitted (this : AccessPolicy) (now now' : Z)
    (p : principal) (perm : string) :
  ((exists msg, grant this now p perm = Throws msg)
   <-> permissions this !! perm = None) /\
  match grant this now p perm with
  | Returns this' =>
      hasPermission this' p perm = true /\
      has_principal (principals this') p = true /\
      grant this' now' p perm
      = Returns (set_permissions this' (permissions this') (principals this') now')
  | Throws _ => permissions this !! perm = None
  end.
Proof.
  split.
  { unfold grant. destruct (permissions this !! perm) as [l|].
    - split; [intros [msg H]; discriminate H|discriminate].
    - split; [reflexivity|]. intros _. eauto. }
  unfold grant. destruct (permissions this !! perm) as [l|] eqn:Hl; [|reflexivity].
  remember (if has_principal l p then l else (l ++ [p])%list) as l' eqn:El'.
  remember (if has_principal (principals this) p then principals this
            else (principals this ++ [p])%list) as ps eqn:Eps.
  assert (Hl' : has_principal l' p = true).
  { rewrite El'. destruct (has_principal l p) eqn:H; [exact H|].
    rewrite has_principal_app, has_principal_self. apply orb_true_r. }
  assert (Hps : has_principal ps p = true).
  { rewrite Eps. destruct (has_principal (principals this) p) eqn:H; [exact H|].
    rewrite has_principal_app, has_principal_self. apply orb_true_r. }
  clear El' Eps.
  split; [|split].
  - unfold hasPermission. cbn [owner_id permissions set_permissions].
    destruct (bool_decide _); [reflexivity|].
    rewrite lookup_insert_eq. change (default [] (Some l')) with l'.
    now rewrite Hl'.
  - exact Hps.
  - cbn [owner_id permissions principals set_permissions].
    rewrite lookup_insert_eq, Hl', Hps, insert_insert_eq. reflexivity.
Qed.

(** After [revoke(p, perm)] a principal other than the owner holds [perm]
    only through the wildcard entry. *)
Lemma revoke_own_hold (this this' : AccessPolicy) (now : Z)
    (p : principal) (perm : string) :
  revoke this now p perm = Returns this' ->
  p <> owner_id this ->
  hasPermission this' p perm
  = negb (bool_decide (p = Some "*"))
    && has_principal (default [] (permissions this !! perm)) (Some "*").
Proof.
  unfold revoke. destruct (permissions this !! perm) as [l|] eqn:Hl; [|discriminate].
  intros [= <-] Howner. unfold hasPermission.
  cbn [owner_id permissions set_permissions default].
  rewrite bool_decide_eq_false_2 by exact Howner.
  rewrite lookup_insert_eq.
  change (default [] (Some (without p l))) with (without p l).
  change (default [] (Some l)) with l. rewrite !has_without.
  rewrite (bool_decide_eq_true_2 (p = p)) by reflexivity. cbn [negb andb orb].
  f_equal. destruct p as [s|].
  - destruct (bool_decide (Some s = Some "*")) eqn:H1, (bool_decide (Some "*" = Some s)) eqn:H2;
      try reflexivity.
    + apply bool_decide_eq_true in H1. apply bool_decide_eq_false in H2. congruence.
    + apply bool_decide_eq_true in H2. apply bool_decide_eq_false in H1. congruence.
  - reflexivity.
Qed.

(** [revoke(p, perm)] changes no other permission of anybody, and, when
    [p] is not the wildcard, nobody else's hold on [perm]. *)
Lemma revoke_others_hold (this this' : AccessPolicy) (now : Z)
    (p : principal) (perm : string) :
  revoke this now p perm = Returns this' ->
  (forall q perm', perm' <> perm ->
     hasPermission this' q perm' = hasPermission this q perm') /\
  (p <> Some "*" ->
   forall q, q <> p -> hasPermission this' q perm = hasPermission this q perm).
Proof.
  unfold revoke. destruct (permissions this !! perm) as [l|] eqn:Hl; [|discriminate].
  intros [= <-]. split.
  - intros q perm' Hne. unfold hasPermission.
    cbn [owner_id permissions set_permissions].
    now rewrite lookup_insert_ne by congruence.
  - intros Hstar q Hq. unfold hasPermission.
    cbn [owner_id permissions set_permissions].
    rewrite lookup_insert_eq, Hl.
    change (default [] (Some (without p l))) with (without p l).
    change (default [] (Some l)) with l. rewrite !has_without.
    rewrite (bool_decide_eq_false_2 (q = p)) by exact Hq.
    rewrite (bool_decide_eq_false_2 (Some "*" = p)) by congruence.
    reflexivity.
Qed.

(** X21.  After [revoke(p, perm)] a principal other than the owner holds
    [perm] only through the wildcard entry, which [revoke] leaves in the
    list (unless the wildcard itself is what was revoked).  No other
    permission of anybody changes, and, when [p] is not the wildcard,
    nobody else's hold on [perm]. *)
Theorem revoke_effect (this this' : AccessPolicy) (now : Z)
    (p : principal) (perm : string) :
  revoke this now p perm = Returns this' ->
  (p <> owner_id this ->
   hasPermission this' p perm
   = negb (bool_decide (p = Some "*"))
     && has_principal (default [] (permissions this !! perm)) (Some "*")) /\
  (forall q perm', perm' <> perm ->
     hasPermission this' q perm' = hasPermission this q perm') /\
  (p <> Some "*" ->
   forall q, q <> p -> hasPermission this' q perm = hasPermission this q perm).
Proof.
  intros H. split; [|exact (revoke_others_hold _ _ _ _ _ H)].
  exact (revoke_own_hold _ _ _ _ _ H).
Qed.

(** An intent that contains a denied intent (case ignored) is denied to
    every principal, the owner included, whatever the allowed intents and
    the permissions say. *)
Lemma denied_intent_denies_owner (this : AccessPolicy) (now : Z)
    (p : principal) (intent denied : string) :
  In denied (denied_intents (constraints this)) ->
  includes (toLowerCase intent) (toLowerCase denied) = true ->
  getAccessLevel this now p intent = "denied".
Proof.
  intros Hin Hinc. unfold getAccessLevel.
  destruct (negb (valid (isValid this now))); [reflexivity|].
  assert (H : isIntentAllowed this intent = false).
  { unfold isIntentAllowed.
    assert (Hex : existsb (fun d => includes (toLowerCase intent) (toLowerCase d))
                    (denied_intents (constraints this)) = true).
    { apply existsb_exists. eauto. }
    now rewrite Hex. }
  now rewrite H.
Qed.

End PolicyFacts.

(** Witness of X21: bob's read permission revoked under a wildcard. *)
Lemma revoke_effect_witness :
  let shared :=
    AccessPolicy.set_permissions (AccessPolicy.createDefault "policy-1" 0 (Some "alice"))
      (<["read" := [Some "alice"; Some "bob"; Some "*"]]> ∅) [Some "alice"; Some "bob"] 0 in
  let after :=
    AccessPolicy.set_permissions shared
      (<["read" := [Some "alice"; Some "*"]]> (AccessPolicy.permissions shared))
      (AccessPolicy.principals shared) 5 in
  (Some "bob" <> AccessPolicy.owner_id shared ->
   AccessPolicy.hasPermission after (Some "bob") "read"
   = negb (bool_decide (Some "bob" = Some "*"))
     && AccessPolicy.has_principal
          (default [] (AccessPolicy.permissions shared !! "read")) (Some "*")) /\
  (forall q perm', perm' <> "read" ->
     AccessPolicy.hasPermission after q perm' = AccessPolicy.hasPermission shared q perm') /\
  (Some "bob" <> Some "*" ->
   forall q, q <> Some "bob" ->
     AccessPolicy.hasPermission after q "read" = AccessPolicy.hasPermission shared q "read").
Proof.
  intros shared after.
  apply (revoke_effect shared after 5 (Some "bob") "read").
  reflexivity.
Defined.

Section SharingFacts.
Import AccessPolicy PolicyOps.

Lemma share_with_throws (sharedWith : list principal) (names : list string)
    (msg : string) :
  fold_left (share_with sharedWith) names (Throws msg) = Throws msg.
Proof. induction names as [|n names IH]; [reflexivity|exact IH]. Qed.

(** What the rounds of [createShared] make of the permission lists. *)
Lemma share_with_fold (sharedWith : list principal) (names : list string) :
  forall m : gmap string (list principal),
    match fold_left (share_with sharedWith) names (Returns m) with
    | Returns m' =>
        forall k,
          match m !! k with
          | Some l =>
              exists l', m' !! k = Some l' /\
                forall x, In x l' <-> In x l \/ (In k names /\ In x sharedWith)
          | None => m' !! k = None
          end
    | Throws _ => exists name, In name names /\ In name inherited_names
    end.
Proof.
  induction names as [|n names IH]; intros m.
  - cbn. intros k. destruct (m !! k) as [l|]; [|reflexivity].
    exists l. split; [reflexivity|]. intros x. tauto.
  - cbn [fold_left]. unfold share_with at 2. cbn [bind].
    destruct (m !! n) as [ln|] eqn:Hn.
    + specialize (IH (<[n := (ln ++ sharedWith)%list]> m)).
      destruct (fold_left _ names _) as [m'|msg].
      * intros k. specialize (IH k).
        destruct (String.eqb_spec n k) as [->|Hne].
        -- rewrite lookup_insert_eq in IH. rewrite Hn.
           destruct IH as [l' [Hl' Hx]]. exists l'. split; [exact Hl'|].
           intros x. rewrite Hx, in_app_iff. cbn [In]. tauto.
        -- rewrite lookup_insert_ne in IH by exact Hne.
           destruct (m !! k) as [l|]; [|exact IH].
           destruct IH as [l' [Hl' Hx]]. exists l'. split; [exact Hl'|].
           intros x. rewrite Hx. cbn [In]. intuition congruence.
      * destruct IH as [name [H1 H2]]. exists name. split; [now right|exact H2].
    + destruct (arr_includes inherited_names n) eqn:Hinh.
      * rewrite share_with_throws. exists n. split; [now left|].
        unfold arr_includes in Hinh. apply existsb_exists in Hinh.
        destruct Hinh as [y [Hy Heq]]. apply String.eqb_eq in Heq. now subst.
      * specialize (IH m). destruct (fold_left _ names _) as [m'|msg].
        -- intros k. specialize (IH k). destruct (m !! k) as [l|] eqn:Hk; [|exact IH].
           destruct IH as [l' [Hl' Hx]]. exists l'. split; [exact Hl'|].
           intros x. rewrite Hx. cbn [In]. intuition congruence.
        -- destruct IH as [name [H1 H2]]. exists name. split; [now right|exact H2].
Qed.

Lemma createDefault_lists (id : string) (now : Z) (owner : principal) (k : string) :
  permissions (createDefault id now owner) !! k
  = if arr_includes ["read"; "write"; "derive"; "share"; "revoke"] k
    then Some [owner] else None.
Proof.
  cbn [permissions createDefault].
  destruct (String.eqb_spec k "read") as [->|H1]; [reflexivity|].
  destruct (String.eqb_spec k "write") as [->|H2]; [reflexivity|].
  destruct (String.eqb_spec k "derive") as [->|H3]; [reflexivity|].
  destruct (String.eqb_spec k "share") as [->|H4]; [reflexivity|].
  destruct (String.eqb_spec k "revoke") as [->|H5]; [reflexivity|].
  rewrite !lookup_insert_ne by congruence. rewrite lookup_empty.
  unfold arr_includes. cbn [existsb].
  rewrite (proj2 (String.eqb_neq _ _) H1), (proj2 (String.eqb_neq _ _) H2),
    (proj2 (String.eqb_neq _ _) H3), (proj2 (String.eqb_neq _ _) H4),
    (proj2 (String.eqb_neq _ _) H5). reflexivity.
Qed.

(** X22.  In the policy [createShared] returns, the owner is
    [ownerId || null].  For a permission name that is not inherited from
    [Object.prototype], a principal holds the permission exactly when it is
    the owner, or the permission is one of the five lists and the principal
    is [ownerId], or [ownerId] is the wildcard, or the permission was named
    in the call and the principal, or the wildcard, is among those shared
    with.  The call throws only for a permission name inherited from
    [Object.prototype]. *)
Theorem createShared_permissions (id : string) (now : Z) (ownerId : principal)
    (sharedWith : list principal) (permissions_arg : option (list string))
    (p : principal) (perm : string) :
  match createShared id now ownerId sharedWith permissions_arg with
  | Returns policy =>
      owner_id policy = or_null ownerId /\
      (arr_includes inherited_names perm = false ->
       (hasPermission policy p perm = true <->
        p = or_null ownerId \/
        (In perm ["read"; "write"; "derive"; "share"; "revoke"] /\
         (p = ownerId \/ ownerId = Some "*" \/
          (In perm (default ["read"] permissions_arg) /\
           (In p sharedWith \/ In (Some "*") sharedWith))))))
  | Throws _ =>
      exists name, In name (default ["read"] permissions_arg) /\
                   In name inherited_names
  end.
Proof.
  unfold createShared.
  pose proof (share_with_fold sharedWith (default ["read"] permissions_arg)
                (permissions (createDefault id now ownerId))) as Hfold.
  destruct (fold_left _ _ _) as [m'|msg]; cbn [bind]; [|exact Hfold].
  split; [reflexivity|]. intros _.
  specialize (Hfold perm). rewrite createDefault_lists in Hfold.
  unfold hasPermission. cbn [owner_id permissions set_permissions createDefault].
  destruct (bool_decide (p = or_null ownerId)) eqn:Hown.
  - apply bool_decide_eq_true in Hown. tauto.
  - apply bool_decide_eq_false in Hown.
    assert (Hknown : arr_includes ["read"; "write"; "derive"; "share"; "revoke"] perm = true
                     <-> In perm ["read"; "write"; "derive"; "share"; "revoke"]).
    { unfold arr_includes. rewrite existsb_exists. split.
      - intros [y [Hy Heq]]. apply String.eqb_eq in Heq. now subst.
      - intros Hin. exists perm. split; [exact Hin|apply String.eqb_refl]. }
    destruct (arr_includes _ perm) eqn:Hperm.
    + destruct Hfold as [l' [-> Hx]]. change (default [] (Some l')) with l'.
      rewrite orb_true_iff, !has_principal_In, !Hx. cbn [In].
      pose proof (proj1 Hknown eq_refl) as Hk. intuition congruence.
    + rewrite Hfold. cbn. split; [discriminate|].
      intros [H|[Hk _]]; [contradiction|].
      apply Hknown in Hk. discriminate.
Qed.

(** Witness of X22: a policy of an owner with the empty id, shared for
    reading: the owner is [null], and the empty id reads through the
    list. *)
Lemma createShared_permissions_witness :
  match PolicyOps.createShared "policy-1" 0 (Some "") [Some "bob"] None with
  | Returns policy =>
      AccessPolicy.owner_id policy = None /\
      AccessPolicy.hasPermission policy (Some "") "read" = true
  | Throws _ => False
  end.
Proof.
  pose proof (createShared_permissions "policy-1" 0 (Some "") [Some "bob"] None
                (Some "") "read") as H.
  destruct (PolicyOps.createShared "policy-1" 0 (Some "") [Some "bob"] None)
    as [policy|msg].
  - destruct H as [Hown Hiff]. split; [exact Hown|].
    apply (Hiff eq_refl). right. split; [now left|]. now left.
  - destruct H as [name [[<-|[]] Hinh]].
    repeat (destruct Hinh as [Hinh|Hinh]; [discriminate Hinh|]). exact Hinh.
Defined.

Section RedactFacts.

Variable value : Type.
Variable of_string : string -> value.

Lemma redact_field_lookup (pattern : string) (m : gmap string value)
    (field k : string) :
  redact_field value of_string pattern m field !! k
  = if String.eqb k field && redactable value m k
    then Some (of_string pattern) else m !! k.
Proof.
  unfold redactable, redact_field.
  destruct (String.eqb_spec k field) as [->|Hne]; cbn [andb].
  - destruct (m !! field) as [v|] eqn:Hf.
    + rewrite lookup_insert_eq.
      rewrite bool_decide_eq_true_2 by eauto. reflexivity.
    + rewrite (bool_decide_eq_false_2 (is_Some None)) by (intros [? ?]; discriminate).
      cbn [orb].
      destruct (arr_includes inherited_names field && negb (String.eqb field "__proto__")).
      * now rewrite lookup_insert_eq.
      * exact Hf.
  - destruct (m !! field);
      [|destruct (arr_includes inherited_names field && negb (String.eqb field "__proto__"))];
      try reflexivity; now rewrite lookup_insert_ne by congruence.
Qed.

Lemma redact_field_redactable (pattern : string) (m : gmap string value)
    (field k : string) :
  redactable value (redact_field value of_string pattern m field) k = redactable value m k.
Proof.
  unfold redactable at 1. rewrite redact_field_lookup.
  destruct (String.eqb k field && redactable value m k) eqn:H.
  - apply andb_true_iff in H. destruct H as [_ H]. rewrite H.
    rewrite bool_decide_eq_true_2 by eauto. reflexivity.
  - reflexivity.
Qed.

(** X23.  [applyRedaction] reads back, field by field: a field is replaced
    by the pattern exactly when redaction is enabled, the field is listed
    in [fields_to_redact], and the content has it (or its name is
    inherited from [Object.prototype]); every other field of the content
    is returned as it was, and no other field is added. *)
Theorem applyRedaction_lookup (this : AccessPolicy)
    (content : gmap string value) (k : string) :
  applyRedaction value of_string this content !! k
  = if enabled (redaction this)
       && arr_includes (fields_to_redact (redaction this)) k
       && redactable value content k
    then Some (of_string (redaction_pattern (redaction this)))
    else content !! k.
Proof.
  unfold applyRedaction. destruct (enabled (redaction this)); [|reflexivity].
  cbn [andb]. generalize (redaction_pattern (redaction this)) as pattern.
  intros pattern. revert content.
  induction (fields_to_redact (redaction this)) as [|field fields IH]; intros content.
  - reflexivity.
  - cbn [fold_left]. rewrite IH, redact_field_redactable, redact_field_lookup.
    unfold arr_includes. cbn [existsb]. fold (arr_includes fields k).
    destruct (String.eqb k field), (arr_includes fields k), (redactable value content k);
      reflexivity.
Qed.

End RedactFacts.

Section GatherFacts.

Variable loadPolicy : string -> outcome AccessPolicy.

Let loaded (policyRef : string) (p : AccessPolicy) : Prop :=
  loadPolicy policyRef = Returns p.

Lemma gather_invariant (memorySlices : list ContextPack.Slice) :
  forall (policies : list AccessPolicy) (seen : gset string) (refs : list string),
    NoDup refs ->
    Forall2 loaded refs policies ->
    (forall r, r ∈ seen <-> r ∈ refs) ->
    exists refs',
      NoDup refs' /\
      Forall2 loaded refs' (fst (gather loadPolicy memorySlices policies seen)) /\
      forall r, r ∈ refs' <->
                r ∈ refs \/
                ((exists slice, In slice memorySlices /\ policy_ref slice = Some r) /\
                 exists p, loadPolicy r = Returns p).
Proof.
  induction memorySlices as [|slice rest IH]; intros policies seen refs Hnd Hall Hseen.
  - exists refs. cbn. split; [exact Hnd|]. split; [exact Hall|].
    intros r. split; [tauto|]. intros [H|[[s [[] _]] _]]. exact H.
  - cbn [gather].
    assert (Hskip :
      (forall r, policy_ref slice = Some r -> r ∈ refs \/ forall p, loadPolicy r <> Returns p) ->
      exists refs',
        NoDup refs' /\
        Forall2 loaded refs' (fst (gather loadPolicy rest policies seen)) /\
        forall r, r ∈ refs' <->
                  r ∈ refs \/
                  ((exists s, In s (slice :: rest) /\ policy_ref s = Some r) /\
                   exists p, loadPolicy r = Returns p)).
    { intros Hs. destruct (IH policies seen refs Hnd Hall Hseen) as [refs' [H1 [H2 H3]]].
      exists refs'. split; [exact H1|]. split; [exact H2|].
      intros r. rewrite H3. split.
      - intros [H|[[s [Hin Hr]] Hp]]; [now left|].
        right. split; [|exact Hp]. exists s. split; [now right|exact Hr].
      - intros [H|[[s [[<-|Hin] Hr]] [p Hp]]]; [now left| |].
        + destruct (Hs r Hr) as [H|H]; [now left|]. now destruct (H p).
        + right. split; [|now exists p]. exists s. now split. }
    destruct (policy_ref slice) as [policyRef|] eqn:Href.
    + destruct (bool_decide (policyRef ∈ seen)) eqn:Hin.
      * apply bool_decide_eq_true in Hin. apply Hskip.
        intros r [= <-]. left. now apply Hseen.
      * apply bool_decide_eq_false in Hin.
        destruct (loadPolicy policyRef) as [p|msg] eqn:Hload.
        -- destruct (IH (policies ++ [p])%list ({[policyRef]} ∪ seen)
                        (refs ++ [policyRef])%list) as [refs' [H1 [H2 H3]]].
           ++ apply NoDup_app. split; [exact Hnd|]. split.
              ** intros x Hx Hx'. apply list_elem_of_singleton in Hx'. subst x.
                 apply Hin. now apply Hseen.
              ** apply NoDup_singleton.
           ++ apply Forall2_app; [exact Hall|]. constructor; [exact Hload|constructor].
           ++ intros r. rewrite elem_of_union, elem_of_singleton, elem_of_app,
                list_elem_of_singleton, Hseen. tauto.
           ++ exists refs'. split; [exact H1|]. split; [exact H2|].
              intros r. rewrite H3, elem_of_app, list_elem_of_singleton. split.
              ** intros [[H| -> ]|[[s [Hs Hr]] Hp]]; [now left| |].
                 --- right. split; [|now exists p]. exists slice. split; [now left|exact Href].
                 --- right. split; [|exact Hp]. exists s. split; [now right|exact Hr].
              ** intros [H|[[s [[<-|Hs] Hr]] Hp]]; [now left;left| |].
                 --- left. right. congruence.
                 --- right. split; [|exact Hp]. exists s. now split.
        -- apply Hskip. intros r [= <-]. right. intros p. congruence.
    + apply Hskip. intros r [=].
Qed.

(** X24.  [gatherPolicies] returns one policy for each reference that some
    slice carries and that can be loaded, and no reference is loaded into
    the result twice. *)
Theorem gatherPolicies_once (memorySlices : list ContextPack.Slice) :
  exists refs,
    NoDup refs /\
    Forall2 (fun policyRef p => loadPolicy policyRef = Returns p)
            refs (gatherPolicies loadPolicy memorySlices) /\
    forall r, r ∈ refs <->
              (exists slice, In slice memorySlices /\ policy_ref slice = Some r) /\
              exists p, loadPolicy r = Returns p.
Proof.
  destruct (gather_invariant memorySlices [] ∅ []) as [refs [H1 [H2 H3]]].
  - constructor.
  - constructor.
  - intros r. rewrite elem_of_empty, elem_of_nil. tauto.
  - exists refs. split; [exact H1|]. split; [exact H2|].
    intros r. rewrite H3, elem_of_nil. tauto.
Qed.

End GatherFacts.

End SharingFacts.

(** ** The agent interface *)

Lemma firstn_In_list {A} (n : nat) (l : list A) (x : A) :
  In x (firstn n l) -> In x l.
Proof.
  revert l. induction n as [|n IH]; intros [|y r]; cbn; try tauto.
  intros [H|H]; [now left|right; now apply IH].
Qed.

Lemma firstn_StronglySorted {A} (R : A -> A -> Prop) (n : nat) (l : list A) :
  StronglySorted R l -> StronglySorted R (firstn n l).
Proof.
  revert l. induction n as [|n IH]; intros l Hs; [constructor|].
  destruct Hs as [|y r Hs Hall]; [constructor|]. cbn. constructor.
  - now apply IH.
  - rewrite List.Forall_forall in *. intros z Hz. apply Hall.
    now apply firstn_In_list in Hz.
Qed.

Lemma slice_upto_In {A} (n : Z) (l : list A) (x : A) :
  In x (MLP.slice_upto n l) -> In x l.
Proof. unfold MLP.slice_upto. destruct (n <? 0); apply firstn_In_list. Qed.

Lemma slice_upto_length {A} (n : Z) (l : list A) :
  0 <= n -> Z.of_nat (length (MLP.slice_upto n l)) <= n.
Proof.
  intros Hn. unfold MLP.slice_upto.
  destruct (Z.ltb_spec n 0) as [H|H]; [lia|].
  rewrite length_firstn. lia.
Qed.

Section AgentFacts.
Import MLP.

Variable provider : string.
Variable allCids : list string.
Variable retrieve : string -> outcome Stored.
Variable readContent : option string -> outcome Content.

Lemma collect_In (kinds_ : option (list string)) (e : MemoryEnvelope) :
  forall cids,
    In e (collect retrieve kinds_ cids) ->
    envelope_id e <> "" /\ kind e <> "" /\
    (forall l, kinds_ = Some l -> In (kind e) l) /\
    exists cid_, In cid_ cids /\ retrieve cid_ = Returns (EnvelopeData e).
Proof.
  induction cids as [|c rest IH]; cbn [collect]; [intros []|].
  assert (Hrest : In e (collect retrieve kinds_ rest) ->
                  envelope_id e <> "" /\ kind e <> "" /\
                  (forall l, kinds_ = Some l -> In (kind e) l) /\
                  exists cid_, In cid_ (c :: rest) /\
                               retrieve cid_ = Returns (EnvelopeData e)).
  { intros H. destruct (IH H) as [H1 [H2 [H3 [c' [H4 H5]]]]].
    repeat split; try assumption. exists c'. split; [now right|exact H5]. }
  destruct (retrieve c) as [[data|]|msg] eqn:Hc; try exact Hrest.
  destruct (negb (String.eqb (envelope_id data) "")) eqn:Hid; cbn [andb];
    [|exact Hrest].
  destruct (negb (String.eqb (kind data) "")) eqn:Hkind; [|exact Hrest].
  apply negb_true_iff in Hid, Hkind. apply String.eqb_neq in Hid, Hkind.
  assert (Hhere : forall l, kinds_ = Some l -> In (kind data) l ->
                  data = e ->
                  envelope_id e <> "" /\ kind e <> "" /\
                  (forall l, kinds_ = Some l -> In (kind e) l) /\
                  exists cid_, In cid_ (c :: rest) /\
                               retrieve cid_ = Returns (EnvelopeData e)).
  { intros l Hl Hin <-. repeat split; try assumption.
    - intros l' Hl'. congruence.
    - exists c. split; [now left|exact Hc]. }
  destruct kinds_ as [l|].
  - destruct (arr_includes l (kind data)) eqn:Hinc; cbn [negb]; [|exact Hrest].
    intros [H|H]; [|exact (Hrest H)].
    apply (Hhere l eq_refl); [|exact H].
    unfold arr_includes in Hinc. apply existsb_exists in Hinc.
    destruct Hinc as [y [Hy Heq]]. apply String.eqb_eq in Heq. now subst.
  - intros [<-|H]; [|exact (Hrest H)].
    repeat split; try assumption; [discriminate|].
    exists c. split; [now left|exact Hc].
Qed.

(** X25.  What [_fetchEnvelopes] returns is ordered by [created_at], newest
    first; each element is a stored item with an envelope id and a kind,
    of one of the requested kinds; and for a count [max_count >= 0] there
    are at most [max_count] of them, at most 50 when [max_count] is 0. *)
Theorem fetchEnvelopes_result (constraints : FetchConstraints) :
  let fetched := _fetchEnvelopes provider allCids retrieve constraints in
  StronglySorted (fun a b => created_at b <= created_at a) fetched /\
  (forall e, In e fetched ->
     envelope_id e <> "" /\ kind e <> "" /\
     (forall l, kinds constraints = Some l -> In (kind e) l) /\
     exists cid_, In cid_ allCids /\ retrieve cid_ = Returns (EnvelopeData e)) /\
  (0 <= max_count constraints ->
   Z.of_nat (length fetched)
   <= if max_count constraints =? 0 then 50 else max_count constraints).
Proof.
  cbv zeta. unfold _fetchEnvelopes.
  destruct (negb (String.eqb provider "local")).
  - split; [constructor|]. split; [intros e []|].
    intros H. cbn. destruct (max_count constraints =? 0); lia.
  - split; [|split].
    + unfold slice_upto.
      assert (Hs : StronglySorted (fun a b => created_at b <= created_at a)
                     (sort (fun a b => inject_Z (created_at b) - inject_Z (created_at a))%Q
                           (collect retrieve (kinds constraints) allCids))).
      { pose proof (sort_sorted (fun e => inject_Z (created_at e))
                      (collect retrieve (kinds constraints) allCids)) as H.
        induction H as [|y r Hs IH Hall]; constructor; [exact IH|].
        rewrite List.Forall_forall in *. intros z Hz. specialize (Hall z Hz).
        unfold desc in Hall. rewrite Zle_Qle. exact Hall. }
      destruct (_ <? 0); now apply firstn_StronglySorted.
    + intros e He. apply slice_upto_In in He.
      apply (Permutation_in _ (sort_perm _ _)) in He.
      now apply collect_In.
    + intros Hn. destruct (Z.eqb_spec (max_count constraints) 0) as [H0|H0].
      * now apply slice_upto_length.
      * now apply slice_upto_length.
Qed.

(** The shape of a slice [generateContextPack] pushes. *)
Let pushed (m : Slice) : Prop :=
  isTombstone (slice_envelope m) = false /\
  ((access_level m = "full" /\ is_Some (decrypted_content m)) \/
   (access_level m = "denied" /\ decrypted_content m = None)).

Let full_count (l : list Slice) : Z :=
  Z.of_nat (length (List.filter (fun m => String.eqb (access_level m) "full") l)).

Lemma slices_loop_counts (maxMemories : Z) (allEnvelopes : list MemoryEnvelope) :
  forall st,
    memoriesConsidered st = memoriesIncluded st + memoriesDenied st ->
    memoriesIncluded st = full_count (memorySlices st) ->
    Forall pushed (memorySlices st) ->
    let st' := slices_loop readContent maxMemories allEnvelopes st in
    memoriesConsidered st' = memoriesIncluded st' + memoriesDenied st' /\
    memoriesIncluded st' = full_count (memorySlices st') /\
    Forall pushed (memorySlices st').
Proof.
  induction allEnvelopes as [|e rest IH]; intros st H1 H2 H3; cbn [slices_loop].
  - now repeat split.
  - cbv zeta. destruct (isTombstone e) eqn:Htomb.
    + apply IH; cbn; [lia|exact H2|exact H3].
    + set (st2 := push_slice _ e _).
      assert (Hst2 : memoriesConsidered st2 = memoriesIncluded st2 + memoriesDenied st2 /\
                     memoriesIncluded st2 = full_count (memorySlices st2) /\
                     Forall pushed (memorySlices st2)).
      { subst st2. unfold push_slice.
        destruct (readContent (cid e)) as [c|msg]; cbn [memoriesConsidered
          memoriesIncluded memoriesDenied memorySlices].
        - split; [lia|]. split.
          + unfold full_count in *. rewrite List.filter_app, List.length_app. cbn. lia.
          + apply Forall_app. split; [exact H3|]. constructor; [|constructor].
            split; [exact Htomb|]. left. cbn. eauto.
        - split; [lia|]. split.
          + unfold full_count in *. rewrite List.filter_app, List.length_app. cbn. lia.
          + apply Forall_app. split; [exact H3|]. constructor; [|constructor].
            split; [exact Htomb|]. right. cbn. eauto. }
      destruct Hst2 as [G1 [G2 G3]].
      destruct (maxMemories <=? memoriesIncluded st2); [now repeat split|].
      now apply IH.
Qed.

(** X26.  In every pack of [generateContextPack] the trace adds up:
    [memories_considered = memories_included + memories_denied] and
    [memories_redacted = 0]; [memories_included] is the number of slices
    with access level 'full'; a slice is either 'full' with its content
    or 'denied' with [null] content, and never a tombstone. *)
Theorem generateContextPack_trace_exact (kernel_id_ : string) (options : Options) :
  let pack := generateContextPack provider allCids retrieve readContent
                kernel_id_ options in
  let trace := compilation_trace pack in
  memories_considered trace = memories_included trace + memories_denied trace /\
  memories_redacted trace = 0 /\
  memories_included trace
  = Z.of_nat (length (List.filter (fun m => String.eqb (access_level m) "full")
                                  (memory_slices pack))) /\
  forall m, In m (memory_slices pack) ->
    isTombstone (slice_envelope m) = false /\
    ((access_level m = "full" /\ is_Some (decrypted_content m)) \/
     (access_level m = "denied" /\ decrypted_content m = None)).
Proof.
  cbv zeta. unfold generateContextPack.
  cbn [compilation_trace memory_slices memories_considered memories_included
       memories_redacted memories_denied].
  destruct (slices_loop_counts
              (default 10 (o_maxMemories options))
              (_fetchEnvelopes provider allCids retrieve
                 {| kinds := Some (default ["semantic"; "reflection"]
                                     (o_memoryTypes options));
                    max_count := default 10 (o_maxMemories options) |})
              initialState) as [H1 [H2 H3]]; try reflexivity; [constructor|].
  split; [exact H1|]. split; [reflexivity|]. split; [exact H2|].
  intros m Hm. rewrite List.Forall_forall in H3. exact (H3 m Hm).
Qed.

Lemma slices_loop_cap (maxMemories : Z) (allEnvelopes : list MemoryEnvelope) :
  forall st,
    memoriesIncluded st = 0 \/ (0 <= memoriesIncluded st < maxMemories) ->
    0 <= memoriesIncluded (slices_loop readContent maxMemories allEnvelopes st)
      <= Z.max 1 maxMemories.
Proof.
  induction allEnvelopes as [|e rest IH]; intros st Hst; cbn [slices_loop].
  - lia.
  - cbv zeta. destruct (isTombstone e).
    + apply IH. exact Hst.
    + set (st2 := push_slice _ e _).
      assert (Hst2 : memoriesIncluded st <= memoriesIncluded st2
                     <= memoriesIncluded st + 1).
      { subst st2. unfold push_slice.
        destruct (readContent (cid e)); cbn [memoriesIncluded]; lia. }
      destruct (Z.leb_spec maxMemories (memoriesIncluded st2)) as [Hle|Hlt].
      * lia.
      * apply IH. lia.
Qed.

(** [generateContextPack] includes at most [maxMemories] memories, and at
    most one when [maxMemories] is zero or negative. *)
Lemma generateContextPack_bound (kernel_id_ : string) (options : Options) :
  let pack := generateContextPack provider allCids retrieve readContent
                kernel_id_ options in
  0 <= memories_included (compilation_trace pack)
    <= Z.max 1 (default 10 (o_maxMemories options)).
Proof.
  cbv zeta. unfold generateContextPack.
  cbn [compilation_trace memories_included].
  apply slices_loop_cap. now left.
Qed.

(** A cap of zero or less does not empty the pack. *)
Lemma nonpositive_cap_includes_one (kernel_id_ : string) (options : Options)
    (M : Z) (e : MemoryEnvelope) (rest : list MemoryEnvelope) (c : Content) :
  o_maxMemories options = Some M ->
  M <= 0 ->
  _fetchEnvelopes provider allCids retrieve
    {| kinds := Some (default ["semantic"; "reflection"] (o_memoryTypes options));
       max_count := M |} = e :: rest ->
  isTombstone e = false ->
  readContent (cid e) = Returns c ->
  let pack := generateContextPack provider allCids retrieve readContent
                kernel_id_ options in
  memory_slices pack
  = [{| slice_envelope := e; decrypted_content := Some c; access_level := "full" |}] /\
  memories_included (compilation_trace pack) = 1.
Proof.
  intros HM Hle Hfetch Htomb Hread. cbv zeta. unfold generateContextPack.
  rewrite HM. change (default 10 (Some M)) with M. rewrite Hfetch.
  cbn [slices_loop]. cbv zeta. rewrite Htomb, Hread.
  cbn [push_slice memoriesIncluded initialState memorySlices].
  destruct (Z.leb_spec M (0 + 1)) as [_|H]; [|lia].
  cbn. now split.
Qed.

(** X27.  [generateContextPack] includes at most [maxMemories] memories,
    and at most one when [maxMemories] is zero or negative: the cap is
    tested after a slice has been pushed.  So a cap of zero or less does
    not empty the pack: when the first envelope fetched is no tombstone
    and its content can be read, it is the one slice of the pack, in
    full. *)
Theorem generateContextPack_cap (kernel_id_ : string) (options : Options) :
  let pack := generateContextPack provider allCids retrieve readContent
                kernel_id_ options in
  0 <= memories_included (compilation_trace pack)
    <= Z.max 1 (default 10 (o_maxMemories options)) /\
  forall M e rest c,
    o_maxMemories options = Some M ->
    M <= 0 ->
    _fetchEnvelopes provider allCids retrieve
      {| kinds := Some (default ["semantic"; "reflection"] (o_memoryTypes options));
         max_count := M |} = e :: rest ->
    isTombstone e = false ->
    readContent (cid e) = Returns c ->
    memory_slices pack
    = [{| slice_envelope := e; decrypted_content := Some c;
          access_level := "full" |}] /\
    memories_included (compilation_trace pack) = 1.
Proof.
  cbv zeta. split; [apply generateContextPack_bound|].
  intros M e rest c. apply nonpositive_cap_includes_one.
Qed.

End AgentFacts.

(** Witness of X27: one stored memory, asked for with [maxMemories: 0]. *)
Lemma generateContextPack_cap_witness :
  let stored := Samples.memory "m1" "semantic" 0 "blob-a" in
  let retrieve := fun cid_ : string =>
    if String.eqb cid_ "env-1" then Returns (MLP.EnvelopeData stored)
    else Throws "ENOENT" in
  let readContent := Samples.fetch_from [("blob-a", Text "remember")] in
  let pack := MLP.generateContextPack "local" ["env-1"] retrieve readContent "kernel-1"
                {| MLP.o_intent := None; MLP.o_memoryTypes := None;
                   MLP.o_maxMemories := Some 0 |} in
  MLP.memory_slices pack
  = [{| MLP.slice_envelope := stored; MLP.decrypted_content := Some (Text "remember");
        MLP.access_level := "full" |}] /\
  MLP.memories_included (MLP.compilation_trace pack) = 1.
Proof.
  intros stored retrieve readContent.
  apply (proj2 (generateContextPack_cap "local" ["env-1"] retrieve readContent "kernel-1"
                  {| MLP.o_intent := None; MLP.o_memoryTypes := None;
                     MLP.o_maxMemories := Some 0 |}) 0 stored [] (Text "remember"));
    first [reflexivity | lia].
Defined.

(** ** Reading the store back *)

Section RetrievalFacts.
Import Storage.

Variable home : string.
Variable sha256_hex : string -> string.
Variable storeIPFS : string -> outcome string.
Variable JSON_parse : string -> option Content.
Variable retrieveIPFS : string -> outcome Content.

Lemma local_file_inj (this : Storage) (a b : string) :
  plain_name a = true -> plain_name b = true ->
  local_file home this a = local_file home this b -> a = b.
Proof.
  unfold local_file. intros Ha Hb H.
  apply join_inj in H; try now apply json_file_name.
  now apply append_cancel_r in H.
Qed.

(** X28.  After [storeLocal(content)] the address it returned reads back as
    [content].  Among plain addresses (no path separator, as the addresses
    that [storeLocal] returns for a hexadecimal digest) every other address
    reads as it did before the write.  An address with path segments can
    name the same file: [x/../] before the address reads the content just
    written. *)
Theorem retrieveLocal_after_store (this : Storage) (fs : gmap string string)
    (content cid : string) :
  let (stored_cid, fs') := storeLocal home sha256_hex this fs content in
  Storage.retrieveLocal home this fs' stored_cid = Returns content /\
  (plain_name stored_cid = true -> plain_name cid = true -> cid <> stored_cid ->
   Storage.retrieveLocal home this fs' cid = Storage.retrieveLocal home this fs cid) /\
  (plain_name stored_cid = true ->
   Storage.retrieveLocal home this fs' ("x/../" ++ stored_cid) = Returns content).
Proof.
  unfold storeLocal, Storage.retrieveLocal. split; [|split].
  - now rewrite lookup_insert_eq.
  - intros Hstored Hcid Hne. rewrite lookup_insert_ne; [reflexivity|].
    intros H. apply local_file_inj in H; congruence.
  - intros Hstored.
    assert (Hsame : local_file home this ("x/../" ++ local_cid sha256_hex content)
                    = local_file home this (local_cid sha256_hex content)).
    { unfold local_file.
      destruct (join_file_name (replace_tilde home (localPath this)))
        as [directory Hjoin].
      destruct (Hjoin _ (json_file_name _ Hstored)) as [H1 H2].
      rewrite H1. exact H2. }
    now rewrite Hsame, lookup_insert_eq.
Qed.

(** X29.  Stored locally and retrieved, [data] comes back as itself exactly
    when [JSON.parse] of the stored text yields [data], or fails on a
    stored string: a string that is itself JSON text comes back parsed. *)
Theorem store_retrieve_roundtrip (this : Storage) (fs fs' : gmap string string)
    (data : Content) (cid : string) :
  provider this = "local" ->
  store home sha256_hex storeIPFS this fs data = Returns (cid, fs') ->
  (Retrieval.retrieve home JSON_parse retrieveIPFS this fs' cid = Returns data
   <-> JSON_parse (Retrieval.stored_text data) = Some data \/
       (JSON_parse (Retrieval.stored_text data) = None /\
        data = Text (Retrieval.stored_text data))).
Proof.
  intros Hlocal. unfold store, Retrieval.retrieve. rewrite Hlocal. cbn [String.eqb Ascii.eqb Bool.eqb].
  change (match data with Text s => s | Json json_text => json_text end)
    with (Retrieval.stored_text data).
  intros [= <- <-].
  unfold Retrieval.retrieveLocal, Storage.retrieveLocal.
  rewrite lookup_insert_eq. cbn [bind].
  destruct (JSON_parse (Retrieval.stored_text data)) as [parsed|].
  - split.
    + intros [= ->]. now left.
    + intros [[= ->]|[H _]]; [reflexivity|discriminate].
  - split.
    + intros [= <-]. right. split; reflexivity.
    + intros [H|[_ H]]; [discriminate|]. now rewrite H at 2.
Qed.

End RetrievalFacts.

(** Witness of X28: one object stored in an empty directory. *)
Lemma retrieveLocal_after_store_witness :
  let this := {| Storage.provider := "local"; Storage.localPath := "~/store" |} in
  let fs' := <[Storage.local_file "/home/agent" this "local_abc" := "remember"]>
               (∅ : gmap string string) in
  Storage.retrieveLocal "/home/agent" this fs' "local_abc" = Returns "remember" /\
  (plain_name "local_abc" = true -> plain_name "local_abd" = true ->
   "local_abd" <> "local_abc" ->
   Storage.retrieveLocal "/home/agent" this fs' "local_abd"
   = Storage.retrieveLocal "/home/agent" this ∅ "local_abd") /\
  (plain_name "local_abc" = true ->
   Storage.retrieveLocal "/home/agent" this fs' "x/../local_abc" = Returns "remember").
Proof.
  intros this fs'.
  exact (retrieveLocal_after_store "/home/agent" (fun _ => "abc") this ∅
           "remember" "local_abd").
Defined.


(** Witness of X29: the string 42 is stored and read back as the number. *)
Lemma store_retrieve_roundtrip_witness :
  let this := {| Storage.provider := "local"; Storage.localPath := "~/store" |} in
  let JSON_parse := fun s : string =>
    if String.eqb s "42" then Some (Json "42") else None in
  let cid := Storage.local_cid (fun s => s) "42" in
  let fs' := <[Storage.local_file "/home/agent" this cid := "42"]> (∅ : gmap string string) in
  Retrieval.retrieve "/home/agent" JSON_parse (fun _ => Throws "offline") this fs' cid
  = Returns (Text "42")
  <-> JSON_parse (Retrieval.stored_text (Text "42")) = Some (Text "42") \/
      (JSON_parse (Retrieval.stored_text (Text "42")) = None /\
       Text "42" = Text (Retrieval.stored_text (Text "42"))).
Proof.
  intros this JSON_parse cid fs'.
  apply (store_retrieve_roundtrip "/home/agent" (fun s => s) (fun _ => Throws "offline")
           JSON_parse (fun _ => Throws "offline") this ∅ fs' (Text "42") cid).
  - reflexivity.
  - reflexivity.
Defined.

(** ** Validating a compiled pack *)

Section PackCheckFacts.
Import PackCheck.

(** X30.  A pack that [compileContextPack] built validates at time [t]
    exactly when its id is not empty and it has not expired: with
    [expiresIn] left out or 0 it never expires, otherwise it is valid up
    to and including [now + expiresIn]; the only error reported for it is
    the expiration. *)
Theorem compiled_pack_validity (compiled_pack : ContextPack.Pack)
    (fresh_id : string) (compiled now t : Z) (expiresIn : option Z) :
  fresh_id <> "" ->
  let checked := validateContextPack
                   (build_pack compiled_pack fresh_id compiled now expiresIn) t in
  (valid checked = true <->
   default 0 expiresIn = 0 \/ t <= now + default 0 expiresIn) /\
  (valid checked = false -> errors checked = ["ContextPack has expired"]).
Proof.
  intros Hid. cbv zeta. unfold validateContextPack, build_pack.
  cbn [pack_id mlp_version kernel memory_slices compilation_trace compiled_at
       expires_at missing missing_text].
  rewrite (proj2 (String.eqb_neq _ _) Hid).
  cbn [String.eqb Ascii.eqb Bool.eqb check app].
  destruct expiresIn as [d|]; cbn [default].
  - change (default 0 (Some d)) with d.
    destruct (Z.eqb_spec d 0) as [->|Hd].
    + cbn. split; [|discriminate]. split; [now left|reflexivity].
    + destruct (Z.ltb_spec (now + d) t) as [Hlt|Hge]; cbn.
      * split; [|reflexivity]. split; [discriminate|]. lia.
      * split; [|discriminate]. split; [right; lia|reflexivity].
  - cbn. split; [|discriminate]. split; [now left|reflexivity].
Qed.

End PackCheckFacts.

(** Witness of X30: a pack compiled at 1000 with [expiresIn: 500]. *)
Lemma compiled_pack_validity_witness :
  let compiled_pack :=
    compileContextPack (fun _ => []) (Samples.fetch_from []) (fun _ => 1000)
      Samples.kernel "general" Samples.unconstrained in
  let checked := PackCheck.validateContextPack
                   (PackCheck.build_pack compiled_pack "pack-1" 1000 1000 (Some 500))
                   1500 in
  (PackCheck.valid checked = true <->
   default 0 (Some 500) = 0 \/ 1500 <= 1000 + default 0 (Some 500)) /\
  (PackCheck.valid checked = false ->
   PackCheck.errors checked = ["ContextPack has expired"]).
Proof.
  intros compiled_pack.
  apply (compiled_pack_validity compiled_pack "pack-1" 1000 1000 1500 (Some 500)).
  discriminate.
Defined.
